(** * Workflow engine: expression resolver, node handlers, executor, poller

    A shallow embedding of the hard core of the workflow backend
    ([app/utils/expression.py], [app/engine/node_handlers.py],
    [app/engine/executor.py], [app/services/gmail_poller.py]) and the
    properties its specification states about it.

    Conventions of the embedding:
    - a Python [str] is a [string]; each [ascii] stands for one code point
      below 256 (the Latin-1 range), which fixes what counts as white space
      and as a decimal digit;
    - JSON-like data (node data, context, payloads) is the type [value];
      a Python [dict] keeps insertion order and is an association list;
      floating point numbers are left out;
    - a Python exception is the [Raise] case of [pyres]; [try]/[except] is
      written out where the source has one. *)

From Stdlib Require Import ZArith List String Ascii Bool Lia DecimalString.
From stdpp Require Import base option gmap strings list.

Import ListNotations.
Set Warnings "-register-all".
Local Open Scope string_scope.
Local Open Scope Z_scope.

(** ** Python values and builtins *)

Module Py.

Inductive value : Type :=
| VNone
| VBool (b : bool)
| VInt (z : Z)
| VStr (s : string)
| VList (l : list value)
| VDict (d : list (string * value)).

Inductive exn : Type :=
| ValueError (msg : string)
| IndexError
| TypeError
| AttributeError
| OtherError (msg : string).

Inductive pyres (A : Type) : Type :=
| Ret (a : A)
| Raise (e : exn).
Arguments Ret {A} a.
Arguments Raise {A} e.

Definition bind {A B : Type} (m : pyres A) (k : A -> pyres B) : pyres B :=
  match m with
  | Ret a => k a
  | Raise e => Raise e
  end.

#[global] Instance pyres_bind : MBind pyres := fun A B k m => bind m k.
#[global] Instance pyres_ret : MRet pyres := fun A a => Ret a.

(** [d.get(k)] and [d.get(k, default)]: the first binding of the key. *)
Fixpoint dict_find (d : list (string * value)) (k : string) : option value :=
  match d with
  | [] => None
  | (k', v) :: rest => if String.eqb k' k then Some v else dict_find rest k
  end.

Definition dict_get (d : list (string * value)) (k : string) (dflt : value) : value :=
  match dict_find d k with
  | Some v => v
  | None => dflt
  end.

(** [d[k] = v]: an existing key keeps its position, a new key goes last. *)
Fixpoint dict_set (d : list (string * value)) (k : string) (v : value)
  : list (string * value) :=
  match d with
  | [] => [(k, v)]
  | (k', v') :: rest =>
      if String.eqb k' k then (k', v) :: rest else (k', v') :: dict_set rest k v
  end.

Definition is_None (v : value) : bool :=
  match v with VNone => true | _ => false end.

(** Truth value of an object, as [if x:] and [x or y] test it. *)
Definition truthy (v : value) : bool :=
  match v with
  | VNone => false
  | VBool b => b
  | VInt z => negb (z =? 0)
  | VStr s => negb (String.eqb s "")
  | VList l => match l with [] => false | _ => true end
  | VDict d => match d with [] => false | _ => true end
  end.

(** [a or b] *)
Definition py_or (a b : value) : value := if truthy a then a else b.

(** *** Characters *)

Definition code (c : ascii) : N := N_of_ascii c.

(** [str.isspace] on one code point below 256; this is also what [\s]
    matches in a [str] pattern and what [str.strip()] removes. *)
Definition is_space (c : ascii) : bool :=
  let n := code c in
  (((9 <=? n) && (n <=? 13)) || ((28 <=? n) && (n <=? 32))
   || (n =? 133) || (n =? 160))%N.

Definition newline : ascii := ascii_of_N 10.
Definition nl : string := String newline "".

Definition is_digit (c : ascii) : bool :=
  let n := code c in ((48 <=? n) && (n <=? 57))%N.

Definition digit_val (c : ascii) : Z := Z.of_N (code c) - 48.

(** *** Strings *)

Fixpoint lstrip (s : string) : string :=
  match s with
  | String c rest => if is_space c then lstrip rest else s
  | EmptyString => EmptyString
  end.

(** Removes trailing white space: a character is kept when something that
    is kept follows it, or when it is not white space itself. *)
Fixpoint rstrip (s : string) : string :=
  match s with
  | EmptyString => EmptyString
  | String c rest =>
      match rstrip rest with
      | EmptyString => if is_space c then EmptyString else String c EmptyString
      | r => String c r
      end
  end.

Definition strip (s : string) : string := rstrip (lstrip s).

(** [s.split(sep)] for a one-character separator: never an empty list. *)
Fixpoint split_on (sep : ascii) (s : string) : list string :=
  match s with
  | EmptyString => [EmptyString]
  | String c rest =>
      if Ascii.eqb c sep then EmptyString :: split_on sep rest
      else match split_on sep rest with
           | hd :: tl => String c hd :: tl
           | [] => [String c EmptyString]
           end
  end.

(** [sep.join(parts)] *)
Fixpoint join (sep : string) (parts : list string) : string :=
  match parts with
  | [] => ""
  | [p] => p
  | p :: rest => p ++ sep ++ join sep rest
  end.

(** *** [int(str)] in base 10

    Optional surrounding white space, an optional sign, then digits, where
    single underscores may separate digits. Anything else is a
    [ValueError]. The white space [int] skips is the ASCII white space and,
    above code point 127, what [str.isspace] accepts: the separators 28 to
    31 are not skipped. *)

Definition is_int_space (c : ascii) : bool :=
  let n := code c in
  (((9 <=? n) && (n <=? 13)) || (n =? 32) || (n =? 133) || (n =? 160))%N.

Fixpoint int_lstrip (s : string) : string :=
  match s with
  | String c rest => if is_int_space c then int_lstrip rest else s
  | EmptyString => EmptyString
  end.

Fixpoint int_rstrip (s : string) : string :=
  match s with
  | EmptyString => EmptyString
  | String c rest =>
      match int_rstrip rest with
      | EmptyString => if is_int_space c then EmptyString else String c EmptyString
      | r => String c r
      end
  end.

Definition int_strip (s : string) : string := int_rstrip (int_lstrip s).

(** [digits acc prev s]: [prev] tells whether the previous character was a
    digit (an underscore needs a digit on both sides). *)
Fixpoint digits (acc : Z) (prev : bool) (s : string) : option Z :=
  match s with
  | EmptyString => if prev then Some acc else None
  | String c rest =>
      if is_digit c then digits (10 * acc + digit_val c) true rest
      else if Ascii.eqb c "_" then (if prev then digits acc false rest else None)
      else None
  end.

Definition int_literal (s : string) : option Z :=
  match s with
  | String "-" rest => option_map Z.opp (digits 0 false rest)
  | String "+" rest => digits 0 false rest
  | _ => digits 0 false s
  end.

Definition py_int (s : string) : pyres Z :=
  match int_literal (int_strip s) with
  | Some z => Ret z
  | None => Raise (ValueError "invalid literal for int() with base 10")
  end.

(** [l[i]] on a list: negative indices count from the end. *)
Definition py_getitem (l : list value) (i : Z) : pyres value :=
  let n := Z.of_nat (length l) in
  let j := if i <? 0 then i + n else i in
  if (0 <=? j) && (j <? n)
  then match nth_error l (Z.to_nat j) with
       | Some v => Ret v
       | None => Raise IndexError
       end
  else Raise IndexError.

(** *** [str(x)] and [repr(x)] *)

Definition string_of_Z (z : Z) : string := NilZero.string_of_int (Z.to_int z).

Definition hex_digit (n : N) : ascii :=
  if (n <? 10)%N then ascii_of_N (48 + n) else ascii_of_N (87 + n).

Definition printable (c : ascii) : bool :=
  let n := code c in
  negb ((n <? 32) || ((127 <=? n) && (n <=? 160)) || (n =? 173))%N.

Definition repr_char (quote : ascii) (c : ascii) : string :=
  if Ascii.eqb c quote || Ascii.eqb c "\" then String "\" (String c "")
  else if (code c =? 9)%N then "\t"
  else if (code c =? 10)%N then "\n"
  else if (code c =? 13)%N then "\r"
  else if printable c then String c ""
  else String "\" (String "x"
         (String (hex_digit (code c / 16)) (String (hex_digit (code c mod 16)) ""))).

Fixpoint has_char (c : ascii) (s : string) : bool :=
  match s with
  | EmptyString => false
  | String c' rest => Ascii.eqb c c' || has_char c rest
  end.

Fixpoint concat_map (f : ascii -> string) (s : string) : string :=
  match s with
  | EmptyString => EmptyString
  | String c rest => f c ++ concat_map f rest
  end.

Definition squote : ascii := "'".
Definition dquote : ascii := ascii_of_N 34.

Definition repr_str (s : string) : string :=
  let q := if has_char squote s && negb (has_char dquote s) then dquote else squote in
  String q (concat_map (repr_char q) s ++ String q "").

Fixpoint py_repr (v : value) : string :=
  match v with
  | VNone => "None"
  | VBool true => "True"
  | VBool false => "False"
  | VInt z => string_of_Z z
  | VStr s => repr_str s
  | VList l => "[" ++ join ", " (map py_repr l) ++ "]"
  | VDict d =>
      "{" ++ join ", " (map (fun kv => repr_str (fst kv) ++ ": " ++ py_repr (snd kv)) d)
          ++ "}"
  end.

Definition py_str (v : value) : string :=
  match v with
  | VStr s => s
  | _ => py_repr v
  end.

(** Iterating an object, as a comprehension [for v in x] does: a list gives
    its elements, a dict its keys, a string its characters; [None], a
    boolean or a number is not iterable. *)
Fixpoint chars (s : string) : list value :=
  match s with
  | EmptyString => []
  | String c rest => VStr (String c "") :: chars rest
  end.

Definition py_iter (v : value) : pyres (list value) :=
  match v with
  | VList l => Ret l
  | VDict d => Ret (map (fun kv => VStr (fst kv)) d)
  | VStr s => Ret (chars s)
  | _ => Raise TypeError
  end.

End Py.

(** ** Regular expressions of the source

    The three compiled patterns of the code base, each as the function that
    tries the pattern at the start of a string. None of them matches the
    empty string, so [re_sub] is [re.sub] with a callable replacement. *)

Module Re.
Import Py.

(** A match at the start of the subject: the text of group 1 (or of the
    whole match when the pattern has no group) and the match length. *)
Definition matcher := string -> option (string * nat).

(** [pattern.sub(repl, s)]: leftmost matches, not overlapping. [skip] counts
    the characters of the current match that are still to be dropped. *)
Fixpoint sub_from (m : matcher) (repl : string -> string) (skip : nat) (s : string)
  : string :=
  match s with
  | EmptyString => EmptyString
  | String c rest =>
      match skip with
      | S k => sub_from m repl k rest
      | O =>
          match m s with
          | Some (g, len) => repl g ++ sub_from m repl (Nat.pred len) rest
          | None => String c (sub_from m repl O rest)
          end
      end
  end.

Definition re_sub (m : matcher) (repl : string -> string) (s : string) : string :=
  sub_from m repl O s.

(** *** [EXPRESSION_PATTERN = \{\{(.+?)\}\}] *)

(** The lazy [.+?] after its first character: stop at the first [}}]; [.]
    does not match a newline. Returns the rest of group 1. *)
Fixpoint lazy_until_close (s : string) : option string :=
  match s with
  | String "}" (String "}" _) => Some EmptyString
  | String c rest =>
      if Ascii.eqb c newline then None
      else option_map (String c) (lazy_until_close rest)
  | EmptyString => None
  end.

Definition expression_at : matcher := fun s =>
  match s with
  | String "{" (String "{" (String c rest)) =>
      if Ascii.eqb c newline then None
      else match lazy_until_close rest with
           | Some g => Some (String c g, (String.length g + 5)%nat)
           | None => None
           end
  | _ => None
  end.

Fixpoint no_newline (s : string) : bool :=
  match s with
  | EmptyString => true
  | String c rest => negb (Ascii.eqb c newline) && no_newline rest
  end.

(** [EXPRESSION_PATTERN.fullmatch(s)]: the whole subject has to be
    consumed, so the closing braces are the last two characters and group 1
    is everything between them and the opening braces. *)
Definition fullmatch_expression (s : string) : option string :=
  match s with
  | String "{" (String "{" rest) =>
      let n := String.length rest in
      let g := substring 0 (n - 2) rest in
      if (3 <=? n)%nat && String.eqb (substring (n - 2) 2 rest) "}}" && no_newline g
      then Some g else None
  | _ => None
  end.

(** *** [<[^>]+>] *)

(** The greedy [[^>]+] stops at the first [>]; the result is the number of
    characters before it. *)
Fixpoint until_gt (s : string) : option nat :=
  match s with
  | EmptyString => None
  | String c rest =>
      if Ascii.eqb c ">" then Some O else option_map S (until_gt rest)
  end.

Definition tag_at : matcher := fun s =>
  match s with
  | String "<" rest =>
      match until_gt rest with
      | Some (S n) => Some (substring 0 (S n + 2) s, (S n + 2)%nat)
      | _ => None
      end
  | _ => None
  end.

(** *** [\s+] *)

Fixpoint space_run (s : string) : nat :=
  match s with
  | String c rest => if is_space c then S (space_run rest) else O
  | EmptyString => O
  end.

Definition spaces_at : matcher := fun s =>
  match space_run s with
  | O => None
  | n => Some (substring 0 n s, n)
  end.

End Re.

(** ** [app/utils/expression.py] *)

Module Expression.
Import Py Re.

(** One step of the loop of [resolve_expression], with the [try] around the
    list access written out: [ValueError] and [IndexError] end the function
    with [None], any other exception would propagate. *)
Fixpoint walk (parts : list string) (current : value) : pyres value :=
  match parts with
  | [] => Ret current
  | part :: rest =>
      match current with
      | VDict d =>
          let current' := dict_get d part VNone in
          if is_None current' then Ret VNone else walk rest current'
      | VList l =>
          match (i ← py_int part; py_getitem l i) with
          | Ret current' =>
              if is_None current' then Ret VNone else walk rest current'
          | Raise (ValueError _) | Raise IndexError => Ret VNone
          | Raise e => Raise e
          end
      | _ => Ret VNone
      end
  end.

Definition resolve_expression (expression : string) (context : list (string * value))
  : pyres value :=
  let parts := split_on "." (strip expression) in
  walk parts (VDict context).

(** The [replacer] closure of [interpolate]; [re.sub] needs a string, so an
    exception of the resolver would escape from [sub]. *)
Definition replacer (context : list (string * value)) (g : string) : pyres string :=
  val ← resolve_expression g context;
  mret (if is_None val then "" else py_str val).

(** [EXPRESSION_PATTERN.sub(replacer, template)] with a replacement that may
    raise. *)
Fixpoint sub_expressions (context : list (string * value)) (skip : nat) (s : string)
  : pyres string :=
  match s with
  | EmptyString => Ret EmptyString
  | String c rest =>
      match skip with
      | S k => sub_expressions context k rest
      | O =>
          match expression_at s with
          | Some (g, len) =>
              r ← replacer context g;
              tail ← sub_expressions context (Nat.pred len) rest;
              mret (r ++ tail)
          | None =>
              tail ← sub_expressions context O rest;
              mret (String c tail)
          end
      end
  end.

Fixpoint interpolate (template : value) (context : list (string * value))
  : pyres value :=
  match template with
  | VStr s =>
      match fullmatch_expression s with
      | Some g => resolve_expression g context
      | None => r ← sub_expressions context O s; mret (VStr r)
      end
  | VDict d =>
      d' ← (fix items (d : list (string * value)) : pyres (list (string * value)) :=
              match d with
              | [] => Ret []
              | (k, v) :: rest =>
                  v' ← interpolate v context;
                  rest' ← items rest;
                  mret ((k, v') :: rest')
              end) d;
      mret (VDict d')
  | VList l =>
      l' ← (fix elems (l : list value) : pyres (list value) :=
              match l with
              | [] => Ret []
              | item :: rest =>
                  item' ← interpolate item context;
                  rest' ← elems rest;
                  mret (item' :: rest')
              end) l;
      mret (VList l')
  | _ => Ret template
  end.

(** [interpolate] on a mapping, as the executor calls it on node data; the
    comprehension always builds a mapping. *)
Definition interpolate_dict (template context : list (string * value))
  : pyres (list (string * value)) :=
  r ← interpolate (VDict template) context;
  match r with
  | VDict d => Ret d
  | _ => Raise TypeError
  end.

End Expression.

(** ** [app/utils/expression.py] on the interpreter's objects

    The same two functions with what the idealised embedding above leaves
    out: lists and dicts are objects in a store, so that sharing and
    mutation can be told apart from building new objects, and CPython's two
    limits are written out, the recursion limit and the limit on the number
    of digits in conversions between [int] and [str]. *)

Module Interpreter.
Import Py Re.

(** A value as a variable holds it: an immutable scalar, or a reference to
    a list or dict in the store. *)
Inductive ref : Type :=
| RNone
| RBool (b : bool)
| RInt (z : Z)
| RStr (s : string)
| RObj (l : nat).

Inductive object : Type :=
| OList (items : list ref)
| ODict (entries : list (string * ref)).

(** The store: the object at location [l] is the [l]-th entry; a new object
    goes to the end. *)
Abbreviation store := (list object).

Definition is_none (v : ref) : bool :=
  match v with RNone => true | _ => false end.

Definition RecursionError : exn :=
  OtherError "RecursionError: maximum recursion depth exceeded".

(** [sys.get_int_max_str_digits()], CPython's default. *)
Definition INT_MAX_STR_DIGITS : nat := 4300.

Definition digits_error : exn :=
  ValueError "Exceeds the limit (4300 digits) for integer string conversion".

Fixpoint count_digits (s : string) : nat :=
  match s with
  | EmptyString => O
  | String c rest => if is_digit c then S (count_digits rest) else count_digits rest
  end.

(** [int(s)]: a string with more digits than the limit is refused. *)
Definition int_of (s : string) : pyres Z :=
  if (INT_MAX_STR_DIGITS <? count_digits s)%nat then Raise digits_error else py_int s.

(** [str(z)] for an integer: refused when it has more digits than the
    limit. *)
Definition int_str (z : Z) : pyres string :=
  if 10 ^ Z.of_nat INT_MAX_STR_DIGITS <=? Z.abs z then Raise digits_error
  else Ret (string_of_Z z).

Fixpoint mapM {A B : Type} (f : A -> pyres B) (l : list A) : pyres (list B) :=
  match l with
  | [] => Ret []
  | x :: rest => y ← f x; ys ← mapM f rest; mret (y :: ys)
  end.

(** [repr(v)]. [room] is the depth of nesting that [repr] still has room
    for; [active] holds the lists and dicts whose [repr] is under way, which
    are printed as [[...]] and [{...}] when met again. A location without
    an object stands for an object of another class, whose [repr] is not
    modelled. *)
Fixpoint repr (room : nat) (active : list nat) (h : store) (v : ref) : pyres string :=
  match room with
  | O => Raise RecursionError
  | S room =>
      match v with
      | RNone => Ret "None"
      | RBool true => Ret "True"
      | RBool false => Ret "False"
      | RInt z => int_str z
      | RStr s => Ret (repr_str s)
      | RObj l =>
          match h !! l with
          | Some (OList items) =>
              if bool_decide (l ∈ active) then Ret "[...]"
              else
                strs ← mapM (repr room (l :: active) h) items;
                mret ("[" ++ join ", " strs ++ "]")
          | Some (ODict entries) =>
              if bool_decide (l ∈ active) then Ret "{...}"
              else
                strs ← mapM (fun kv =>
                               r ← repr room (l :: active) h (snd kv);
                               mret (repr_str (fst kv) ++ ": " ++ r)) entries;
                mret ("{" ++ join ", " strs ++ "}")
          | None => Raise (OtherError "repr of an object of another class")
          end
      end
  end.

(** [d.get(k)] *)
Fixpoint get (entries : list (string * ref)) (k : string) : ref :=
  match entries with
  | [] => RNone
  | (k', v) :: rest => if String.eqb k' k then v else get rest k
  end.

(** [l[i]]: negative indices count from the end. *)
Definition getitem (items : list ref) (i : Z) : pyres ref :=
  let n := Z.of_nat (length items) in
  let j := if i <? 0 then i + n else i in
  if (0 <=? j) && (j <? n)
  then match nth_error items (Z.to_nat j) with
       | Some v => Ret v
       | None => Raise IndexError
       end
  else Raise IndexError.

(** The loop of [resolve_expression]. It only reads the store. *)
Fixpoint walk (h : store) (parts : list string) (current : ref) : pyres ref :=
  match parts with
  | [] => Ret current
  | part :: rest =>
      match current with
      | RObj l =>
          match h !! l with
          | Some (ODict entries) =>
              let current' := get entries part in
              if is_none current' then Ret RNone else walk h rest current'
          | Some (OList items) =>
              match (i ← int_of part; getitem items i) with
              | Ret current' =>
                  if is_none current' then Ret RNone else walk h rest current'
              | Raise (ValueError _) | Raise IndexError => Ret RNone
              | Raise e => Raise e
              end
          | None => Ret RNone
          end
      | _ => Ret RNone
      end
  end.

Definition resolve_expression (h : store) (expression : string) (context : ref)
  : pyres ref :=
  walk h (split_on "." (strip expression)) context.

(** A Python call made when [room] frames are left needs [frames] of them
    (the frames of the calls nested in it included). *)
Definition call {A : Type} (room frames : nat) (m : pyres A) : pyres A :=
  if (room <? frames)%nat then Raise RecursionError else m.

(** One function applied to the elements of a list in order, each on the
    store the one before left. *)
Fixpoint traverse {A B : Type} (f : A -> store -> store * pyres B) (l : list A) (h : store)
  : store * pyres (list B) :=
  match l with
  | [] => (h, Ret [])
  | x :: rest =>
      match f x h with
      | (h1, Ret y) =>
          match traverse f rest h1 with
          | (h2, Ret ys) => (h2, Ret (y :: ys))
          | (h2, Raise e) => (h2, Raise e)
          end
      | (h1, Raise e) => (h1, Raise e)
      end
  end.

(** The object a comprehension builds, put into the store. *)
Definition build (make : list ref -> object) (r : store * pyres (list ref))
  : store * pyres ref :=
  match r with
  | (h, Ret items) => ((h ++ [make items])%list, Ret (RObj (length h)))
  | (h, Raise e) => (h, Raise e)
  end.

Section Limits.

(** The depth of nesting [repr] has room for, and whether a comprehension
    runs in a frame of its own (it does up to CPython 3.11). *)
Variable repr_room : nat.
Variable comprehension_frame : bool.

(** [str(val)] *)
Definition str (h : store) (v : ref) : pyres string :=
  match v with
  | RStr s => Ret s
  | _ => repr repr_room [] h v
  end.

(** The [replacer] closure; it calls [resolve_expression] and [str]. *)
Definition replacer (h : store) (context : ref) (g : string) : pyres string :=
  val ← resolve_expression h g context;
  if is_none val then Ret "" else str h val.

(** [EXPRESSION_PATTERN.sub(replacer, template)] when [room] frames are
    left: every match calls [replacer], which calls [resolve_expression]. *)
Fixpoint sub_expressions (room : nat) (h : store) (context : ref) (skip : nat) (s : string)
  : pyres string :=
  match s with
  | EmptyString => Ret EmptyString
  | String c rest =>
      match skip with
      | S k => sub_expressions room h context k rest
      | O =>
          match expression_at s with
          | Some (g, len) =>
              r ← call room 2 (replacer h context g);
              tail ← sub_expressions room h context (Nat.pred len) rest;
              mret (r ++ tail)
          | None =>
              tail ← sub_expressions room h context O rest;
              mret (String c tail)
          end
      end
  end.

(** [interpolate(template, context)] called when [room] frames are left:
    the store afterwards and the result. The call takes one frame, a
    comprehension one more where it has a frame of its own. *)
Fixpoint interpolate (room : nat) (template context : ref) (h : store) {struct room}
  : store * pyres ref :=
  match room with
  | O => (h, Raise RecursionError)
  | S room =>
      match template with
      | RStr s =>
          match fullmatch_expression s with
          | Some g => (h, call room 1 (resolve_expression h g context))
          | None => (h, r ← sub_expressions room h context O s; mret (RStr r))
          end
      | RObj l =>
          match h !! l with
          | None => (h, Ret template)
          | Some o =>
              let comprehension :=
                fun (rec : ref -> store -> store * pyres ref) =>
                  match o with
                  | ODict entries =>
                      build (fun vs => ODict (zip (map fst entries) vs))
                            (traverse rec (map snd entries) h)
                  | OList items => build OList (traverse rec items h)
                  end in
              match comprehension_frame, room with
              | true, O => (h, Raise RecursionError)
              | true, S inner => comprehension (fun v h1 => interpolate inner v context h1)
              | false, _ => comprehension (fun v h1 => interpolate room v context h1)
              end
          end
      | _ => (h, Ret template)
      end
  end.

End Limits.

(** *** Vocabulary of stores *)

Definition ref_ok (h : store) (v : ref) : bool :=
  match v with
  | RObj l => (l <? length h)%nat
  | _ => true
  end.

Definition values_of (o : object) : list ref :=
  match o with
  | OList items => items
  | ODict entries => map snd entries
  end.

(** Every reference held in the store points to an object of the store. *)
Definition closed (h : store) : bool :=
  forallb (fun o => forallb (ref_ok h) (values_of o)) h.

(** [str()] of every value held in an object of the store returns: no
    integer has more digits than the limit, and [repr] has room for the
    nesting. *)
Definition renders (repr_room : nat) (h : store) : bool :=
  forallb (fun o =>
             forallb (fun v => match str repr_room h v with Ret _ => true | Raise _ => false end)
                     (values_of o)) h.

(** The lists and dicts of the template nest at most [n] deep. *)
Fixpoint nesting_le (n : nat) (h : store) (template : ref) : bool :=
  match template with
  | RObj l =>
      match h !! l with
      | Some o =>
          match n with
          | O => false
          | S n' => forallb (nesting_le n' h) (values_of o)
          end
      | None => true
      end
  | _ => true
  end.

(** The frames a level of nesting takes. *)
Definition frames_per_level (comprehension_frame : bool) : nat :=
  if comprehension_frame then 2%nat else 1%nat.

(** A store with a context (at 0) that holds a list which contains itself
    (at 1), and node data (at 2) with a list (at 3). *)
Definition sample : store :=
  [ODict [("a", RStr "x"); ("n", RInt 5); ("xs", RObj 1); ("none", RNone)];
   OList [RInt 1; RInt 2; RObj 1];
   ODict [("to", RStr "{{a}}"); ("msg", RStr "n={{n}} {{xs}} {{none}}|{{xs.-1.0}}");
          ("items", RObj 3)];
   OList [RStr "{{xs}}"; RBool true]].

(** A context whose entry [n] is the integer [10 ** 4300], which has 4301
    digits. *)
Definition long_integer : store :=
  [ODict [("n", RInt (10 ^ 4300))]].

End Interpreter.

(** ** [app/engine/node_handlers.py] *)

Module Handlers.
Import Py Re.

(** A handler's [execute(data, context, db)]: the resolved node data and the
    run context in, a result mapping (with its ["output"] entry) out. *)
Definition handler : Type :=
  list (string * value) -> list (string * value) -> pyres value.

(** [x.strip()] where [x] came out of node data: only a string has the
    method. *)
Definition strip_of (v : value) : pyres string :=
  match v with
  | VStr s => Ret (strip s)
  | _ => Raise AttributeError
  end.

(** [d.get(k, dflt)] on something that is only known to be a value. *)
Definition get_of (v : value) (k : string) (dflt : value) : pyres value :=
  match v with
  | VDict d => Ret (dict_get d k dflt)
  | _ => Raise AttributeError
  end.

(** *** Email trigger *)

Definition EmailTriggerNodeHandler : handler := fun data context =>
  trigger ← mret (dict_get context "trigger" (VDict []));
  trigger_body ← get_of trigger "body" (VDict []);
  let trigger_body :=
    match trigger_body with
    | VDict tb =>
        match dict_find tb "body" with
        | Some (VDict inner) => VDict inner
        | _ => trigger_body
        end
    | _ => trigger_body
    end in
  s ← get_of trigger_body "subject" VNone;
  let subject := if truthy s then s else dict_get data "test_subject" (VStr "(No Subject)") in
  b ← get_of trigger_body "body" VNone;
  let body := if truthy b then b else dict_get data "test_body" (VStr "(No Body)") in
  f ← get_of trigger_body "sender" VNone;
  let sender := if truthy f then f else dict_get data "test_sender" (VStr "unknown@example.com") in
  a ← get_of trigger_body "attachments" VNone;
  r ← get_of trigger_body "received_at" VNone;
  mret (VDict [("output", VDict [
    ("subject", subject);
    ("body", body);
    ("sender", sender);
    ("attachments", py_or a (VList []));
    ("received_at", py_or r (VStr ""));
    ("raw", trigger_body)])]).

(** *** Extract content *)

Definition TAG_SUB (body : string) : string := re_sub tag_at (fun _ => " ") body.
Definition SPACE_SUB (s : string) : string := re_sub spaces_at (fun _ => " ") s.

(** The two substitutions and the [strip()] that produce [clean_body]. *)
Definition clean (body : string) : string := strip (SPACE_SUB (TAG_SUB body)).

Section ExtractContent.

(** [base64.b64decode(content).decode("utf-8", errors="ignore")], a library
    call on the attachment's content. *)
Variable b64_utf8 : value -> pyres string.

(** The text recorded for one element of [attachments]; nothing for an
    element that is not a mapping. *)
Definition attachment_text (att : value) : option string :=
  match att with
  | VDict a =>
      let name := dict_get a "filename" (dict_get a "name" (VStr "attachment")) in
      let content := dict_get a "content" (VStr "") in
      Some
        (if truthy content then
           match b64_utf8 content with
           | Ret decoded => "[Attachment: " ++ py_str name ++ "]" ++ nl ++ decoded
           | Raise _ => "[Attachment: " ++ py_str name ++ "] (binary, not decoded)"
           end
         else "[Attachment: " ++ py_str name ++ "]")
  | _ => None
  end.

Definition attachment_texts (attachments : value) : list string :=
  match attachments with
  | VList l => omap attachment_text l
  | _ => []
  end.

Definition combined_text (subject clean_body : string) (texts : list string) : string :=
  let combined := "Subject: " ++ subject ++ nl ++ nl ++ "Body:" ++ nl ++ clean_body in
  match texts with
  | [] => combined
  | _ => combined ++ (nl ++ nl ++ "Attachments:" ++ nl) ++ join (nl ++ nl) texts
  end.

Definition ExtractContentNodeHandler : handler := fun data context =>
  let subject := py_str (dict_get data "subject" (VStr "")) in
  let body := py_str (dict_get data "body" (VStr "")) in
  let attachments := dict_get data "attachments" (VList []) in
  let clean_body := clean body in
  let texts := attachment_texts attachments in
  let combined := combined_text subject clean_body texts in
  Ret (VDict [("output", VDict [
    ("subject", VStr subject);
    ("clean_body", VStr clean_body);
    ("attachment_count",
       VInt (match attachments with VList l => Z.of_nat (length l) | _ => 0 end));
    ("attachment_texts", VList (map VStr texts));
    ("combined_text", VStr combined)])]).

End ExtractContent.

(** *** Summarize *)

Section Summarize.

(** [get_settings().OPENAI_API_KEY] and the chat call with everything after
    it (the upstream answer decides the output). *)
Variable OPENAI_API_KEY : string.
Variable chat_completion : string -> list (string * value) -> pyres value.

Definition SummarizeNodeHandler : handler := fun data context =>
  api_key ← strip_of (dict_get data "api_key" (VStr ""));
  let api_key := if String.eqb api_key "" then OPENAI_API_KEY else api_key in
  if String.eqb api_key ""
  then Raise (ValueError "OpenAI API key is required. Set it in the Summarize node config.")
  else chat_completion api_key data.

End Summarize.

(** *** Google Sheets *)

Record append_request : Type := {
  spreadsheet_id : string;
  sheet_name : string;
  service_account_json : string;
  bearer_token : string;
  values : list string
}.

Section GoogleSheets.

(** [json.loads] and the upstream append call (either auth mode). *)
Variable json_loads : string -> pyres value.
Variable append_row : append_request -> pyres value.

Definition COLUMNS : list string :=
  ["col_subject"; "col_sender"; "col_summary"; "col_category"; "col_sentiment";
   "col_action_items"; "col_received_at"].

(** The row built from [row_values], or from the [col_*] fields when
    [row_values] is empty or missing. *)
Definition row_values (data : list (string * value)) : pyres (list string) :=
  let row_template := dict_get data "row_values" (VList []) in
  let row_template :=
    match row_template with
    | VStr s =>
        match json_loads s with
        | Ret parsed => parsed
        | Raise _ => VList [row_template]
        end
    | _ => row_template
    end in
  if truthy row_template
  then vs ← py_iter row_template; mret (map py_str vs)
  else Ret (map (fun c => py_str (dict_get data c (VStr ""))) COLUMNS).

(** [execute] up to the upstream call. *)
Definition prepare (data : list (string * value)) : pyres append_request :=
  sid ← strip_of (dict_get data "spreadsheet_id" (VStr ""));
  sheet ← strip_of (dict_get data "sheet_name" (VStr "Sheet1"));
  let sheet := if String.eqb sheet "" then "Sheet1" else sheet in
  bearer ← strip_of (dict_get data "bearer_token" (VStr ""));
  sa ← strip_of (dict_get data "service_account_json" (VStr ""));
  if String.eqb sid "" then Raise (ValueError "Google Sheets: spreadsheet_id is required.")
  else
    vals ← row_values data;
    if String.eqb sa "" && String.eqb bearer ""
    then Raise (ValueError
      "Google Sheets: provide either a service_account_json or bearer_token in the node config.")
    else Ret {| spreadsheet_id := sid; sheet_name := sheet;
                service_account_json := sa; bearer_token := bearer; values := vals |}.

Definition GoogleSheetsNodeHandler : handler := fun data context =>
  req ← prepare data;
  append_row req.

End GoogleSheets.

(** *** Response *)

Definition ResponseNodeHandler : handler := fun data context =>
  Ret (VDict [("output", VDict [
    ("type", VStr "json");
    ("data", dict_get data "body" (VDict []))])]).

(** *** Registry *)

Section Registry.

Variable b64_utf8 : value -> pyres string.
Variable OPENAI_API_KEY : string.
Variable chat_completion : string -> list (string * value) -> pyres value.
Variable json_loads : string -> pyres value.
Variable append_row : append_request -> pyres value.

Definition _HANDLERS : list (string * handler) :=
  [("email_trigger", EmailTriggerNodeHandler);
   ("extract_content", ExtractContentNodeHandler b64_utf8);
   ("summarize", SummarizeNodeHandler OPENAI_API_KEY chat_completion);
   ("google_sheets", GoogleSheetsNodeHandler json_loads append_row);
   ("response", ResponseNodeHandler)].

Fixpoint assoc {A : Type} (l : list (string * A)) (k : string) : option A :=
  match l with
  | [] => None
  | (k', a) :: rest => if String.eqb k' k then Some a else assoc rest k
  end.

Definition get_node_handler (node_type : string) : pyres handler :=
  match assoc _HANDLERS node_type with
  | Some h => Ret h
  | None =>
      Raise (ValueError ("Unknown node type: '" ++ node_type ++ "'. Supported: "
                         ++ py_repr (VList (map (fun kh => VStr (fst kh)) _HANDLERS))))
  end.

End Registry.

End Handlers.

(** ** [app/models]: the records the executor reads and writes *)

Module WorkflowNode.
Record t : Type := {
  id : string;          (* [str(node.id)] *)
  node_key : string;    (* not nullable, default [""] *)
  type : string;
  data : option (list (string * Py.value))   (* JSON column: a mapping, or null *)
}.
End WorkflowNode.

Module WorkflowEdge.
Record t : Type := { source : string; target : string }.
End WorkflowEdge.

Module Workflow.
Record t : Type := {
  id : string;
  variables : Py.value;
  nodes : list WorkflowNode.t;
  edges : list WorkflowEdge.t
}.
End Workflow.

Inductive run_status : Type :=
| RunPending | RunRunning | RunCompleted | RunFailed | RunCancelled.

Inductive node_run_status : Type :=
| NodePending | NodeRunning | NodeCompleted | NodeFailed | NodeSkipped.

Module NodeRun.
Record t : Type := {
  node_id : string;
  node_key : option string;
  status : node_run_status;
  input_data : option Py.value;
  output_data : option Py.value;
  error : option string;
  token_usage : option Py.value
}.
End NodeRun.

Module WorkflowRun.
Record t : Type := {
  workflow_id : string;
  status : run_status;
  trigger_type : string;
  input_payload : Py.value;
  output_payload : option Py.value;
  error : option string
}.
End WorkflowRun.

(** ** [app/engine/executor.py] *)

Module Executor.
Import Py Handlers.

(** [in_degree[k]] on the [defaultdict(int)]. *)
Definition deg (in_degree : gmap string Z) (k : string) : Z :=
  default 0 (in_degree !! k).

(** [adjacency.get(k, [])] *)
Definition succs (adjacency : gmap string (list string)) (k : string) : list string :=
  default [] (adjacency !! k).

(** The loop over the edges: both tables. *)
Definition add_edge (tables : gmap string (list string) * gmap string Z)
    (edge : WorkflowEdge.t) : gmap string (list string) * gmap string Z :=
  let '(adjacency, in_degree) := tables in
  let src := WorkflowEdge.source edge in
  let tgt := WorkflowEdge.target edge in
  (<[src := (succs adjacency src ++ [tgt])%list]> adjacency,
   <[tgt := deg in_degree tgt + 1]> in_degree).

Definition build_tables (edges : list WorkflowEdge.t)
  : gmap string (list string) * gmap string Z :=
  fold_left add_edge edges (∅, ∅).

(** [if nid not in in_degree: in_degree[nid] = 0], for every node id. *)
Definition init_in_degree (all_node_ids : list string) (in_degree : gmap string Z)
  : gmap string Z :=
  fold_left (fun m nid => match m !! nid with Some _ => m | None => <[nid := 0]> m end)
            all_node_ids in_degree.

(** The inner [for neighbor in adjacency.get(current, [])] loop. *)
Fixpoint relax (neighbors : list string) (in_degree : gmap string Z) (queue : list string)
  : gmap string Z * list string :=
  match neighbors with
  | [] => (in_degree, queue)
  | neighbor :: rest =>
      let d := deg in_degree neighbor - 1 in
      relax rest (<[neighbor := d]> in_degree)
            (if d =? 0 then (queue ++ [neighbor])%list else queue)
  end.

(** The [while queue] loop; [None] when the fuel runs out before the queue
    is empty. *)
Fixpoint drain (fuel : nat) (adjacency : gmap string (list string))
    (in_degree : gmap string Z) (queue sorted_nodes : list string)
  : option (list string) :=
  match queue with
  | [] => Some sorted_nodes
  | current :: queue' =>
      match fuel with
      | O => None
      | S fuel' =>
          let '(in_degree', queue'') := relax (succs adjacency current) in_degree queue' in
          drain fuel' adjacency in_degree' queue'' (sorted_nodes ++ [current])%list
      end
  end.

(** Kahn's algorithm. [all_node_ids] is [set(nodes_map.keys())] in the order
    in which the set is iterated: Python fixes no order for a set of
    strings, so the order is an input of the model. *)
Definition _topological_sort (all_node_ids : list string) (edges : list WorkflowEdge.t)
  : option (list string) :=
  let '(adjacency, in_degree) := build_tables edges in
  let in_degree := init_in_degree all_node_ids in_degree in
  let queue := filter (fun nid => deg in_degree nid = 0) all_node_ids in
  drain (length all_node_ids + length edges) adjacency in_degree queue [].

(** [n.node_key or str(n.id)] *)
Definition key_of (n : WorkflowNode.t) : string :=
  if String.eqb (WorkflowNode.node_key n) "" then WorkflowNode.id n
  else WorkflowNode.node_key n.

(** [d[k] = n] on the insertion-ordered [nodes_map]. *)
Fixpoint map_set (m : list (string * WorkflowNode.t)) (k : string) (n : WorkflowNode.t)
  : list (string * WorkflowNode.t) :=
  match m with
  | [] => [(k, n)]
  | (k', n') :: rest =>
      if String.eqb k' k then (k', n) :: rest else (k', n') :: map_set rest k n
  end.

Definition build_nodes_map (nodes : list WorkflowNode.t) : list (string * WorkflowNode.t) :=
  fold_left (fun m n => map_set m (key_of n) n) nodes [].

Section Execute.

(** The registry lookup, [traceback.format_exc()] and the iteration order
    of a set of keys. *)
Variable get_node_handler : string -> pyres handler.
Variable format_exc : exn -> string.
Variable set_iter : list string -> list string.

(** A fresh [NodeRun(run_id, node_id, status="running", started_at)]. *)
Definition new_node_run (node : WorkflowNode.t) : NodeRun.t := {|
  NodeRun.node_id := WorkflowNode.id node;
  NodeRun.node_key := None;
  NodeRun.status := NodeRunning;
  NodeRun.input_data := None;
  NodeRun.output_data := None;
  NodeRun.error := None;
  NodeRun.token_usage := None |}.

Definition set_input (nr : NodeRun.t) (v : value) : NodeRun.t := {|
  NodeRun.node_id := NodeRun.node_id nr;
  NodeRun.node_key := NodeRun.node_key nr;
  NodeRun.status := NodeRun.status nr;
  NodeRun.input_data := Some v;
  NodeRun.output_data := NodeRun.output_data nr;
  NodeRun.error := NodeRun.error nr;
  NodeRun.token_usage := NodeRun.token_usage nr |}.

(** The last four assignments of the [try] block. *)
Definition set_completed (nr : NodeRun.t) (node_key : string) (output : value)
    (usage : option value) : NodeRun.t := {|
  NodeRun.node_id := NodeRun.node_id nr;
  NodeRun.node_key := Some node_key;
  NodeRun.status := NodeCompleted;
  NodeRun.input_data := NodeRun.input_data nr;
  NodeRun.output_data := Some output;
  NodeRun.error := NodeRun.error nr;
  NodeRun.token_usage := usage |}.

(** The [except Exception] block. *)
Definition set_failed (nr : NodeRun.t) (e : exn) : NodeRun.t := {|
  NodeRun.node_id := NodeRun.node_id nr;
  NodeRun.node_key := NodeRun.node_key nr;
  NodeRun.status := NodeFailed;
  NodeRun.input_data := NodeRun.input_data nr;
  NodeRun.output_data := NodeRun.output_data nr;
  NodeRun.error := Some (format_exc e);
  NodeRun.token_usage := NodeRun.token_usage nr |}.

(** [_execute_node]: the node run it returns and the context afterwards.
    The handler's result has to be a mapping for [result.get] to work. *)
Definition _execute_node (context : list (string * value)) (node : WorkflowNode.t)
  : list (string * value) * NodeRun.t :=
  let node_run := new_node_run node in
  match Expression.interpolate_dict (default [] (WorkflowNode.data node)) context with
  | Raise e => (context, set_failed node_run e)
  | Ret resolved_data =>
      let node_run := set_input node_run (VDict resolved_data) in
      match (handler ← get_node_handler (WorkflowNode.type node);
             handler resolved_data context) with
      | Ret (VDict result) =>
          let node_key := key_of node in
          let output := dict_get result "output" (VDict []) in
          let context := dict_set context node_key (VDict [("output", output)]) in
          let context := dict_set context "_last_output" output in
          (context, set_completed node_run node_key output (dict_find result "token_usage"))
      | Ret _ => (context, set_failed node_run AttributeError)
      | Raise e => (context, set_failed node_run e)
      end
  end.

(** The [for node_id in sorted_node_ids] loop of [execute]; the state is
    the run record, [self.context] and the node runs added so far. *)
Fixpoint run_nodes (nodes_map : list (string * WorkflowNode.t))
    (sorted_node_ids : list string)
    (run : WorkflowRun.t) (context : list (string * value)) (node_runs : list NodeRun.t)
  : WorkflowRun.t * list (string * value) * list NodeRun.t :=
  match sorted_node_ids with
  | [] => (run, context, node_runs)
  | node_id :: rest =>
      match assoc nodes_map node_id with
      | None => run_nodes nodes_map rest run context node_runs
      | Some node =>
          let '(context', node_run) := _execute_node context node in
          let node_runs' := (node_runs ++ [node_run])%list in
          match NodeRun.status node_run with
          | NodeFailed =>
              ({| WorkflowRun.workflow_id := WorkflowRun.workflow_id run;
                  WorkflowRun.status := RunFailed;
                  WorkflowRun.trigger_type := WorkflowRun.trigger_type run;
                  WorkflowRun.input_payload := WorkflowRun.input_payload run;
                  WorkflowRun.output_payload := WorkflowRun.output_payload run;
                  WorkflowRun.error :=
                    Some ("Node " ++ node_id ++ " failed: "
                          ++ match NodeRun.error node_run with
                             | Some err => err
                             | None => "None"
                             end) |},
               context', node_runs')
          | _ => run_nodes nodes_map rest run context' node_runs'
          end
      end
  end.

(** [execute]: the run record with the node runs written for it, or [None]
    when the sort did not finish. *)
Definition execute (workflow : Workflow.t) (input_payload : value) (trigger_type : string)
  : option (WorkflowRun.t * list NodeRun.t) :=
  let run := {|
    WorkflowRun.workflow_id := Workflow.id workflow;
    WorkflowRun.status := RunRunning;
    WorkflowRun.trigger_type := trigger_type;
    WorkflowRun.input_payload := input_payload;
    WorkflowRun.output_payload := None;
    WorkflowRun.error := None |} in
  let context := [
    ("trigger", VDict [("body", input_payload); ("type", VStr trigger_type)]);
    ("workflow", VDict [
       ("variables", if truthy (Workflow.variables workflow)
                     then Workflow.variables workflow else VDict []);
       ("id", VStr (Workflow.id workflow))]);
    ("env", VDict [])] in
  let nodes_map := build_nodes_map (Workflow.nodes workflow) in
  sorted_node_ids ← _topological_sort (set_iter (map fst nodes_map)) (Workflow.edges workflow);
  let '(run, context, node_runs) := run_nodes nodes_map sorted_node_ids run context [] in
  let run :=
    match WorkflowRun.status run with
    | RunFailed => run
    | _ => {|
        WorkflowRun.workflow_id := WorkflowRun.workflow_id run;
        WorkflowRun.status := RunCompleted;
        WorkflowRun.trigger_type := WorkflowRun.trigger_type run;
        WorkflowRun.input_payload := WorkflowRun.input_payload run;
        WorkflowRun.output_payload := Some (dict_get context "_last_output" (VDict []));
        WorkflowRun.error := WorkflowRun.error run |}
    end in
  Some (run, node_runs).

End Execute.

End Executor.

(** ** [app/services/gmail_service.py] and [app/services/gmail_poller.py] *)

Module GmailService.
Import Py.

Section Service.

(** [users().messages().list(userId="me", q, maxResults).execute()] with
    the detail fetch of every listed message; an [HttpError] comes back as
    the exception the methods re-raise. *)
Variable list_messages : string -> nat -> pyres (list value).

Definition get_unread_messages (max_results : nat) (query : string)
  : pyres (list value) :=
  list_messages query max_results.

(** [since_datetime] is a time in seconds; the query is
    [after:{int(since_datetime.timestamp())}]. *)
Definition get_messages_since (since_datetime : Z) (max_results : nat)
  : pyres (list value) :=
  let timestamp := since_datetime in
  let query := "after:" ++ string_of_Z timestamp in
  list_messages query max_results.

End Service.

End GmailService.

Module GmailPoller.
Import Py.

(** What one call of [_poll_integration] meets outside the poller: the
    decrypted credentials with the client built from them, the upstream
    mailbox, the clock, and the outcome of [_trigger_workflows] and of the
    credential write-back. *)
Record world : Type := {
  credentials : pyres unit;
  list_messages : string -> nat -> pyres (list value);
  utcnow : Z;
  _trigger_workflows : list value -> pyres unit;
  save_credentials : pyres unit
}.

(** The calls and writes of a poll, in the order in which they happen. *)
Inductive event : Type :=
| Fetched (query : string) (max_results : nat)
| LastCheckSet (integration_key : string) (now : Z)
| Triggered (messages : list value).

(** [_poll_integration]: the new [self.last_check], what happened, and the
    result (the [except] block prints and re-raises). *)
Definition _poll_integration (w : world) (integration_key : string)
    (last_check : gmap string Z)
  : gmap string Z * list event * pyres unit :=
  match credentials w with
  | Raise e => (last_check, [], Raise e)
  | Ret _ =>
      let '(query, max_results, messages) :=
        match last_check !! integration_key with
        | Some t =>
            ("after:" ++ string_of_Z t, 50%nat,
             GmailService.get_messages_since (list_messages w) t 50)
        | None =>
            ("is:unread", 10%nat,
             GmailService.get_unread_messages (list_messages w) 10 "is:unread")
        end in
      match messages with
      | Raise e => (last_check, [Fetched query max_results], Raise e)
      | Ret messages =>
          let last_check := <[integration_key := utcnow w]> last_check in
          let log := [Fetched query max_results; LastCheckSet integration_key (utcnow w)] in
          match messages with
          | [] => (last_check, log, save_credentials w)
          | _ =>
              match _trigger_workflows w messages with
              | Raise e => (last_check, (log ++ [Triggered messages])%list, Raise e)
              | Ret _ => (last_check, (log ++ [Triggered messages])%list, save_credentials w)
              end
          end
      end
  end.

(** Successive polls of one integration, each against its own world; the
    caller ([_poll_all_gmail_integrations]) swallows the exception. *)
Fixpoint polls (ws : list world) (integration_key : string) (last_check : gmap string Z)
  : gmap string Z * list (list event) :=
  match ws with
  | [] => (last_check, [])
  | w :: rest =>
      let '(last_check', log, _) := _poll_integration w integration_key last_check in
      let '(final, logs) := polls rest integration_key last_check' in
      (final, log :: logs)
  end.

End GmailPoller.

(** ** Scenarios

    Concrete workflows, run against a registry whose upstream services are
    unreachable and with no API key configured. *)

Module Scenarios.
Import Py Handlers Executor.

Definition offline {A : Type} : pyres A := Raise (OtherError "upstream unreachable").

Definition registry : string -> pyres handler :=
  get_node_handler (fun _ => offline) "" (fun _ _ => offline)
                   (fun _ => Raise (ValueError "Expecting value")) (fun _ => offline).

Definition format_exc (e : exn) : string :=
  match e with
  | ValueError msg => "ValueError: " ++ msg
  | IndexError => "IndexError"
  | TypeError => "TypeError"
  | AttributeError => "AttributeError"
  | OtherError msg => "Exception: " ++ msg
  end.

(** Two iteration orders of a set of keys. *)
Definition in_order (ks : list string) : list string := ks.
Definition reversed (ks : list string) : list string := rev ks.

Definition node (key type : string) (data : list (string * value)) : WorkflowNode.t := {|
  WorkflowNode.id := "id-" ++ key;
  WorkflowNode.node_key := key;
  WorkflowNode.type := type;
  WorkflowNode.data := Some data |}.

Definition arrow (a b : string) : WorkflowEdge.t :=
  {| WorkflowEdge.source := a; WorkflowEdge.target := b |}.

Definition workflow (nodes : list WorkflowNode.t) (edges : list WorkflowEdge.t)
  : Workflow.t := {|
  Workflow.id := "wf-1";
  Workflow.variables := VDict [];
  Workflow.nodes := nodes;
  Workflow.edges := edges |}.

(** S3: [A -> B], [B -> A]. *)
Definition two_cycle : Workflow.t :=
  workflow [node "A" "response" []; node "B" "response" []]
           [arrow "A" "B"; arrow "B" "A"].

(** [A -> B], [B -> C], [C -> B]: a node in front of a cycle. *)
Definition tail_cycle : Workflow.t :=
  workflow [node "A" "response" []; node "B" "response" []; node "C" "response" []]
           [arrow "A" "B"; arrow "B" "C"; arrow "C" "B"].

(** One node and an edge to a key that names no node. *)
Definition dangling : Workflow.t :=
  workflow [node "A" "response" []] [arrow "A" "X"].

(** S4: [A(email_trigger) -> S(summarize) -> R(response)], no API key. *)
Definition no_api_key : Workflow.t :=
  workflow [node "A" "email_trigger" []; node "S" "summarize" []; node "R" "response" []]
           [arrow "A" "S"; arrow "S" "R"].

(** Two nodes and no edge. *)
Definition two_roots : Workflow.t :=
  workflow [node "A" "response" []; node "B" "response" []] [].

Definition run_it (set_iter : list string -> list string) (w : Workflow.t)
  : option (WorkflowRun.t * list NodeRun.t) :=
  execute registry format_exc set_iter w (VDict []) "manual".

(** What a test would read off a finished run. *)
Definition summary (r : option (WorkflowRun.t * list NodeRun.t))
  : option (run_status * option string * list (string * node_run_status * option string)) :=
  match r with
  | Some (run, node_runs) =>
      Some (WorkflowRun.status run, WorkflowRun.error run,
            map (fun nr => (NodeRun.node_id nr, NodeRun.status nr, NodeRun.node_key nr))
                node_runs)
  | None => None
  end.

End Scenarios.

(** ** Vocabulary of the properties

    The notions in which the properties below are stated, and the concrete
    workflows and mailboxes at which they are tried. *)

Module Vocabulary.
Import Py Re Handlers Executor GmailPoller.
Local Open Scope list_scope.

(** *** Paths *)

(** A segment made of decimal digits only. *)
Definition is_nat_literal (s : string) : bool :=
  negb (String.eqb s "") && forallb is_digit (list_ascii_of_string s).

(** *** Graphs *)

(** Number of edges into [t]. *)
Definition indeg (edges : list WorkflowEdge.t) (t : string) : Z :=
  Z.of_nat (length (filter (fun e => WorkflowEdge.target e = t) edges)).

(** Number of edges into [t] whose source is in [srcs]. *)
Definition inflow (srcs : list string) (edges : list WorkflowEdge.t) (t : string) : Z :=
  Z.of_nat (length (filter (fun e => WorkflowEdge.target e = t
                                      /\ WorkflowEdge.source e ∈ srcs) edges)).

(** Targets of the edges that leave [s], in edge order. *)
Definition edges_from (s : string) (edges : list WorkflowEdge.t) : list string :=
  map WorkflowEdge.target (filter (fun e => WorkflowEdge.source e = s) edges).

(** Occurrences of [t] in a list of neighbours. *)
Definition occ (t : string) (l : list string) : Z :=
  Z.of_nat (length (filter (fun x => x = t) l)).

(** [edge edges a b]: some edge goes from [a] to [b]. *)
Definition edge (edges : list WorkflowEdge.t) (a b : string) : Prop :=
  exists e, e ∈ edges /\ WorkflowEdge.source e = a /\ WorkflowEdge.target e = b.

(** A key lies on a cycle when a non-empty path of edges leads from it back
    to itself. *)
Definition on_cycle (edges : list WorkflowEdge.t) (x : string) : Prop :=
  tc (edge edges) x x.

(** Keys without an incoming edge, in the iteration order of the key set. *)
Definition roots (all_node_ids : list string) (edges : list WorkflowEdge.t) : list string :=
  filter (fun nid => indeg edges nid = 0) all_node_ids.

(** What holds of the in-degrees [m], the queue [q] and the output [s] each
    time the loop tests its queue; [stuck] is a set of keys that the loop
    must never reach. *)
Record queue_inv (ids : list string) (edges : list WorkflowEdge.t) (stuck : string -> Prop)
    (m : gmap string Z) (q s : list string) : Prop := {
  inv_nodup : NoDup (s ++ q);
  inv_zero : forall x, x ∈ s ++ q -> deg m x <= 0;
  inv_deg : forall t, deg m t = indeg edges t - inflow s edges t;
  inv_univ : forall x, x ∈ s ++ q -> x ∈ ids ++ map WorkflowEdge.target edges;
  inv_stuck : forall x, x ∈ s ++ q -> ~ stuck x
}.

(** The node runs a pass over [sorted_node_ids] writes: each belongs to a
    node found under a key of the list. *)
Definition written_for (nodes_map : list (string * WorkflowNode.t))
    (sorted_node_ids : list string) (nr : NodeRun.t) : Prop :=
  exists k node,
    k ∈ sorted_node_ids /\ assoc nodes_map k = Some node
    /\ NodeRun.node_id nr = WorkflowNode.id node.

(** How the pass ended: every node run completed and the run record is
    untouched, or the last node run failed, all before it completed, and the
    run record is failed with the message built from the failed node. *)
Definition pass_result (nodes_map : list (string * WorkflowNode.t))
    (sorted_node_ids : list string) (run run' : WorkflowRun.t) (new : list NodeRun.t)
  : Prop :=
  (Forall (fun nr => NodeRun.status nr = NodeCompleted) new /\ run' = run)
  \/ (exists pre nr k node err,
        new = pre ++ [nr]
        /\ Forall (fun nr => NodeRun.status nr = NodeCompleted) pre
        /\ NodeRun.status nr = NodeFailed
        /\ NodeRun.error nr = Some err
        /\ k ∈ sorted_node_ids /\ assoc nodes_map k = Some node
        /\ NodeRun.node_id nr = WorkflowNode.id node
        /\ WorkflowRun.status run' = RunFailed
        /\ WorkflowRun.error run' = Some ("Node " ++ k ++ " failed: " ++ err)%string).

(** *** Cleaned bodies *)

Definition has_gt (s : string) : bool := has_char ">" s.

(** [<[^>]+>] matches at the start of [s]. *)
Definition starts_tag (s : string) : bool :=
  match tag_at s with Some _ => true | None => false end.

(** [<[^>]+>] matches somewhere in [s]. *)
Fixpoint has_tag (s : string) : bool :=
  match s with
  | EmptyString => false
  | String c r => starts_tag (String c r) || has_tag r
  end.

Definition head_space (s : string) : bool :=
  match s with String c _ => is_space c | EmptyString => false end.

(** Every white space character is a blank that no white space follows. *)
Fixpoint spaced (s : string) : bool :=
  match s with
  | EmptyString => true
  | String c r =>
      (if is_space c then Ascii.eqb c " " && negb (head_space r) else true) && spaced r
  end.

(** Every white space character is a blank between two other characters:
    runs are collapsed and both ends are stripped. *)
Fixpoint tidy (s : string) : bool :=
  match s with
  | EmptyString => true
  | String c r =>
      (if is_space c
       then Ascii.eqb c " "
            && match r with String c' _ => negb (is_space c') | EmptyString => false end
       else true) && tidy r
  end.

Definition collapsed (s : string) : bool := negb (head_space s) && tidy s.

Definition blank : string -> string := fun _ => " ".

(** *** Polls *)

(** The query and the limit a poll uses, read off [self.last_check]. *)
Definition window (last_check : gmap string Z) (integration_key : string) : string * nat :=
  match last_check !! integration_key with
  | Some t => ("after:" ++ string_of_Z t, 50%nat)%string
  | None => ("is:unread"%string, 10%nat)
  end.

(** A mailbox that is down, and one that returns a single message. *)
Definition down : world := {|
  credentials := Ret tt;
  list_messages := fun _ _ => Raise (OtherError "Gmail API error");
  utcnow := 1000;
  _trigger_workflows := fun _ => Ret tt;
  save_credentials := Ret tt |}.

Definition up (now : Z) (processing : pyres unit) : world := {|
  credentials := Ret tt;
  list_messages := fun _ _ => Ret [VDict [("message_id", VStr "m1")]];
  utcnow := now;
  _trigger_workflows := fun _ => processing;
  save_credentials := Ret tt |}.

(** *** Rows *)

(** The row assembled from the seven [col_*] fields. *)
Definition column_row (data : list (string * value)) : list string :=
  map (fun c => py_str (dict_get data c (VStr ""))) COLUMNS.

(** What [json.loads] does on the inputs below. *)
Definition loads (s : string) : pyres value :=
  if String.eqb s "[1, null]" then Ret (VList [VInt 1; VNone])
  else if String.eqb s "[]" then Ret (VList [])
  else Raise (ValueError "Expecting value").

End Vocabulary.

(** ** Vocabulary of the sort order *)

Module SortVocabulary.
Import Py Executor Vocabulary.
Local Open Scope list_scope.

(** Every key of [r] stands behind the sources of all edges into it. *)
Definition ordered (edges : list WorkflowEdge.t) (r : list string) : Prop :=
  forall r1 x r2,
    r = r1 ++ x :: r2 ->
    forall e, e ∈ edges -> WorkflowEdge.target e = x -> WorkflowEdge.source e ∈ r1.

(** No key lies on a cycle. *)
Definition acyclic (edges : list WorkflowEdge.t) : Prop :=
  forall x, ~ on_cycle edges x.

(** The loop invariant of the sort with what the order needs: a key whose
    in-degree is used up is in the output or in the queue, and the output is
    ordered. *)
Record full_inv (ids : list string) (edges : list WorkflowEdge.t)
    (m : gmap string Z) (q s : list string) : Prop := {
  fi_base : queue_inv ids edges (fun _ => False) m q s;
  fi_ready : forall x, x ∈ ids \/ 0 < indeg edges x -> deg m x <= 0 -> x ∈ s ++ q;
  fi_ordered : ordered edges s
}.

End SortVocabulary.

(** ** Vocabulary of the runs *)

Module RunVocabulary.
Import Py Handlers Executor Scenarios.
Local Open Scope list_scope.

(** The keys of a list that name a node: the ones the executor does not
    skip. *)
Definition present (nodes_map : list (string * WorkflowNode.t)) (ks : list string)
  : list string :=
  filter (fun k => is_Some (assoc nodes_map k)) ks.

(** The output recorded by the last node run, or the empty mapping. *)
Definition last_output (node_runs : list NodeRun.t) : value :=
  match last node_runs with
  | Some nr => default (VDict []) (NodeRun.output_data nr)
  | None => VDict []
  end.

(** The names under which a handler is registered. *)
Definition registered : list string :=
  ["email_trigger"; "extract_content"; "summarize"; "google_sheets"; "response"]%string.

(** [A -> B], [A -> C], [B -> D], [C -> D]. *)
Definition diamond : Workflow.t :=
  workflow [node "A" "response" []; node "B" "response" [];
            node "C" "response" []; node "D" "response" [("body", VStr "{{B.output.type}}")]]
           [arrow "A" "B"; arrow "A" "C"; arrow "B" "D"; arrow "C" "D"].

Definition diamond_rank (k : string) : nat :=
  if String.eqb k "A" then 0 else if String.eqb k "D" then 2 else 1.

(** What the [try] block of [_execute_node] computes before anything is
    stored: the data resolved by [interpolate], the handler found for the
    node type, and the handler's result. *)
Definition attempt (get_node_handler : string -> pyres handler)
    (context : list (string * value)) (node : WorkflowNode.t) : pyres value :=
  resolved ← Expression.interpolate_dict (default [] (WorkflowNode.data node)) context;
  handler ← get_node_handler (WorkflowNode.type node);
  handler resolved context.

(** A node saved with an empty [node_key]: the column's default. *)
Definition unkeyed : WorkflowNode.t := {|
  WorkflowNode.id := "uuid-1";
  WorkflowNode.node_key := "";
  WorkflowNode.type := "response";
  WorkflowNode.data := Some [] |}.

(** A key that can be written as the first segment of a path: it holds no
    dot, which would split it, no newline, which a token cannot span, and
    does not begin with white space, which [strip()] would remove. *)
Definition plain_key (k : string) : bool :=
  negb (has_char "." k) && negb (Vocabulary.head_space k) && Re.no_newline k.

(** The node keys of [diamond]. *)
Definition diamond_keys : list string := ["A"; "B"; "C"; "D"]%string.

End RunVocabulary.

(** ** Vocabulary of templates and paths *)

Module TemplateVocabulary.
Import Py.

(** The string contains two opening braces in a row. *)
Fixpoint has_open (s : string) : bool :=
  match s with
  | String "{" (String "{" _) => true
  | String _ rest => has_open rest
  | EmptyString => false
  end.

(** No string inside the template (keys apart) contains [{{]. *)
Fixpoint token_free (v : value) : bool :=
  match v with
  | VStr s => negb (has_open s)
  | VList l => forallb token_free l
  | VDict d => forallb (fun kv => token_free (snd kv)) d
  | _ => true
  end.

(** [part_of v w]: [v] is [w] or sits somewhere inside [w]. *)
Inductive part_of (v : value) : value -> Prop :=
| part_here : part_of v v
| part_item (l : list value) (x : value) : In x l -> part_of v x -> part_of v (VList l)
| part_entry (d : list (string * value)) (k : string) (x : value) :
    In (k, x) d -> part_of v x -> part_of v (VDict d).

End TemplateVocabulary.

(** ** [app/services/gmail_service.py]: reading one message

    The helpers of [_get_message_details]. A payload and every part they
    are called on is a mapping: [message['payload']] has answered [.get],
    and a part is passed on only after a subscript or [.get] on it has
    worked. A missing key of a subscript is the error [KeyError]. *)

Module GmailMessage.
Import Py Handlers.

Definition lower_char (c : ascii) : ascii :=
  let n := code c in
  if ((65 <=? n) && (n <=? 90) || (192 <=? n) && (n <=? 222) && negb (n =? 215))%N
  then ascii_of_N (n + 32) else c.

(** [s.lower()] *)
Fixpoint lower (s : string) : string :=
  match s with
  | EmptyString => EmptyString
  | String c rest => String (lower_char c) (lower rest)
  end.

Definition lower_of (v : value) : pyres string :=
  match v with
  | VStr s => Ret (lower s)
  | _ => Raise AttributeError
  end.

(** [v[k]] for a string key [k]. *)
Definition getitem (v : value) (k : string) : pyres value :=
  match v with
  | VDict d =>
      match dict_find d k with
      | Some x => Ret x
      | None => Raise (OtherError ("KeyError: " ++ repr_str k))
      end
  | _ => Raise TypeError
  end.

(** [k in v] for a mapping [v]. *)
Definition has_key (v : value) (k : string) : bool :=
  match v with
  | VDict d => match dict_find d k with Some _ => true | None => false end
  | _ => false
  end.

(** [v == s] for a string literal [s]. *)
Definition is_str (v : value) (s : string) : bool :=
  match v with
  | VStr s' => String.eqb s' s
  | _ => false
  end.

Fixpoint _get_header (headers : list value) (name : string) : pyres value :=
  match headers with
  | [] => Ret VNone
  | header :: rest =>
      n ← getitem header "name";
      n ← lower_of n;
      if String.eqb n (lower name) then getitem header "value"
      else _get_header rest name
  end.

(** [part['body'].get(k, dflt)] *)
Definition body_get (part : value) (k : string) (dflt : value) : pyres value :=
  body ← getitem part "body";
  get_of body k dflt.

Section Body.

(** [base64.urlsafe_b64decode(data).decode('utf-8', errors='ignore')] *)
Variable urlsafe_b64decode_utf8 : value -> pyres string.

Fixpoint _get_message_body (payload : value) : pyres string :=
  match payload with
  | VDict d =>
      (fix find (entries : list (string * value)) : pyres string :=
         match entries with
         | [] =>
             data ← body_get payload "data" (VStr "");
             if truthy data then urlsafe_b64decode_utf8 data else Ret ""
         | (k, parts) :: rest =>
             if String.eqb k "parts" then
               match parts with
               | VList l =>
                   (fix each (l : list value) (body : string) : pyres string :=
                      match l with
                      | [] => Ret body
                      | part :: l' =>
                          mime ← getitem part "mimeType";
                          if is_str mime "text/plain" then
                            data ← body_get part "data" (VStr "");
                            if truthy data then urlsafe_b64decode_utf8 data
                            else each l' body
                          else if is_str mime "text/html" && String.eqb body "" then
                            data ← body_get part "data" (VStr "");
                            if truthy data
                            then body ← urlsafe_b64decode_utf8 data; each l' body
                            else each l' body
                          else if has_key part "parts" then
                            body ← _get_message_body part;
                            if String.eqb body "" then each l' body else Ret body
                          else each l' body
                      end) l ""
               | other =>
                   l ← py_iter other;
                   match l with [] => Ret "" | _ => Raise TypeError end
               end
             else find rest
         end) d
  | _ => Raise TypeError
  end.

End Body.

Fixpoint _get_attachments (payload : value) : pyres (list value) :=
  match payload with
  | VDict d =>
      (fix find (entries : list (string * value)) : pyres (list value) :=
         match entries with
         | [] => Ret []
         | (k, parts) :: rest =>
             if String.eqb k "parts" then
               match parts with
               | VList l =>
                   (fix each (l : list value) : pyres (list value) :=
                      match l with
                      | [] => Ret []
                      | part :: l' =>
                          filename ← get_of part "filename" VNone;
                          if truthy filename then
                            filename ← getitem part "filename";
                            mime_type ← getitem part "mimeType";
                            size ← body_get part "size" (VInt 0);
                            attachment_id ← body_get part "attachmentId" VNone;
                            more ← each l';
                            mret (VDict [("filename", filename);
                                         ("mime_type", mime_type);
                                         ("size", size);
                                         ("attachment_id", attachment_id)] :: more)
                          else if has_key part "parts" then
                            inner ← _get_attachments part;
                            more ← each l';
                            mret (inner ++ more)%list
                          else each l'
                      end) l
               | other =>
                   l ← py_iter other;
                   match l with [] => Ret [] | _ => Raise AttributeError end
               end
             else find rest
         end) d
  | _ => Raise TypeError
  end.

End GmailMessage.

(** ** [app/services/gmail_poller.py]: dispatching messages to workflows *)

Module GmailDispatch.
Import Py Handlers Executor.

(** The test of one node in the matching loop: an [email_trigger] whose
    [trigger_config] names the integration. *)
Definition listens (integration_id : string) (node : WorkflowNode.t) : bool :=
  let node_data := default [] (WorkflowNode.data node) in
  if String.eqb (WorkflowNode.type node) "email_trigger" then
    let trigger_config :=
      match dict_get node_data "trigger_config" (VDict []) with
      | VDict c => c
      | _ => []
      end in
    match dict_get trigger_config "integration_id" VNone with
    | VStr s => String.eqb s integration_id
    | _ => false
    end
  else false.

(** The inner [for node in nodes] loop with its [break]. *)
Fixpoint any_listens (integration_id : string) (nodes : list WorkflowNode.t) : bool :=
  match nodes with
  | [] => false
  | node :: rest => if listens integration_id node then true else any_listens integration_id rest
  end.

Fixpoint gmail_workflows (integration_id : string) (workflows : list Workflow.t)
  : list Workflow.t :=
  match workflows with
  | [] => []
  | workflow :: rest =>
      if any_listens integration_id (Workflow.nodes workflow)
      then workflow :: gmail_workflows integration_id rest
      else gmail_workflows integration_id rest
  end.

Definition trigger_payload (integration_id : string) (message : value) : pyres value :=
  message_id ← get_of message "message_id" VNone;
  thread_id ← get_of message "thread_id" VNone;
  subject ← get_of message "subject" VNone;
  sender ← get_of message "sender" VNone;
  to ← get_of message "to" VNone;
  body ← get_of message "body" VNone;
  email_content ← get_of message "body" VNone;
  attachments ← get_of message "attachments" (VList []);
  received_at ← get_of message "received_at" VNone;
  snippet ← get_of message "snippet" VNone;
  labels ← get_of message "labels" (VList []);
  mret (VDict [
    ("trigger_type", VStr "gmail");
    ("integration_id", VStr integration_id);
    ("body", VDict [
       ("message_id", message_id);
       ("thread_id", thread_id);
       ("subject", subject);
       ("sender", sender);
       ("to", to);
       ("body", body);
       ("email_content", email_content);
       ("attachments", attachments);
       ("received_at", received_at);
       ("snippet", snippet);
       ("labels", labels)])]).

Section Dispatch.

Variable get_node_handler : string -> pyres handler.
Variable format_exc : exn -> string.
Variable set_iter : list string -> list string.

(** One pass of the body of the two loops: the run that was made, or the
    exception that the [except] block prints. *)
Definition trigger_one (integration_id : string) (message : value) (workflow : Workflow.t)
  : pyres (option (WorkflowRun.t * list NodeRun.t)) :=
  payload ← trigger_payload integration_id message;
  mret (execute get_node_handler format_exc set_iter workflow payload "gmail").

Fixpoint for_workflows (integration_id : string) (message : value)
    (workflows : list Workflow.t)
  : list (pyres (option (WorkflowRun.t * list NodeRun.t))) :=
  match workflows with
  | [] => []
  | workflow :: rest =>
      trigger_one integration_id message workflow
        :: for_workflows integration_id message rest
  end.

Fixpoint for_messages (integration_id : string) (messages : list value)
    (workflows : list Workflow.t)
  : list (pyres (option (WorkflowRun.t * list NodeRun.t))) :=
  match messages with
  | [] => []
  | message :: rest =>
      (for_workflows integration_id message workflows
         ++ for_messages integration_id rest workflows)%list
  end.

(** [_trigger_workflows]: what each pass of the loops did, in order;
    [workflows] is the answer of the query for the user's published
    workflows. *)
Definition _trigger_workflows (integration_id : string) (workflows : list Workflow.t)
    (messages : list value)
  : list (pyres (option (WorkflowRun.t * list NodeRun.t))) :=
  match gmail_workflows integration_id workflows with
  | [] => []
  | matching => for_messages integration_id messages matching
  end.

End Dispatch.

End GmailDispatch.

Module PollerLoop.
Import Py GmailPoller.

(** [_poll_all_gmail_integrations]: every active integration is polled in
    turn, each behind its own [try]; the state is [self.last_check]. *)
Fixpoint _poll_all_gmail_integrations (integrations : list (string * world))
    (last_check : gmap string Z)
  : gmap string Z * list (list event * pyres unit) :=
  match integrations with
  | [] => (last_check, [])
  | (integration_key, w) :: rest =>
      let '(last_check', log, result) := _poll_integration w integration_key last_check in
      let '(final, logs) := _poll_all_gmail_integrations rest last_check' in
      (final, (log, result) :: logs)
  end.

End PollerLoop.

(** ** [app/utils/encryption.py]: the key *)

Module Encryption.

(** [(raw + b"\0" * 32)[:32]] *)
Definition key_bytes (raw : list Byte.byte) : list Byte.byte :=
  firstn 32 (raw ++ repeat Byte.x00 32)%list.

End Encryption.

(** ** Vocabulary of messages *)

Module MessageVocabulary.
Import Py Handlers GmailMessage.

(** A header as the API sends it. *)
Definition header (name : string) (v : value) : value :=
  VDict [("name", VStr name); ("value", v)].

Definition headers_of (l : list (string * value)) : list value :=
  map (fun nv => header (fst nv) (snd nv)) l.

(** The same headers up to the case of their names. *)
Definition recased (l l' : list (string * value)) : Prop :=
  Forall2 (fun a b => lower (fst a) = lower (fst b) /\ snd a = snd b) l l'.

(** The first header whose lower-cased name is [n]. *)
Fixpoint first_named (n : string) (l : list (string * value)) : value :=
  match l with
  | [] => VNone
  | (name, v) :: rest => if String.eqb (lower name) n then v else first_named n rest
  end.

(** A part without sub-parts, of the given MIME type, whose body is the
    mapping [body]. *)
Definition leaf (mime : string) (body : list (string * value)) (part : value) : Prop :=
  exists p, part = VDict p
    /\ dict_find p "mimeType" = Some (VStr mime)
    /\ dict_find p "body" = Some (VDict body)
    /\ dict_find p "parts" = None.

(** A leaf that does not end the search for a body: any leaf that is not a
    [text/plain] part with data. *)
Definition passed_over (part : value) : Prop :=
  exists mime body, leaf mime body part
    /\ (mime = "text/plain"%string -> truthy (dict_get body "data" (VStr "")) = false).

End MessageVocabulary.

Module AttachmentVocabulary.
Import Py Handlers GmailMessage.

(** An attachment as [_get_attachments] records it: four fields, a file
    name that counts as true. *)
Definition recorded (att : value) : Prop :=
  exists filename mime_type size attachment_id,
    att = VDict [("filename", filename); ("mime_type", mime_type);
                 ("size", size); ("attachment_id", attachment_id)]
    /\ truthy filename = true.

(** The file name of a recorded attachment. *)
Definition filename_of (att : value) : value :=
  match att with
  | VDict a => dict_get a "filename" VNone
  | _ => VNone
  end.

End AttachmentVocabulary.

(** ** Vocabulary of cleaned text *)

Module CleanVocabulary.
Import Py Re.

Definition cons_word (c : ascii) (ws : list string) : list string :=
  match ws with
  | w :: rest => String c w :: rest
  | [] => [String c EmptyString]
  end.

(** The words of a text, as [s.split()] gives them: the maximal runs of
    characters that are not white space, in order. *)
Fixpoint words (s : string) : list string :=
  match s with
  | EmptyString => []
  | String c r =>
      if is_space c then words r
      else match r with
           | EmptyString => [String c EmptyString]
           | String c' _ =>
               if is_space c' then String c EmptyString :: words r
               else cons_word c (words r)
           end
  end.

(** The claim's wording of [clean_body], taken literally: the tag-like
    substrings are taken out of the body (nothing is put in their place)
    and white space is collapsed. *)
Definition stripped_and_collapsed (body : string) : string :=
  join " " (words (re_sub tag_at (fun _ => EmptyString) body)).

End CleanVocabulary.

(** * Properties *)

(** ** The expression resolver *)

Module ExpressionFacts.
Import Py Re Expression Vocabulary.

(** Induction on values that reaches inside lists and mappings. *)
Section ValueInd.
Variable P : value -> Prop.
Hypothesis HNone : P VNone.
Hypothesis HBool : forall b, P (VBool b).
Hypothesis HInt : forall z, P (VInt z).
Hypothesis HStr : forall s, P (VStr s).
Hypothesis HList : forall l, Forall P l -> P (VList l).
Hypothesis HDict : forall d, Forall (fun kv => P (snd kv)) d -> P (VDict d).

Fixpoint value_nested_ind (v : value) : P v :=
  match v with
  | VNone => HNone
  | VBool b => HBool b
  | VInt z => HInt z
  | VStr s => HStr s
  | VList l =>
      HList l ((fix go (l : list value) : Forall P l :=
                  match l with
                  | [] => List.Forall_nil P
                  | x :: r => List.Forall_cons P x r (value_nested_ind x) (go r)
                  end) l)
  | VDict d =>
      HDict d ((fix go (d : list (string * value)) : Forall (fun kv => P (snd kv)) d :=
                  match d with
                  | [] => List.Forall_nil _
                  | kv :: r => List.Forall_cons _ kv r (value_nested_ind (snd kv)) (go r)
                  end) d)
  end.
End ValueInd.

Lemma py_int_raises (s : string) (e : exn) :
  py_int s = Raise e -> exists msg, e = ValueError msg.
Proof.
  unfold py_int. destruct (int_literal (int_strip s)); intros H; inversion H; eauto.
Qed.

Lemma py_getitem_raises (l : list value) (i : Z) (e : exn) :
  py_getitem l i = Raise e -> e = IndexError.
Proof.
  unfold py_getitem.
  destruct (_ && _); [destruct (nth_error _ _)|]; intros H; inversion H; reflexivity.
Qed.

(** Inside the valid range the list access succeeds. *)
Lemma py_getitem_in_range (l : list value) (i : Z) :
  - Z.of_nat (length l) <= i < Z.of_nat (length l) ->
  exists v, nth_error l (Z.to_nat (i mod Z.of_nat (length l))) = Some v
            /\ py_getitem l i = Ret v.
Proof.
  intros Hi. unfold py_getitem.
  set (n := Z.of_nat (length l)) in *.
  assert (Hj : (if i <? 0 then i + n else i) = i mod n).
  { destruct (Z.ltb_spec i 0).
    - apply Z.mod_unique with (q := -1); lia.
    - symmetry. apply Z.mod_small. lia. }
  rewrite Hj.
  assert (Hr : 0 <= i mod n < n) by (apply Z.mod_pos_bound; lia).
  destruct (Z.leb_spec 0 (i mod n)); [|lia].
  destruct (Z.ltb_spec (i mod n) n); [|lia]. simpl.
  destruct (nth_error l (Z.to_nat (i mod n))) eqn:E; eauto.
  apply nth_error_None in E. lia.
Qed.

Lemma py_getitem_out_of_range (l : list value) (i : Z) :
  i < - Z.of_nat (length l) \/ Z.of_nat (length l) <= i ->
  py_getitem l i = Raise IndexError.
Proof.
  intros Hi. unfold py_getitem.
  destruct (Z.ltb_spec i 0);
    [destruct (Z.leb_spec 0 (i + Z.of_nat (length l)))
    |destruct (Z.leb_spec 0 i)]; simpl; try reflexivity;
    match goal with |- context [?a <? ?b] => destruct (Z.ltb_spec a b) end;
    try reflexivity; lia.
Qed.

Lemma walk_total (parts : list string) :
  forall current, exists v, walk parts current = Ret v.
Proof.
  induction parts as [|part rest IH]; intros current; simpl; [eauto|].
  destruct current; eauto.
  - unfold mbind, pyres_bind, bind.
    destruct (py_int part) as [i|e] eqn:Ei.
    + destruct (py_getitem l i) as [v|e] eqn:Eg.
      * destruct (is_None v); eauto.
      * apply py_getitem_raises in Eg. subst. eauto.
    + destruct (py_int_raises _ _ Ei) as [msg ->]. eauto.
  - destruct (is_None _); eauto.
Qed.

Lemma resolve_expression_total (expression : string) (context : list (string * value)) :
  exists v, resolve_expression expression context = Ret v.
Proof. apply walk_total. Qed.

Lemma replacer_total (context : list (string * value)) (g : string) :
  exists r, replacer context g = Ret r.
Proof.
  unfold replacer. destruct (resolve_expression_total g context) as [v ->].
  simpl. eauto.
Qed.

Lemma sub_expressions_total (context : list (string * value)) (s : string) :
  forall skip, exists r, sub_expressions context skip s = Ret r.
Proof.
  induction s as [|c rest IH]; intros skip; cbn [sub_expressions]; [eauto|].
  destruct skip as [|k]; [|apply IH].
  destruct (expression_at (String c rest)) as [[g len]|].
  - destruct (replacer_total context g) as [r ->].
    destruct (IH (Nat.pred len)) as [t ->]. cbn. eauto.
  - destruct (IH O) as [t ->]. cbn. eauto.
Qed.

Lemma interpolate_total (template : value) (context : list (string * value)) :
  exists v, interpolate template context = Ret v.
Proof.
  induction template as [| | |s|l IH|d IH] using value_nested_ind; simpl; eauto.
  - destruct (fullmatch_expression s).
    + apply resolve_expression_total.
    + destruct (sub_expressions_total context s O) as [r ->]. simpl. eauto.
  - match goal with |- context [mbind _ (?f l)] => assert (H : exists l', f l = Ret l') end.
    { induction IH as [|x r [x' Hx] _ [r' Hr]]; [eauto|].
      rewrite Hx. simpl. rewrite Hr. simpl. eauto. }
    destruct H as [l' ->]. simpl. eauto.
  - match goal with |- context [mbind _ (?f d)] => assert (H : exists d', f d = Ret d') end.
    { induction IH as [|[k x] r [x' Hx] _ [r' Hr]]; [eauto|].
      simpl in Hx. rewrite Hx. simpl. rewrite Hr. simpl. eauto. }
    destruct H as [d' ->]. simpl. eauto.
Qed.

(** *** List segments *)

Lemma is_digit_not_space (c : ascii) : is_digit c = true -> is_int_space c = false.
Proof.
  unfold is_digit, is_int_space. intros H.
  apply andb_true_iff in H as [H1 H2].
  apply N.leb_le in H1. apply N.leb_le in H2.
  repeat match goal with
         | |- context [(?a <=? ?b)%N] => destruct (N.leb_spec a b)
         | |- context [(?a =? ?b)%N] => destruct (N.eqb_spec a b)
         end; simpl; try reflexivity; lia.
Qed.

Lemma rstrip_digits (s : string) :
  forallb is_digit (list_ascii_of_string s) = true -> int_rstrip s = s.
Proof.
  induction s as [|c rest IH]; simpl; [reflexivity|].
  intros H. apply andb_true_iff in H as [Hc Hr].
  rewrite (IH Hr). destruct rest; [|reflexivity].
  rewrite (is_digit_not_space c Hc). reflexivity.
Qed.

Lemma digits_all (s : string) :
  forallb is_digit (list_ascii_of_string s) = true ->
  forall acc prev, 0 <= acc -> (s <> "" \/ prev = true) ->
  exists n, 0 <= n /\ digits acc prev s = Some n.
Proof.
  induction s as [|c rest IH]; simpl; intros H acc prev Hacc Hne.
  - destruct Hne as [Hne| ->]; [congruence|eauto].
  - apply andb_true_iff in H as [Hc Hr]. rewrite Hc.
    apply (IH Hr); [|right; reflexivity].
    unfold is_digit in Hc. apply andb_true_iff in Hc as [H1 _].
    apply N.leb_le in H1. unfold digit_val. lia.
Qed.

(** A segment of decimal digits always parses, to a non-negative index. *)
Lemma nat_literal_parses (s : string) :
  is_nat_literal s = true -> exists n, 0 <= n /\ py_int s = Ret n.
Proof.
  unfold is_nat_literal. intros H. apply andb_true_iff in H as [Hne Hd].
  assert (Hs : int_strip s = s).
  { unfold int_strip. destruct s as [|c rest]; [reflexivity|].
    simpl in Hd. apply andb_true_iff in Hd as [Hc Hr].
    cbn [int_lstrip]. rewrite (is_digit_not_space c Hc).
    apply rstrip_digits. simpl. rewrite Hc, Hr. reflexivity. }
  unfold py_int. rewrite Hs.
  destruct s as [|c rest]; [discriminate|].
  assert (Hi : int_literal (String c rest) = digits 0 false (String c rest)).
  { simpl in Hd. apply andb_true_iff in Hd as [Hc _].
    unfold int_literal.
    destruct c as [[] [] [] [] [] [] [] []]; try reflexivity; discriminate. }
  rewrite Hi.
  destruct (digits_all (String c rest) Hd 0 false) as (n & Hn & ->);
    [lia|left; discriminate|eauto].
Qed.

(** C5 (as amended): a path segment met on a sequence goes through Python's
    [int()]: a segment that does not parse resolves to absent; an index [i]
    with [-len <= i < len] selects an element, counted from the end when [i]
    is negative; any other index resolves to absent; and the walk stops at
    the first absent value, whatever segments follow. *)
Theorem list_segment (l : list value) (seg : string) (rest : list string) :
  walk (seg :: rest) (VList l) =
  match int_literal (int_strip seg) with
  | None => Ret VNone
  | Some i =>
      let n := Z.of_nat (length l) in
      if (- n <=? i) && (i <? n)
      then match nth_error l (Z.to_nat (i mod n)) with
           | Some v => if is_None v then Ret VNone else walk rest v
           | None => Ret VNone
           end
      else Ret VNone
  end.
Proof.
  cbn [walk]. unfold mbind, pyres_bind, bind, py_int.
  destruct (int_literal (int_strip seg)) as [i|]; [|reflexivity].
  cbv zeta.
  destruct (Z.leb_spec (- Z.of_nat (length l)) i);
    destruct (Z.ltb_spec i (Z.of_nat (length l))); cbn [andb].
  - destruct (py_getitem_in_range l i) as (v & -> & ->); [lia|reflexivity].
  - rewrite py_getitem_out_of_range by lia. reflexivity.
  - rewrite py_getitem_out_of_range by lia. reflexivity.
  - rewrite py_getitem_out_of_range by lia. reflexivity.
Qed.

(** C5 (counterexample): the segment [-1] is not a non-negative integer, yet
    on a two-element list it resolves to the last element, not to absent. *)
Lemma negative_segment_resolves :
  is_nat_literal "-1" = false /\
  resolve_expression "xs.-1" [("xs", VList [VInt 10; VInt 20])] = Ret (VInt 20).
Proof. split; reflexivity. Qed.

(** *** Whole-string tokens *)

Lemma substring_prefix (g t : string) :
  substring 0 (String.length g) (g ++ t) = g.
Proof.
  induction g as [|c g IH]; simpl.
  - destruct t; reflexivity.
  - rewrite IH. reflexivity.
Qed.

Lemma substring_suffix (g t : string) (k : nat) :
  substring (String.length g) k (g ++ t) = substring 0 k t.
Proof. induction g as [|c g IH]; simpl; [reflexivity|apply IH]. Qed.

Lemma length_append (g t : string) :
  String.length (g ++ t) = (String.length g + String.length t)%nat.
Proof. induction g as [|c g IH]; simpl; [reflexivity|now rewrite IH]. Qed.

(** [fullmatch] takes everything between the first two and the last two
    braces as the token, whatever it contains (except a newline). *)
Lemma fullmatch_spans (g : string) :
  g <> "" -> no_newline g = true ->
  fullmatch_expression ("{{" ++ g ++ "}}") = Some g.
Proof.
  intros Hne Hnl.
  change ("{{" ++ g ++ "}}") with (String "{" (String "{" (g ++ "}}"))).
  unfold fullmatch_expression.
  rewrite length_append. cbn [String.length].
  replace (String.length g + 2 - 2)%nat with (String.length g) by lia.
  rewrite substring_prefix, substring_suffix, Hnl. cbn [substring].
  destruct g as [|c g]; [congruence|].
  cbn [String.length].
  destruct (Nat.leb_spec 3 (S (String.length g) + 2)); [reflexivity|lia].
Qed.

Lemma no_newline_append (g t : string) :
  no_newline (g ++ t) = no_newline g && no_newline t.
Proof.
  induction g as [|c g IH]; simpl; [reflexivity|].
  rewrite IH. apply andb_assoc.
Qed.

(** Two tokens with any text between them (on one line) are taken for one
    token whose path is everything between the outer braces. *)
Lemma two_tokens_taken_as_one (p sep q : string) (context : list (string * value)) :
  no_newline p = true -> no_newline sep = true -> no_newline q = true ->
  interpolate (VStr ("{{" ++ (p ++ "}}" ++ sep ++ "{{" ++ q) ++ "}}")) context =
  resolve_expression (p ++ "}}" ++ sep ++ "{{" ++ q) context.
Proof.
  intros Hp Hs Hq. cbn [interpolate].
  rewrite fullmatch_spans; [reflexivity| |].
  - destruct p; discriminate.
  - rewrite !no_newline_append, Hp, Hs, Hq. reflexivity.
Qed.

(** A single token on its own is replaced by the value its path resolves
    to, of whatever type. *)
Lemma single_token_native (g : string) (context : list (string * value)) :
  g <> "" -> no_newline g = true ->
  interpolate (VStr ("{{" ++ g ++ "}}")) context = resolve_expression g context.
Proof. intros Hne Hnl. cbn [interpolate]. rewrite fullmatch_spans; auto. Qed.

Example token_keeps_mapping :
  interpolate (VStr "{{A.output}}") [("A", VDict [("output", VDict [("n", VInt 3)])])]
  = Ret (VDict [("n", VInt 3)]).
Proof. reflexivity. Qed.

Example token_in_text :
  interpolate (VStr "n={{A.output.n}}, m={{A.output.m}}.")
              [("A", VDict [("output", VDict [("n", VInt 3)])])]
  = Ret (VStr "n=3, m=.").
Proof. reflexivity. Qed.

(** Scenario S2: a token inside node data. *)
Example token_in_node_data :
  interpolate (VDict [("body", VDict [("who", VStr "{{A.output.sender}}")])])
              [("A", VDict [("output", VDict [("sender", VStr "bob@x")])])]
  = Ret (VDict [("body", VDict [("who", VStr "bob@x")])]).
Proof. reflexivity. Qed.

(** C3 (the code at the failing input): the template ["{{a}} {{b}}"] is not
    a single token, and substituting its two tokens gives ["x y"]; but
    [interpolate] takes the whole string for one token and returns the
    absent value. *)
Theorem two_tokens_resolve_to_none :
  let context := [("a", VStr "x"); ("b", VStr "y")] in
  sub_expressions context O "{{a}} {{b}}" = Ret "x y" /\
  interpolate (VStr "{{a}} {{b}}") context = Ret VNone.
Proof. split; reflexivity. Qed.

(** Without the interpreter's limits neither path resolution nor
    interpolation raises, and a token whose path resolves to the absent
    value is replaced by the empty string. *)
Lemma resolver_total
    (template : value) (expression : string) (context : list (string * value)) :
  (exists v, resolve_expression expression context = Ret v
             /\ replacer context expression = Ret (if is_None v then "" else py_str v))
  /\ (exists v, interpolate template context = Ret v).
Proof.
  split; [|apply interpolate_total].
  destruct (resolve_expression_total expression context) as [v Hv].
  exists v. split; [exact Hv|]. unfold replacer. rewrite Hv. reflexivity.
Qed.

End ExpressionFacts.

(** ** The executor *)

Module ExecutorFacts.
Import Py Handlers Executor Vocabulary.
Local Open Scope list_scope.

(** *** The tables of the topological sort *)

Lemma deg_insert (m : gmap string Z) (k k' : string) (v : Z) :
  deg (<[k := v]> m) k' = if decide (k = k') then v else deg m k'.
Proof.
  unfold deg. destruct (decide (k = k')) as [->|Hne].
  - rewrite lookup_insert_eq. reflexivity.
  - rewrite lookup_insert_ne by assumption. reflexivity.
Qed.

Lemma succs_insert (adj : gmap string (list string)) (k k' : string) (v : list string) :
  succs (<[k := v]> adj) k' = if decide (k = k') then v else succs adj k'.
Proof.
  unfold succs. destruct (decide (k = k')) as [->|Hne].
  - rewrite lookup_insert_eq. reflexivity.
  - rewrite lookup_insert_ne by assumption. reflexivity.
Qed.

Lemma fold_add_edge (edges : list WorkflowEdge.t) :
  forall adj m,
    let r := fold_left add_edge edges (adj, m) in
    (forall s, succs (fst r) s = (succs adj s ++ edges_from s edges)%list)
    /\ (forall t, deg (snd r) t = deg m t + indeg edges t).
Proof.
  induction edges as [|e rest IH]; intros adj m; cbn [fold_left].
  - split; intros x.
    + unfold edges_from. cbn. rewrite app_nil_r. reflexivity.
    + unfold indeg. cbn. lia.
  - cbn [add_edge].
    destruct (IH (<[WorkflowEdge.source e :=
                     (succs adj (WorkflowEdge.source e) ++ [WorkflowEdge.target e])%list]> adj)
                 (<[WorkflowEdge.target e := deg m (WorkflowEdge.target e) + 1]> m))
      as [Hs Hd].
    split; intros x.
    + rewrite Hs, succs_insert. unfold edges_from. rewrite filter_cons.
      destruct (decide (WorkflowEdge.source e = x)) as [->|Hne]; cbn [map].
      * rewrite <- app_assoc. reflexivity.
      * reflexivity.
    + rewrite Hd, deg_insert. unfold indeg. rewrite filter_cons.
      destruct (decide (WorkflowEdge.target e = x)) as [->|Hne]; cbn [length]; lia.
Qed.

Lemma init_in_degree_deg (ids : list string) :
  forall m k, deg (init_in_degree ids m) k = deg m k.
Proof.
  unfold init_in_degree.
  induction ids as [|nid rest IH]; intros m k; cbn [fold_left]; [reflexivity|].
  rewrite IH. destruct (m !! nid) eqn:E; [reflexivity|].
  rewrite deg_insert. destruct (decide (nid = k)) as [->|]; [|reflexivity].
  unfold deg. rewrite E. reflexivity.
Qed.

(** After both initialisation loops every key holds its number of incoming
    edges, and the adjacency of a key lists the targets of its edges. *)
Lemma tables_spec (ids : list string) (edges : list WorkflowEdge.t) :
  (forall s, succs (fst (build_tables edges)) s = edges_from s edges)
  /\ (forall t, deg (init_in_degree ids (snd (build_tables edges))) t = indeg edges t).
Proof.
  destruct (fold_add_edge edges ∅ ∅) as [Hs Hd]. split.
  - intros s. unfold build_tables. rewrite Hs. unfold succs at 1.
    rewrite lookup_empty. reflexivity.
  - intros t. rewrite init_in_degree_deg. unfold build_tables. rewrite Hd.
    unfold deg at 1. rewrite lookup_empty. cbn. lia.
Qed.

(** *** The inner loop *)

Lemma occ_cons (t x : string) (l : list string) :
  occ t (x :: l) = (if decide (x = t) then 1 else 0) + occ t l.
Proof.
  unfold occ. rewrite filter_cons. destruct (decide (x = t)); cbn [length]; lia.
Qed.

Lemma occ_nonneg (t : string) (l : list string) : 0 <= occ t l.
Proof. unfold occ. lia. Qed.

Lemma occ_pos_elem (t : string) (l : list string) : 0 < occ t l -> t ∈ l.
Proof.
  induction l as [|x l IH]; [unfold occ; cbn; lia|].
  rewrite occ_cons. destruct (decide (x = t)) as [->|]; intros H.
  - left.
  - right. apply IH. lia.
Qed.

(** [relax] lowers each in-degree by the number of occurrences of the key
    among the neighbours, and enqueues, once each, exactly the keys whose
    in-degree was positive and is used up. *)
Lemma relax_spec (ns : list string) :
  forall m q,
    let r := relax ns m q in
    (forall t, deg (fst r) t = deg m t - occ t ns)
    /\ exists pushed,
         snd r = (q ++ pushed)%list /\ NoDup pushed
         /\ forall x, x ∈ pushed <-> 0 < deg m x <= occ x ns.
Proof.
  induction ns as [|n rest IH]; intros m q; cbn [relax].
  - split.
    + intros t. unfold occ. cbn. lia.
    + exists []. rewrite app_nil_r. split; [reflexivity|]. split; [constructor|].
      intros x. split; [intros H; inversion H|]. unfold occ. cbn. lia.
  - set (d := deg m n - 1).
    destruct (IH (<[n := d]> m) (if d =? 0 then (q ++ [n])%list else q))
      as [Hdeg (pushed & Hq & Hnd & Hin)].
    split.
    + intros t. rewrite Hdeg, deg_insert, occ_cons.
      destruct (decide (n = t)) as [->|]; subst d; lia.
    + assert (Hrest : forall x, x ∈ pushed <->
                (0 < (if decide (n = x) then d else deg m x) <= occ x rest)).
      { intros x. rewrite Hin, deg_insert. reflexivity. }
      destruct (Z.eqb_spec d 0) as [Hd0|Hd0].
      * exists (n :: pushed). split; [rewrite Hq, <- app_assoc; reflexivity|].
        split.
        { constructor; [|exact Hnd]. rewrite Hrest.
          destruct (decide (n = n)); [lia|congruence]. }
        intros x. rewrite elem_of_cons, Hrest, occ_cons.
        pose proof (occ_nonneg x rest).
        destruct (decide (n = x)) as [->|Hne]; subst d; split.
        -- intros _. lia.
        -- intros _. left. reflexivity.
        -- intros [->|H']; [congruence|lia].
        -- intros H'. right. lia.
      * exists pushed. split; [exact Hq|]. split; [exact Hnd|].
        intros x. rewrite Hrest, occ_cons.
        pose proof (occ_nonneg x rest).
        destruct (decide (n = x)) as [->|Hne]; subst d; lia.
Qed.

(** *** The queue loop *)

Lemma inflow_nil (edges : list WorkflowEdge.t) (t : string) : inflow [] edges t = 0.
Proof.
  unfold inflow. induction edges as [|e rest IH]; [reflexivity|].
  rewrite filter_cons. destruct (decide _) as [[_ H]|_]; [inversion H|exact IH].
Qed.

Lemma inflow_snoc (s : list string) (c : string) (edges : list WorkflowEdge.t) (t : string) :
  c ∉ s ->
  inflow (s ++ [c]) edges t = inflow s edges t + occ t (edges_from c edges).
Proof.
  intros Hc. unfold inflow, occ, edges_from.
  induction edges as [|e rest IH]; [reflexivity|].
  assert (Ha : (WorkflowEdge.target e = t /\ WorkflowEdge.source e ∈ s ++ [c]) <->
               (WorkflowEdge.target e = t /\ WorkflowEdge.source e ∈ s)
               \/ (WorkflowEdge.source e = c /\ WorkflowEdge.target e = t)).
  { rewrite elem_of_app, list_elem_of_singleton. tauto. }
  assert (Hex : WorkflowEdge.source e ∈ s -> WorkflowEdge.source e <> c).
  { intros H Heq. rewrite Heq in H. contradiction. }
  rewrite !filter_cons.
  destruct (decide (WorkflowEdge.target e = t /\ WorkflowEdge.source e ∈ s ++ [c]));
    destruct (decide (WorkflowEdge.target e = t /\ WorkflowEdge.source e ∈ s));
    destruct (decide (WorkflowEdge.source e = c));
    cbn [map]; rewrite ?filter_cons;
    try destruct (decide (WorkflowEdge.target e = t));
    cbn [length]; try lia; exfalso; tauto.
Qed.

(** An edge into [t] from outside [s] keeps the inflow from [s] below the
    in-degree. *)
Lemma inflow_lt_indeg (s : list string) (edges : list WorkflowEdge.t) (t : string) :
  (exists e, e ∈ edges /\ WorkflowEdge.target e = t /\ WorkflowEdge.source e ∉ s) ->
  inflow s edges t < indeg edges t.
Proof.
  unfold inflow, indeg. intros (e & He & Ht & Hs).
  assert (Hle : forall l : list WorkflowEdge.t,
    (length (filter (fun e => WorkflowEdge.target e = t /\ WorkflowEdge.source e ∈ s) l)
     <= length (filter (fun e => WorkflowEdge.target e = t) l))%nat).
  { induction l as [|x l IH]; [reflexivity|].
    rewrite !filter_cons.
    repeat match goal with |- context [decide ?P] => destruct (decide P) end;
      cbn [length]; try lia.
    exfalso. tauto. }
  induction edges as [|x rest IH]; [inversion He|].
  rewrite !filter_cons. apply elem_of_cons in He as [<-|He].
  - destruct (decide (WorkflowEdge.target e = t /\ WorkflowEdge.source e ∈ s)) as [[_ H]|_];
      [contradiction|].
    destruct (decide (WorkflowEdge.target e = t)); [|contradiction].
    cbn [length]. specialize (Hle rest). lia.
  - specialize (IH He).
    repeat match goal with |- context [decide ?P] => destruct (decide P) end;
      cbn [length]; try lia.
    exfalso. tauto.
Qed.

Lemma edges_from_target (c x : string) (edges : list WorkflowEdge.t) :
  x ∈ edges_from c edges -> x ∈ map WorkflowEdge.target edges.
Proof.
  unfold edges_from. intros H.
  apply list_elem_of_fmap in H as (e & -> & He).
  apply list_elem_of_filter in He as [_ He].
  apply list_elem_of_fmap. eauto.
Qed.

Section Drain.

Variable ids : list string.
Variable edges : list WorkflowEdge.t.

(** A set of keys each of which has an incoming edge from the set: the keys
    on cycles form such a set. *)
Variable stuck : string -> Prop.
Hypothesis stuck_pred :
  forall c, stuck c ->
    exists e, e ∈ edges /\ WorkflowEdge.target e = c /\ stuck (WorkflowEdge.source e).

Let adjacency := fst (build_tables edges).

Local Abbreviation inv := (queue_inv ids edges stuck).

Lemma inv_init :
  NoDup ids ->
  let m := init_in_degree ids (snd (build_tables edges)) in
  inv m (filter (fun nid => deg m nid = 0) ids) [].
Proof.
  intros Hnd m. destruct (tables_spec ids edges) as [_ Hdeg]. fold m in Hdeg.
  split; cbn [app].
  - apply NoDup_filter, Hnd.
  - intros x Hx. apply list_elem_of_filter in Hx as [Hx _]. lia.
  - intros t. rewrite Hdeg, inflow_nil. lia.
  - intros x Hx. apply list_elem_of_filter in Hx as [_ Hx].
    apply elem_of_app. left. exact Hx.
  - intros x Hx Hs. apply list_elem_of_filter in Hx as [Hx _].
    destruct (stuck_pred x Hs) as (e & He & Ht & _).
    rewrite Hdeg in Hx.
    assert (inflow [] edges x < indeg edges x).
    { apply inflow_lt_indeg. exists e. repeat split; try assumption.
      intros H. inversion H. }
    rewrite inflow_nil in *. lia.
Qed.

Lemma inv_step (m : gmap string Z) (c : string) (q s : list string) :
  inv m (c :: q) s ->
  let r := relax (succs adjacency c) m q in
  inv (fst r) (snd r) (s ++ [c]).
Proof.
  intros [Hnd Hzero Hdeg Huniv Hstuck] r.
  destruct (tables_spec ids edges) as [Hsuccs _].
  destruct (relax_spec (succs adjacency c) m q) as [Hd (pushed & Hq & Hpnd & Hpin)].
  fold r in Hd, Hq. rewrite Hsuccs in Hd, Hpin.
  assert (Hc : c ∉ s).
  { apply NoDup_app in Hnd as (_ & Hdisj & _). intros H.
    apply (Hdisj c H). left. }
  assert (Hold : forall x, x ∈ (s ++ [c]) ++ q <-> x ∈ s ++ c :: q).
  { intros x. rewrite <- app_assoc. reflexivity. }
  assert (Hfresh : forall x, x ∈ pushed -> x ∉ (s ++ [c]) ++ q).
  { intros x Hx Hin. apply Hpin in Hx. apply Hold, Hzero in Hin. lia. }
  assert (Hsplit : forall x, x ∈ (s ++ [c]) ++ snd r <->
                             x ∈ (s ++ [c]) ++ q \/ x ∈ pushed).
  { intros x. rewrite Hq, app_assoc, elem_of_app. reflexivity. }
  split.
  - rewrite Hq, app_assoc. apply NoDup_app. split; [|split].
    + rewrite <- app_assoc. exact Hnd.
    + intros x Hx Hp. exact (Hfresh x Hp Hx).
    + exact Hpnd.
  - intros x Hx. rewrite Hd. apply Hsplit in Hx as [Hx|Hx].
    + apply Hold, Hzero in Hx. pose proof (occ_nonneg x (edges_from c edges)). lia.
    + apply Hpin in Hx. lia.
  - intros t. rewrite Hd, Hdeg, inflow_snoc by exact Hc. lia.
  - intros x Hx. apply Hsplit in Hx as [Hx|Hx].
    + apply Huniv, Hold, Hx.
    + apply Hpin in Hx. apply elem_of_app. right.
      apply (edges_from_target c). apply occ_pos_elem. lia.
  - intros x Hx Hs. apply Hsplit in Hx as [Hx|Hx].
    + exact (Hstuck x (proj1 (Hold x) Hx) Hs).
    + apply Hpin in Hx.
      destruct (stuck_pred x Hs) as (e & He & Ht & Hsrc).
      assert (inflow (s ++ [c]) edges x < indeg edges x).
      { apply inflow_lt_indeg. exists e. repeat split; try assumption.
        intros Hin. apply (Hstuck (WorkflowEdge.source e)); [|exact Hsrc].
        apply elem_of_app in Hin as [Hin|Hin]; apply elem_of_app; [left; exact Hin|].
        apply list_elem_of_singleton in Hin as ->. right. left. }
      rewrite inflow_snoc in * by exact Hc. rewrite Hdeg in Hx. lia.
Qed.

(** With fuel for every key the loop ends on an empty queue; it puts out
    first what it already had, then the queue in queue order, then what it
    enqueues later; no key twice and no key of [stuck]. *)
Lemma drain_spec (fuel : nat) :
  forall m q s,
    inv m q s ->
    (length (ids ++ map WorkflowEdge.target edges) <= fuel + length s)%nat ->
    exists r,
      drain fuel adjacency m q s = Some r
      /\ (exists tail, r = (s ++ q ++ tail)%list)
      /\ NoDup r
      /\ (forall x, x ∈ r -> x ∈ ids ++ map WorkflowEdge.target edges)
      /\ (forall x, x ∈ r -> ~ stuck x).
Proof.
  induction fuel as [|fuel IH]; intros m q s Hinv Hfuel.
  - destruct q as [|c q].
    + exists s. cbn [drain]. destruct Hinv as [Hnd _ _ Huniv Hstuck].
      rewrite app_nil_r in *.
      split; [reflexivity|]. split; [exists []; rewrite !app_nil_r; reflexivity|].
      repeat split; assumption.
    + exfalso. destruct Hinv as [Hnd _ _ Huniv _].
      pose proof (submseteq_length _ _ (NoDup_submseteq _ _ Hnd Huniv)) as Hlen.
      rewrite length_app in Hlen. cbn [length] in *. lia.
  - destruct q as [|c q].
    + exists s. cbn [drain]. destruct Hinv as [Hnd _ _ Huniv Hstuck].
      rewrite app_nil_r in *.
      split; [reflexivity|]. split; [exists []; rewrite !app_nil_r; reflexivity|].
      repeat split; assumption.
    + cbn [drain]. pose proof (inv_step m c q s Hinv) as Hstep. cbv zeta in Hstep.
      destruct (relax (succs adjacency c) m q) as [m' q'] eqn:Er.
      cbn [fst snd] in Hstep.
      destruct (relax_spec (succs adjacency c) m q) as [_ (pushed & Hq & _)].
      rewrite Er in Hq. cbn [snd] in Hq.
      destruct (IH m' q' (s ++ [c])%list Hstep) as (r & Hr & (tail & Htail) & Hrest).
      { rewrite (length_app s). cbn [length]. lia. }
      exists r. split; [exact Hr|]. split; [|exact Hrest].
      exists (pushed ++ tail)%list. rewrite Htail, Hq, <- !app_assoc. reflexivity.
Qed.

End Drain.

(** *** Cycles *)

Lemma tc_last {A : Type} (R : relation A) (x z : A) :
  tc R x z -> exists y, rtc R x y /\ R y z.
Proof.
  induction 1 as [x z Hxz|x y z Hxy _ (w & Hyw & Hwz)].
  - exists x. split; [apply rtc_refl|exact Hxz].
  - exists w. split; [eapply rtc_l; eauto|exact Hwz].
Qed.

Lemma on_cycle_pred (edges : list WorkflowEdge.t) (c : string) :
  on_cycle edges c ->
  exists e, e ∈ edges /\ WorkflowEdge.target e = c
            /\ on_cycle edges (WorkflowEdge.source e).
Proof.
  intros H. apply tc_last in H as (p & Hcp & (e & He & Hsrc & Htgt)).
  exists e. split; [exact He|]. split; [exact Htgt|].
  rewrite Hsrc. unfold on_cycle.
  eapply tc_rtc_r; [|exact Hcp]. apply tc_once. exists e. auto.
Qed.

(** *** The sort as a whole *)

Lemma topological_sort_spec (ids : list string) (edges : list WorkflowEdge.t) :
  NoDup ids ->
  exists r,
    _topological_sort ids edges = Some r
    /\ (exists tail, r = roots ids edges ++ tail)
    /\ NoDup r
    /\ (forall x, x ∈ r -> x ∈ ids ++ map WorkflowEdge.target edges)
    /\ (forall x, x ∈ r -> ~ on_cycle edges x).
Proof.
  intros Hnd. unfold _topological_sort.
  pose proof (inv_init ids edges (on_cycle edges) (on_cycle_pred edges) Hnd) as Hinit.
  pose proof (drain_spec ids edges (on_cycle edges) (on_cycle_pred edges)
                (length ids + length edges)) as Hdrain.
  destruct (tables_spec ids edges) as [_ Hdeg].
  destruct (build_tables edges) as [adjacency in_degree] eqn:Et.
  cbn [fst snd] in *. cbv zeta in Hinit.
  destruct (Hdrain _ _ _ Hinit) as (r & Hr & (tail & Htail) & Hrest).
  { rewrite length_app, length_map. lia. }
  exists r. split; [exact Hr|]. split; [|exact Hrest].
  exists tail. rewrite Htail. cbn [app]. f_equal.
  unfold roots. apply list_filter_iff. intros x. rewrite Hdeg. reflexivity.
Qed.

(** *** The node map *)

Lemma assoc_elem {A : Type} (l : list (string * A)) (k : string) (a : A) :
  assoc l k = Some a -> (k, a) ∈ l.
Proof.
  induction l as [|[k' a'] rest IH]; cbn [assoc]; [discriminate|].
  destruct (String.eqb_spec k' k) as [->|Hne].
  - intros [= ->]. left.
  - intros H. right. apply IH, H.
Qed.

Lemma map_set_spec (m : list (string * WorkflowNode.t)) (k : string) (n : WorkflowNode.t) :
  (forall k' n', (k', n') ∈ map_set m k n -> (k', n') ∈ m \/ (k', n') = (k, n))
  /\ (forall k', k' ∈ map fst (map_set m k n) <-> k' ∈ map fst m \/ k' = k)
  /\ (NoDup (map fst m) -> NoDup (map fst (map_set m k n))).
Proof.
  induction m as [|[k0 n0] rest (IHin & IHk & IHnd)]; cbn [map_set].
  - split; [|split].
    + intros k' n' H. apply list_elem_of_singleton in H. auto.
    + intros k'. cbn. rewrite list_elem_of_singleton, elem_of_nil. tauto.
    + intros _. cbn. apply NoDup_singleton.
  - destruct (String.eqb_spec k0 k) as [->|Hne]; cbn [map fst].
    + split; [|split].
      * intros k' n' H. apply elem_of_cons in H as [->|H]; [auto|].
        left. right. exact H.
      * intros k'. rewrite elem_of_cons. tauto.
      * auto.
    + split; [|split].
      * intros k' n' H. apply elem_of_cons in H as [->|H]; [left; left|].
        destruct (IHin _ _ H); [left; right|right]; assumption.
      * intros k'. rewrite !elem_of_cons, IHk. tauto.
      * intros Hnd. apply NoDup_cons in Hnd as [Hk0 Hnd].
        apply NoDup_cons. split; [|auto].
        rewrite IHk. intros [H|H]; [contradiction|congruence].
Qed.

Lemma build_nodes_map_spec (nodes : list WorkflowNode.t) :
  NoDup (map fst (build_nodes_map nodes))
  /\ forall k n, assoc (build_nodes_map nodes) k = Some n -> key_of n = k /\ n ∈ nodes.
Proof.
  unfold build_nodes_map.
  assert (H : forall m,
    NoDup (map fst m) ->
    (forall k n, (k, n) ∈ m -> key_of n = k) ->
    let r := fold_left (fun m n => map_set m (key_of n) n) nodes m in
    NoDup (map fst r)
    /\ forall k n, (k, n) ∈ r -> key_of n = k /\ ((k, n) ∈ m \/ n ∈ nodes)).
  { induction nodes as [|x rest IH]; intros m Hnd Hkey; cbn [fold_left].
    - split; [exact Hnd|]. intros k n H. split; [apply Hkey, H|left; exact H].
    - destruct (map_set_spec m (key_of x) x) as (Hin & _ & Hnd').
      destruct (IH (map_set m (key_of x) x)) as [Hr1 Hr2].
      + apply Hnd', Hnd.
      + intros k n H. destruct (Hin _ _ H) as [H'|[= -> ->]]; [apply Hkey, H'|reflexivity].
      + split; [exact Hr1|]. intros k n H.
        destruct (Hr2 _ _ H) as [Hk [H'|H']]; split; try exact Hk.
        * destruct (Hin _ _ H') as [H''|[= -> ->]]; [left; exact H''|right; left].
        * right. right. exact H'. }
  destruct (H []) as [H1 H2]; [constructor|intros k n Hin; inversion Hin|].
  split; [exact H1|]. intros k n Ha. apply assoc_elem in Ha.
  destruct (H2 _ _ Ha) as [Hk [Hin|Hin]]; [inversion Hin|auto].
Qed.

(** *** Running the nodes *)

Section Runs.

Variable get_node_handler : string -> pyres handler.
Variable format_exc : exn -> string.
Variable set_iter : list string -> list string.

(** Iterating a set visits every element once. *)
Hypothesis set_iter_perm : forall ks, NoDup ks -> set_iter ks ≡ₚ ks.

Local Abbreviation exec_node := (_execute_node get_node_handler format_exc).
Local Abbreviation exec_nodes := (run_nodes get_node_handler format_exc).

(** The two ways [_execute_node] ends. *)
Lemma execute_node_cases (context : list (string * value)) (node : WorkflowNode.t) :
  let nr := snd (exec_node context node) in
  NodeRun.node_id nr = WorkflowNode.id node
  /\ ((NodeRun.status nr = NodeCompleted
       /\ NodeRun.node_key nr = Some (key_of node)
       /\ NodeRun.error nr = None)
      \/ (NodeRun.status nr = NodeFailed
          /\ NodeRun.node_key nr = None
          /\ exists e, NodeRun.error nr = Some (format_exc e))).
Proof.
  unfold _execute_node.
  destruct (Expression.interpolate_dict _ _) as [resolved|e]; cbn.
  - destruct (get_node_handler (WorkflowNode.type node)) as [h|e]; cbn.
    + destruct (h resolved context) as [[| | | | |result]|e]; cbn; eauto 10.
    + eauto 10.
  - eauto 10.
Qed.

Lemma run_nodes_spec (nodes_map : list (string * WorkflowNode.t))
    (sorted_node_ids : list string) :
  forall run context node_runs,
    let r := exec_nodes nodes_map sorted_node_ids run context node_runs in
    exists new,
      snd r = node_runs ++ new
      /\ Forall (written_for nodes_map sorted_node_ids) new
      /\ pass_result nodes_map sorted_node_ids run (fst (fst r)) new.
Proof.
  induction sorted_node_ids as [|k rest IH]; intros run context node_runs; cbn [run_nodes].
  - exists []. rewrite app_nil_r. split; [reflexivity|]. split; [constructor|].
    left. split; [constructor|reflexivity].
  - assert (Hweak : forall nr, written_for nodes_map rest nr ->
                               written_for nodes_map (k :: rest) nr).
    { intros nr (k' & node & Hk & Ha & Hid). exists k', node.
      split; [right; exact Hk|auto]. }
    assert (Hpass : forall run' new,
              pass_result nodes_map rest run run' new ->
              pass_result nodes_map (k :: rest) run run' new).
    { intros run' new [H|(pre & nr & k' & node & err & H1 & H2 & H3 & H4 & H5 & H6)];
        [left; exact H|].
      right. exists pre, nr, k', node, err.
      repeat (split; [tauto|]). split; [right; exact H5|exact H6]. }
    destruct (assoc nodes_map k) as [node|] eqn:Ea.
    + destruct (exec_node context node) as [context' nr] eqn:En.
      pose proof (execute_node_cases context node) as Hc.
      rewrite En in Hc. cbn [snd] in Hc.
      destruct Hc as [Hid [(Hst & _ & _)|(Hst & _ & e & Herr)]]; rewrite Hst.
      * destruct (IH run context' (node_runs ++ [nr])) as (new & Hnew & Hall & Hres).
        exists (nr :: new). rewrite Hnew, <- app_assoc. split; [reflexivity|].
        split.
        { constructor; [exists k, node; split; [left|auto]|].
          eapply Forall_impl; [exact Hall|exact Hweak]. }
        apply Hpass in Hres.
        destruct Hres as [[Hc Hr]|(pre & nr' & k' & node' & err & H1 & H2 & Hrest)].
        { left. split; [constructor; assumption|exact Hr]. }
        right. exists (nr :: pre), nr', k', node', err.
        split; [rewrite H1; reflexivity|]. split; [constructor; assumption|exact Hrest].
      * exists [nr]. cbn [fst snd]. split; [reflexivity|].
        split; [constructor; [|constructor]; exists k, node; split; [left|auto]|].
        right. exists [], nr, k, node, (format_exc e).
        rewrite Herr. cbn. repeat split; auto. left.
    + destruct (IH run context node_runs) as (new & Hnew & Hall & Hres).
      exists new. split; [exact Hnew|].
      split; [eapply Forall_impl; [exact Hall|exact Hweak]|apply Hpass, Hres].
Qed.

Local Abbreviation exec := (execute get_node_handler format_exc set_iter).

(** [execute] always returns: the sort finishes, the node runs written are
    those of one pass over the sorted keys, and the run record ends
    completed without an error, or failed with the failed node's message. *)
Lemma execute_spec (workflow : Workflow.t) (input_payload : value) (trigger_type : string) :
  let nodes_map := build_nodes_map (Workflow.nodes workflow) in
  exists sorted run node_runs,
    _topological_sort (set_iter (map fst nodes_map)) (Workflow.edges workflow) = Some sorted
    /\ exec workflow input_payload trigger_type = Some (run, node_runs)
    /\ Forall (written_for nodes_map sorted) node_runs
    /\ ((Forall (fun nr => NodeRun.status nr = NodeCompleted) node_runs
         /\ WorkflowRun.status run = RunCompleted /\ WorkflowRun.error run = None)
        \/ (exists pre nr k node err,
              node_runs = pre ++ [nr]
              /\ Forall (fun nr => NodeRun.status nr = NodeCompleted) pre
              /\ NodeRun.status nr = NodeFailed
              /\ NodeRun.error nr = Some err
              /\ k ∈ sorted /\ assoc nodes_map k = Some node
              /\ NodeRun.node_id nr = WorkflowNode.id node
              /\ WorkflowRun.status run = RunFailed
              /\ WorkflowRun.error run = Some ("Node " ++ k ++ " failed: " ++ err)%string)).
Proof.
  intros nodes_map. unfold execute. fold nodes_map.
  destruct (build_nodes_map_spec (Workflow.nodes workflow)) as [Hnd _]. fold nodes_map in Hnd.
  destruct (topological_sort_spec (set_iter (map fst nodes_map)) (Workflow.edges workflow))
    as (sorted & Hsorted & _).
  { rewrite set_iter_perm; assumption. }
  exists sorted. rewrite Hsorted. cbn [mbind option_bind].
  match goal with
  | |- context [run_nodes _ _ nodes_map sorted ?r ?c []] =>
      destruct (run_nodes_spec nodes_map sorted r c []) as (new & Hnew & Hall & Hres);
      destruct (run_nodes get_node_handler format_exc nodes_map sorted r c [])
        as [[run' context'] node_runs] eqn:Er
  end.
  cbn [fst snd app] in Hnew, Hres. subst node_runs.
  destruct Hres as [[Hc ->]|(pre & nr & k & node & err & H1 & H2 & H3 & H4 & H5 & H6 & H7 & H8 & H9)].
  - eexists _, new. split; [reflexivity|]. split; [reflexivity|].
    split; [exact Hall|]. left. cbn. auto.
  - rewrite H8. eexists _, new. split; [reflexivity|]. split; [reflexivity|].
    split; [exact Hall|]. right. exists pre, nr, k, node, err. auto 10.
Qed.

End Runs.

End ExecutorFacts.


(** ** The executor's claims *)

Module ExecutorClaims.
Import Py Handlers Executor Vocabulary ExecutorFacts.
Local Open Scope list_scope.

(** The queue discipline alone: whatever the tables hold, the loop puts out
    what is already sorted, then the current queue in its order, then the
    keys it enqueues later. *)
Lemma drain_fifo (fuel : nat) (adjacency : gmap string (list string)) :
  forall in_degree queue sorted_nodes r,
    drain fuel adjacency in_degree queue sorted_nodes = Some r ->
    exists tail, r = sorted_nodes ++ queue ++ tail.
Proof.
  induction fuel as [|fuel IH]; intros m q s r; destruct q as [|c q]; cbn [drain].
  - intros [= <-]. exists []. rewrite !app_nil_r. reflexivity.
  - discriminate.
  - intros [= <-]. exists []. rewrite !app_nil_r. reflexivity.
  - destruct (relax_spec (succs adjacency c) m q) as [_ (pushed & Hq & _)].
    destruct (relax (succs adjacency c) m q) as [m' q'].
    cbn [snd] in Hq. subst q'. intros H.
    destruct (IH _ _ _ _ H) as [tail ->].
    exists (pushed ++ tail). rewrite <- !app_assoc. reflexivity.
Qed.

(** C1 (as amended): when the graph has a cycle and every edge points at an
    existing node, the topological sort finishes with fewer entries than
    there are nodes and leaves out every node on a cycle, so no NodeRun is
    written for such a node. The executor does not compare the lengths and
    raises no cycle error: the nodes that were sorted run as usual, and when
    all of them complete the run ends completed, without an error. *)
Theorem cycle_nodes_never_run
    (get_node_handler : string -> pyres handler) (format_exc : exn -> string)
    (set_iter : list string -> list string)
    (workflow : Workflow.t) (input_payload : value) (trigger_type : string) (c : string) :
  (forall ks, NoDup ks -> set_iter ks ≡ₚ ks) ->
  let nodes_map := build_nodes_map (Workflow.nodes workflow) in
  let edges := Workflow.edges workflow in
  on_cycle edges c -> c ∈ map fst nodes_map ->
  (forall e, e ∈ edges -> WorkflowEdge.target e ∈ map fst nodes_map) ->
  exists sorted run node_runs,
    _topological_sort (set_iter (map fst nodes_map)) edges = Some sorted
    /\ execute get_node_handler format_exc set_iter workflow input_payload trigger_type
       = Some (run, node_runs)
    /\ (length sorted < length nodes_map)%nat
    /\ (forall x, on_cycle edges x -> x ∉ sorted)
    /\ Forall (fun nr => exists k node,
                 ~ on_cycle edges k /\ assoc nodes_map k = Some node
                 /\ NodeRun.node_id nr = WorkflowNode.id node) node_runs
    /\ (Forall (fun nr => NodeRun.status nr = NodeCompleted) node_runs ->
        WorkflowRun.status run = RunCompleted /\ WorkflowRun.error run = None).
Proof.
  intros Hperm nodes_map edges Hcyc Hc Hwf.
  destruct (execute_spec get_node_handler format_exc set_iter Hperm
              workflow input_payload trigger_type)
    as (sorted & run & node_runs & Hsort & Hexec & Hall & Hend).
  fold nodes_map edges in Hsort, Hall, Hend.
  destruct (build_nodes_map_spec (Workflow.nodes workflow)) as [Hnd _].
  fold nodes_map in Hnd.
  destruct (topological_sort_spec (set_iter (map fst nodes_map)) edges)
    as (sorted' & Hsort' & _ & Hnds & Huniv & Hstuck).
  { rewrite Hperm; assumption. }
  rewrite Hsort in Hsort'. injection Hsort' as <-.
  exists sorted, run, node_runs.
  split; [exact Hsort|]. split; [exact Hexec|]. split; [|split; [|split]].
  - assert (Hsub : c :: sorted ⊆+ map fst nodes_map).
    { apply NoDup_submseteq.
      - apply NoDup_cons. split; [|exact Hnds]. intros H. exact (Hstuck c H Hcyc).
      - intros x Hx. apply elem_of_cons in Hx as [->|Hx]; [exact Hc|].
        apply Huniv, elem_of_app in Hx as [Hx|Hx].
        + rewrite Hperm in Hx; assumption.
        + apply list_elem_of_fmap in Hx as (e & -> & He). apply Hwf, He. }
    apply submseteq_length in Hsub. rewrite length_map in Hsub. cbn [length] in Hsub. lia.
  - intros x Hx Hin. exact (Hstuck x Hin Hx).
  - eapply Forall_impl; [exact Hall|].
    intros nr (k & node & Hk & Ha & Hid). exists k, node.
    split; [exact (Hstuck k Hk)|auto].
  - intros Hdone.
    destruct Hend as [(_ & Hst & Herr)|(pre & nr & k & node & err & -> & _ & Hf & _)];
      [auto|].
    rewrite Forall_app, Forall_singleton in Hdone. destruct Hdone as [_ Hdone]. congruence.
Qed.

(** C2: when a node's NodeRun ends failed, it is the last NodeRun of the
    run (every earlier one completed, none follows), the run's status is
    failed, and the run's error is ["Node {key} failed: {error}"] with the
    key and the error of that node. [execute] returns in every case. *)
Theorem failed_node_ends_run
    (get_node_handler : string -> pyres handler) (format_exc : exn -> string)
    (set_iter : list string -> list string)
    (workflow : Workflow.t) (input_payload : value) (trigger_type : string) :
  (forall ks, NoDup ks -> set_iter ks ≡ₚ ks) ->
  exists run node_runs,
    execute get_node_handler format_exc set_iter workflow input_payload trigger_type
    = Some (run, node_runs)
    /\ forall nr,
         nr ∈ node_runs -> NodeRun.status nr = NodeFailed ->
         exists pre node err,
           node_runs = pre ++ [nr]
           /\ Forall (fun nr' => NodeRun.status nr' = NodeCompleted) pre
           /\ node ∈ Workflow.nodes workflow
           /\ NodeRun.node_id nr = WorkflowNode.id node
           /\ NodeRun.error nr = Some err
           /\ WorkflowRun.status run = RunFailed
           /\ WorkflowRun.error run
              = Some ("Node " ++ key_of node ++ " failed: " ++ err)%string.
Proof.
  intros Hperm.
  destruct (execute_spec get_node_handler format_exc set_iter Hperm
              workflow input_payload trigger_type)
    as (sorted & run & node_runs & _ & Hexec & _ & Hend).
  exists run, node_runs. split; [exact Hexec|].
  intros nr Hin Hfailed.
  destruct Hend as [(Hdone & _)
                   |(pre & nr' & k & node & err & -> & Hpre & _ & Herr & _ & Ha & Hid & Hst & Hmsg)].
  - rewrite Forall_forall in Hdone. specialize (Hdone nr Hin). congruence.
  - apply elem_of_app in Hin as [Hin|Hin].
    + rewrite Forall_forall in Hpre. specialize (Hpre nr Hin). congruence.
    + apply list_elem_of_singleton in Hin as ->.
      destruct (build_nodes_map_spec (Workflow.nodes workflow)) as [_ Hkeys].
      destruct (Hkeys k node Ha) as [<- Hnode].
      exists pre, node, err. auto 10.
Qed.

(** C4 (as amended): the queue of the sort is first-in first-out. The keys
    without incoming edges leave first, in the order in which the set of
    node keys is iterated (which Python does not tie to the order in which
    the nodes were inserted); at any later point the keys waiting in the
    queue leave in the order in which they entered it. For a fixed graph and
    a fixed iteration order of the key set the result is therefore fixed. *)
Theorem sort_is_fifo (all_node_ids : list string) (edges : list WorkflowEdge.t) :
  NoDup all_node_ids ->
  (exists sorted tail,
      _topological_sort all_node_ids edges = Some sorted
      /\ sorted = roots all_node_ids edges ++ tail)
  /\ (forall fuel adjacency in_degree queue sorted_nodes r,
        drain fuel adjacency in_degree queue sorted_nodes = Some r ->
        exists tail, r = sorted_nodes ++ queue ++ tail).
Proof.
  intros Hnd. split.
  - destruct (topological_sort_spec all_node_ids edges Hnd)
      as (sorted & Hsort & (tail & Htail) & _).
    exists sorted, tail. auto.
  - intros fuel adjacency. apply drain_fifo.
Qed.

(** C10 (as amended): a node execution fails exactly when interpolation,
    the handler lookup or the handler raises, or when the handler returns
    something that is not a mapping; the NodeRun then records that
    exception and its [node_key] stays unset. It completes exactly when the
    handler returns a mapping, and then [node_key] is [node.node_key or
    str(node.id)]: the author-assigned key when that is not empty, the id
    string when it is empty. The run's error message for a failed node is
    built from the key under which the node was found, so it names the key
    although the NodeRun does not. *)
Theorem node_key_set_only_on_success
    (get_node_handler : string -> pyres handler) (format_exc : exn -> string)
    (context : list (string * value)) (node : WorkflowNode.t) :
  let nr := snd (_execute_node get_node_handler format_exc context node) in
  let result := RunVocabulary.attempt get_node_handler context node in
  (NodeRun.status nr = NodeFailed <->
   (exists e, result = Raise e) \/ (exists r, result = Ret r /\ forall d, r <> VDict d))
  /\ (NodeRun.status nr = NodeCompleted <-> exists d, result = Ret (VDict d))
  /\ (forall e, result = Raise e -> NodeRun.error nr = Some (format_exc e))
  /\ (NodeRun.status nr = NodeFailed -> NodeRun.node_key nr = None)
  /\ (NodeRun.status nr = NodeCompleted -> NodeRun.node_key nr = Some (key_of node))
  /\ (WorkflowNode.node_key node <> ""%string -> key_of node = WorkflowNode.node_key node)
  /\ (WorkflowNode.node_key node = ""%string -> key_of node = WorkflowNode.id node)
  /\ (forall nodes_map k rest run node_runs,
        assoc nodes_map k = Some node ->
        NodeRun.status nr = NodeFailed ->
        exists err,
          NodeRun.error nr = Some err
          /\ WorkflowRun.error
               (fst (fst (run_nodes get_node_handler format_exc nodes_map (k :: rest)
                                    run context node_runs)))
             = Some ("Node " ++ k ++ " failed: " ++ err)%string).
Proof.
  intros nr result.
  pose proof (execute_node_cases get_node_handler format_exc context node) as Hc.
  fold nr in Hc. destruct Hc as [_ Hc].
  assert (Hres : (exists d, result = Ret (VDict d) /\ NodeRun.status nr = NodeCompleted)
                 \/ ((exists e, result = Raise e /\ NodeRun.error nr = Some (format_exc e))
                      \/ (exists r, result = Ret r /\ forall d, r <> VDict d))
                    /\ NodeRun.status nr = NodeFailed).
  { subst nr result. unfold RunVocabulary.attempt, _execute_node.
    destruct (Expression.interpolate_dict _ _) as [resolved|e]; cbn [mbind pyres_bind bind].
    - destruct (get_node_handler (WorkflowNode.type node)) as [h|e];
        cbn [mbind pyres_bind bind].
      + destruct (h resolved context) as [[| | | | |d]|e]; cbn [fst snd];
          try (right; split; [right; eexists; split; [reflexivity|discriminate]|reflexivity]).
        * left. exists d. split; reflexivity.
        * right. split; [left; exists e; split; reflexivity|reflexivity].
      + right. split; [left; exists e; split; reflexivity|reflexivity].
    - right. split; [left; exists e; split; reflexivity|reflexivity]. }
  split; [|split; [|split; [|split; [|split; [|split; [|split]]]]]].
  - split.
    + intros Hst. destruct Hres as [(d & _ & Hd)|[[(e & He & _)|Hr] _]];
        [congruence|left; eauto|right; exact Hr].
    + intros _H. destruct Hres as [(d & Hd & _)|[_ Hst]]; [|exact Hst].
      destruct _H as [(e & He)|(r & Hr & Hno)]; [congruence|].
      rewrite Hd in Hr. injection Hr as <-. destruct (Hno d eq_refl).
  - split.
    + intros Hst. destruct Hres as [(d & Hd & _)|[_ Hf]]; [eauto|congruence].
    + intros (d & Hd). destruct Hres as [(d' & _ & Hst)|[[(e & He & _)|(r & Hr & Hno)] _]];
        [exact Hst|congruence|].
      rewrite Hd in Hr. injection Hr as <-. destruct (Hno d eq_refl).
  - intros e He. destruct Hres as [(d & Hd & _)|[[(e' & He' & Herr)|(r & Hr & _)] _]];
      [congruence| |congruence].
    rewrite He in He'. injection He' as <-. exact Herr.
  - intros Hst. destruct Hc as [(H1 & _)|(_ & H2 & _)]; [congruence|exact H2].
  - intros Hst. destruct Hc as [(_ & H2 & _)|(H1 & _)]; [exact H2|congruence].
  - unfold key_of. intros Hne.
    destruct (String.eqb_spec (WorkflowNode.node_key node) ""); [contradiction|reflexivity].
  - unfold key_of. intros ->. reflexivity.
  - intros nodes_map k rest run node_runs Ha Hfailed.
    destruct Hc as [(H1 & _)|(_ & _ & e & Herr)]; [congruence|].
    exists (format_exc e). split; [exact Herr|].
    cbn [run_nodes]. rewrite Ha.
    destruct (_execute_node get_node_handler format_exc context node) as [context' nr'] eqn:En.
    subst nr. cbn [snd] in *. rewrite Hfailed, Herr. reflexivity.
Qed.

(** *** The claims at concrete workflows *)

Import Scenarios.

Lemma in_order_perm (ks : list string) : NoDup ks -> in_order ks ≡ₚ ks.
Proof. reflexivity. Qed.

(** C1 (counterexample): the two-node cycle of scenario S3 ends completed,
    with no error and no NodeRun; with a node in front of the cycle that
    node runs; and an edge to a missing node makes the sort longer than the
    node count, again without an error. *)
Lemma cycle_run_completes :
  run_it in_order two_cycle
  = Some ({| WorkflowRun.workflow_id := "wf-1";
             WorkflowRun.status := RunCompleted;
             WorkflowRun.trigger_type := "manual";
             WorkflowRun.input_payload := VDict [];
             WorkflowRun.output_payload := Some (VDict []);
             WorkflowRun.error := None |}, [])
  /\ summary (run_it in_order tail_cycle)
     = Some (RunCompleted, None, [("id-A"%string, NodeCompleted, Some "A"%string)])
  /\ _topological_sort ["A"%string] (Workflow.edges dangling)
     = Some ["A"%string; "X"%string]
  /\ summary (run_it in_order dangling)
     = Some (RunCompleted, None, [("id-A"%string, NodeCompleted, Some "A"%string)]).
Proof. repeat split; vm_compute; reflexivity. Qed.

(** C1 (witness): a node in front of the cycle [B -> C -> B]. *)
Lemma cycle_nodes_never_run_witness :
  let nodes_map := build_nodes_map (Workflow.nodes tail_cycle) in
  let edges := Workflow.edges tail_cycle in
  on_cycle edges "B"
  /\ exists sorted run node_runs,
       _topological_sort (in_order (map fst nodes_map)) edges = Some sorted
       /\ run_it in_order tail_cycle = Some (run, node_runs)
       /\ (length sorted < length nodes_map)%nat
       /\ (forall x, on_cycle edges x -> x ∉ sorted)
       /\ Forall (fun nr => exists k node,
                    ~ on_cycle edges k /\ assoc nodes_map k = Some node
                    /\ NodeRun.node_id nr = WorkflowNode.id node) node_runs
       /\ (Forall (fun nr => NodeRun.status nr = NodeCompleted) node_runs ->
           WorkflowRun.status run = RunCompleted /\ WorkflowRun.error run = None).
Proof.
  assert (Hcyc : on_cycle (Workflow.edges tail_cycle) "B").
  { eapply tc_l; [|apply tc_once].
    - exists (arrow "B" "C"). split; [|split; reflexivity].
      apply list_elem_of_In. cbn. tauto.
    - exists (arrow "C" "B"). split; [|split; reflexivity].
      apply list_elem_of_In. cbn. tauto. }
  split; [exact Hcyc|].
  apply (cycle_nodes_never_run registry format_exc in_order tail_cycle (VDict [])
           "manual" "B" in_order_perm Hcyc).
  - apply list_elem_of_In. vm_compute. tauto.
  - intros e He. apply list_elem_of_In in He. apply list_elem_of_In.
    cbn in He. destruct He as [<-|[<-|[<-|[]]]]; vm_compute; tauto.
Defined.

(** C2 (witness): scenario S4, a summarize node without an API key between
    a trigger and a response node. *)
Lemma failed_node_ends_run_witness :
  exists run node_runs,
    run_it in_order no_api_key = Some (run, node_runs)
    /\ forall nr,
         nr ∈ node_runs -> NodeRun.status nr = NodeFailed ->
         exists pre node err,
           node_runs = pre ++ [nr]
           /\ Forall (fun nr' => NodeRun.status nr' = NodeCompleted) pre
           /\ node ∈ Workflow.nodes no_api_key
           /\ NodeRun.node_id nr = WorkflowNode.id node
           /\ NodeRun.error nr = Some err
           /\ WorkflowRun.status run = RunFailed
           /\ WorkflowRun.error run
              = Some ("Node " ++ key_of node ++ " failed: " ++ err)%string.
Proof.
  exact (failed_node_ends_run registry format_exc in_order no_api_key (VDict [])
           "manual" in_order_perm).
Defined.

(** C10 (counterexample): a node whose [node_key] is empty completes, and
    its NodeRun carries the id string, not the author's (empty) key. *)
Lemma empty_key_run_carries_id :
  WorkflowNode.node_key RunVocabulary.unkeyed = ""%string
  /\ NodeRun.status (snd (_execute_node registry format_exc [] RunVocabulary.unkeyed))
     = NodeCompleted
  /\ NodeRun.node_key (snd (_execute_node registry format_exc [] RunVocabulary.unkeyed))
     = Some "uuid-1"%string.
Proof. repeat split; vm_compute; reflexivity. Qed.

(** C10 (witness): the summarize node of scenario S4, which fails. *)
Lemma node_key_set_only_on_success_witness :
  let s_node := node "S" "summarize" [] in
  let run := {| WorkflowRun.workflow_id := "wf-1"; WorkflowRun.status := RunRunning;
                WorkflowRun.trigger_type := "manual"; WorkflowRun.input_payload := VDict [];
                WorkflowRun.output_payload := None; WorkflowRun.error := None |} in
  let nr := snd (_execute_node registry format_exc [] s_node) in
  NodeRun.status nr = NodeFailed /\ NodeRun.node_key nr = None
  /\ (exists e, RunVocabulary.attempt registry [] s_node = Raise e)
  /\ exists err,
       NodeRun.error nr = Some err
       /\ WorkflowRun.error
            (fst (fst (run_nodes registry format_exc [("S"%string, s_node)]
                                 ["S"%string; "R"%string] run [] [])))
          = Some ("Node S failed: " ++ err)%string.
Proof.
  intros s_node run nr.
  destruct (node_key_set_only_on_success registry format_exc [] s_node)
    as (Hfail & _ & _ & Hkey & _ & _ & _ & Hrun).
  assert (Hst : NodeRun.status nr = NodeFailed) by reflexivity.
  split; [exact Hst|]. split; [exact (Hkey Hst)|].
  split; [eexists; reflexivity|].
  exact (Hrun [("S"%string, s_node)] "S"%string ["R"%string] run [] eq_refl Hst).
Defined.

(** Scenario S4 evaluated: A completed, S failed, nothing for R. *)
Example no_api_key_run :
  summary (run_it in_order no_api_key)
  = Some (RunFailed,
          Some ("Node S failed: ValueError: OpenAI API key is required. "
                ++ "Set it in the Summarize node config.")%string,
          [("id-A"%string, NodeCompleted, Some "A"%string);
           ("id-S"%string, NodeFailed, None)]).
Proof. vm_compute. reflexivity. Qed.

(** C4 (counterexample): one graph, two nodes inserted as A then B and no
    edge; iterating the key set as A, B or as B, A gives two different
    results, and the second is not the insertion order. *)
Lemma set_order_changes_result :
  map fst (build_nodes_map (Workflow.nodes two_roots)) = ["A"%string; "B"%string]
  /\ _topological_sort ["A"%string; "B"%string] (Workflow.edges two_roots)
     = Some ["A"%string; "B"%string]
  /\ _topological_sort ["B"%string; "A"%string] (Workflow.edges two_roots)
     = Some ["B"%string; "A"%string]
  /\ summary (run_it reversed two_roots)
     = Some (RunCompleted, None,
             [("id-B"%string, NodeCompleted, Some "B"%string);
              ("id-A"%string, NodeCompleted, Some "A"%string)]).
Proof. repeat split; vm_compute; reflexivity. Qed.

(** C4 (witness): three keys iterated as B, A, C and the edge [A -> C]. *)
Lemma sort_is_fifo_witness :
  NoDup ["B"%string; "A"%string; "C"%string]
  /\ (exists sorted tail,
        _topological_sort ["B"%string; "A"%string; "C"%string] [arrow "A" "C"] = Some sorted
        /\ sorted = roots ["B"%string; "A"%string; "C"%string] [arrow "A" "C"] ++ tail)
  /\ (forall fuel adjacency in_degree queue sorted_nodes r,
        drain fuel adjacency in_degree queue sorted_nodes = Some r ->
        exists tail, r = sorted_nodes ++ queue ++ tail).
Proof.
  assert (Hnd : NoDup ["B"%string; "A"%string; "C"%string]).
  { apply (bool_decide_unpack _). vm_compute. exact I. }
  split; [exact Hnd|].
  exact (sort_is_fifo ["B"%string; "A"%string; "C"%string] [arrow "A" "C"] Hnd).
Defined.

Example fifo_order :
  _topological_sort ["B"%string; "A"%string; "C"%string] [arrow "A" "C"]
  = Some ["B"%string; "A"%string; "C"%string].
Proof. vm_compute. reflexivity. Qed.

End ExecutorClaims.

(** ** The poller *)

Module PollerClaims.
Import Py GmailPoller Vocabulary.
Local Open Scope list_scope.

(** C9 (as amended): a poll made while no [last_check] is recorded for the
    integration fetches up to 10 unread messages, a poll made when one is
    recorded fetches up to 50 messages with [after:{last_check}]. When the
    fetch returns, [last_check] is set to now before the messages are
    handed on, whatever becomes of them, and the next poll uses that time
    as its window. When the credentials or the fetch fail, [last_check] is
    left as it was. *)
Theorem poll_window (w : world) (integration_key : string) (last_check : gmap string Z) :
  let r := _poll_integration w integration_key last_check in
  let query := fst (window last_check integration_key) in
  let max_results := snd (window last_check integration_key) in
  (last_check !! integration_key = None -> query = "is:unread"%string /\ max_results = 10%nat)
  /\ (forall t, last_check !! integration_key = Some t ->
        query = ("after:" ++ string_of_Z t)%string /\ max_results = 50%nat)
  /\ (forall e, credentials w = Raise e -> r = (last_check, [], Raise e))
  /\ (forall u e,
        credentials w = Ret u -> list_messages w query max_results = Raise e ->
        r = (last_check, [Fetched query max_results], Raise e))
  /\ (forall u messages,
        credentials w = Ret u -> list_messages w query max_results = Ret messages ->
        fst (fst r) = <[integration_key := utcnow w]> last_check
        /\ snd (fst r)
           = [Fetched query max_results; LastCheckSet integration_key (utcnow w)]
             ++ match messages with [] => [] | _ => [Triggered messages] end
        /\ forall w' u',
             credentials w' = Ret u' ->
             exists rest,
               snd (fst (_poll_integration w' integration_key (fst (fst r))))
               = Fetched ("after:" ++ string_of_Z (utcnow w))%string 50 :: rest).
Proof.
  intros r query max_results. subst r query max_results.
  unfold _poll_integration, window, GmailService.get_messages_since,
    GmailService.get_unread_messages.
  split; [intros ->; auto|]. split; [intros t ->; auto|].
  split; [intros e ->; reflexivity|]. split.
  - intros u e -> H.
    destruct (last_check !! integration_key); cbn [fst snd] in *; rewrite H; reflexivity.
  - intros u messages -> H.
    assert (Hnext : forall w' u', credentials w' = Ret u' ->
              exists rest,
                snd (fst (_poll_integration w' integration_key
                            (<[integration_key := utcnow w]> last_check)))
                = Fetched ("after:" ++ string_of_Z (utcnow w))%string 50 :: rest).
    { intros w' u' Hc. unfold _poll_integration, GmailService.get_messages_since.
      rewrite Hc, lookup_insert_eq.
      destruct (list_messages w' _ _) as [[|m ms]|e']; cbn [fst snd]; eauto.
      destruct (_trigger_workflows w' _); cbn [fst snd app]; eauto. }
    destruct (last_check !! integration_key); cbn [fst snd] in *; rewrite H;
      destruct messages as [|m ms]; cbn [fst snd app];
      try (destruct (_trigger_workflows w _); cbn [fst snd app]); auto.
Qed.

(** C9 (counterexample): the first poll after process start meets a failing
    fetch; the poll after it is a subsequent poll, yet it fetches up to 10
    unread messages again, not up to 50 with [after:]. *)
Lemma second_poll_unread_again :
  snd (polls [down; up 2000 (Ret tt)] "int-1" ∅)
  = [[Fetched "is:unread" 10];
     [Fetched "is:unread" 10; LastCheckSet "int-1" 2000;
      Triggered [VDict [("message_id"%string, VStr "m1")]]]].
Proof. reflexivity. Qed.

(** C9 (witness): a first poll whose fetch returns one message and whose
    processing fails. *)
Lemma poll_window_witness :
  let r := _poll_integration (up 2000 (Raise (OtherError "database gone"))) "int-1" ∅ in
  fst (fst r) = <["int-1"%string := 2000]> (∅ : gmap string Z)
  /\ snd (fst r)
     = [Fetched "is:unread" 10; LastCheckSet "int-1" 2000;
        Triggered [VDict [("message_id"%string, VStr "m1")]]].
Proof.
  destruct (proj2 (proj2 (proj2 (proj2
              (poll_window (up 2000 (Raise (OtherError "database gone"))) "int-1" ∅))))
              tt [VDict [("message_id"%string, VStr "m1")]] eq_refl eq_refl)
    as (H1 & H2 & _).
  split; [exact H1|exact H2].
Defined.

(** Processing that fails does not hold the window back: the next poll asks
    for the messages after the time of the failed one. *)
Example window_advances_past_failure :
  snd (polls [up 2000 (Raise (OtherError "database gone")); up 2060 (Ret tt)] "int-1" ∅)
  = [[Fetched "is:unread" 10; LastCheckSet "int-1" 2000;
      Triggered [VDict [("message_id"%string, VStr "m1")]]];
     [Fetched "after:2000" 50; LastCheckSet "int-1" 2060;
      Triggered [VDict [("message_id"%string, VStr "m1")]]]].
Proof. reflexivity. Qed.

End PollerClaims.

(** ** The node handlers *)

(** *** What [clean] leaves in a body *)

Module CleanFacts.
Import Py Re Handlers Vocabulary.

Lemma blank_app (g s : string) : (blank g ++ s)%string = String " " s.
Proof. reflexivity. Qed.

Lemma until_gt_none (s : string) : has_gt s = false -> until_gt s = None.
Proof.
  unfold has_gt. induction s as [|c r IH]; cbn [has_char until_gt]; [reflexivity|].
  rewrite Ascii.eqb_sym. destruct (Ascii.eqb c ">"); cbn [orb]; [discriminate|].
  intros H. rewrite (IH H). reflexivity.
Qed.

Lemma until_gt_some (s : string) : has_gt s = true -> exists n, until_gt s = Some n.
Proof.
  unfold has_gt. induction s as [|c r IH]; cbn [has_char until_gt]; [discriminate|].
  rewrite Ascii.eqb_sym. destruct (Ascii.eqb c ">"); cbn [orb]; [eauto|].
  intros H. destruct (IH H) as [n ->]. cbn. eauto.
Qed.

Lemma starts_tag_spec (c : ascii) (r : string) :
  starts_tag (String c r)
  = Ascii.eqb c "<"
    && match r with
       | String c' r' => negb (Ascii.eqb c' ">") && has_gt r'
       | EmptyString => false
       end.
Proof.
  unfold starts_tag. destruct (Ascii.eqb_spec c "<") as [->|Hne].
  - cbn [tag_at andb]. destruct r as [|c' r']; cbn [until_gt]; [reflexivity|].
    destruct (Ascii.eqb c' ">"); cbn [negb andb]; [reflexivity|].
    destruct (has_gt r') eqn:Hg.
    + destruct (until_gt_some r' Hg) as [n ->]. reflexivity.
    + rewrite (until_gt_none r' Hg). reflexivity.
  - cbn [andb].
    destruct c as [[] [] [] [] [] [] [] []]; try reflexivity.
    exfalso. apply Hne. reflexivity.
Qed.

(** Substituting blanks brings no [>] into a string. *)
Lemma has_gt_sub (m : matcher) (s : string) :
  forall k, has_gt (sub_from m blank k s) = true -> has_gt s = true.
Proof.
  unfold has_gt.
  induction s as [|c r IH]; intros k; cbn [sub_from]; [intros H; exact H|].
  cbn [has_char]. destruct k as [|k].
  - destruct (m (String c r)) as [[g len]|].
    + rewrite blank_app. cbn [has_char].
      intros H. apply orb_true_iff in H as [H|H]; [discriminate H|].
      rewrite (IH _ H). apply orb_true_r.
    + cbn [has_char]. destruct (Ascii.eqb ">" c); [reflexivity|]. cbn [orb]. apply IH.
  - intros H. rewrite (IH _ H). apply orb_true_r.
Qed.

Lemma has_tag_blank (s : string) : has_tag (String " " s) = has_tag s.
Proof. cbn [has_tag]. rewrite starts_tag_spec. reflexivity. Qed.

(** After the tag substitution no tag is left. *)
Lemma tag_sub_no_tag (s : string) :
  forall k, has_tag (sub_from tag_at blank k s) = false.
Proof.
  induction s as [|c r IH]; intros k; cbn [sub_from]; [reflexivity|].
  destruct k as [|k]; [|apply IH].
  destruct (tag_at (String c r)) as [[g len]|] eqn:E.
  - rewrite blank_app, has_tag_blank. apply IH.
  - cbn [has_tag]. rewrite IH, orb_false_r, starts_tag_spec.
    assert (Hs : starts_tag (String c r) = false) by (unfold starts_tag; rewrite E; reflexivity).
    rewrite starts_tag_spec in Hs.
    destruct (Ascii.eqb c "<"); [|reflexivity]. cbn [andb] in *.
    destruct r as [|c' r']; [reflexivity|]. cbn [sub_from].
    destruct (tag_at (String c' r')) as [[g' len']|] eqn:E'.
    + rewrite blank_app.
      assert (Hc : Ascii.eqb c' ">" = false).
      { destruct (Ascii.eqb_spec c' ">") as [->|]; [discriminate E'|reflexivity]. }
      rewrite Hc in Hs. cbn [negb andb] in Hs. cbn [Ascii.eqb negb andb].
      destruct (has_gt (sub_from tag_at blank (Nat.pred len') r')) eqn:Hg; [|reflexivity].
      apply has_gt_sub in Hg. congruence.
    + destruct (Ascii.eqb c' ">"); [reflexivity|]. cbn [negb andb] in *.
      destruct (has_gt (sub_from tag_at blank 0 r')) eqn:Hg; [|reflexivity].
      apply has_gt_sub in Hg. congruence.
Qed.

Lemma spaces_at_cons (c : ascii) (r : string) :
  spaces_at (String c r)
  = if is_space c
    then Some (substring 0 (S (space_run r)) (String c r), S (space_run r))
    else None.
Proof. unfold spaces_at. cbn [space_run]. destruct (is_space c); reflexivity. Qed.

(** Collapsing white space makes no tag. *)
Lemma space_sub_tag (s : string) :
  forall k, has_tag (sub_from spaces_at blank k s) = true -> has_tag s = true.
Proof.
  induction s as [|c r IH]; intros k; cbn [sub_from]; [intros H; exact H|].
  destruct k as [|k].
  - rewrite spaces_at_cons. destruct (is_space c) eqn:Ec.
    + rewrite blank_app, has_tag_blank. cbn [Nat.pred].
      intros H. cbn [has_tag]. rewrite (IH _ H). apply orb_true_r.
    + cbn [has_tag]. intros H. apply orb_true_iff in H as [H|H];
        [|rewrite (IH _ H); apply orb_true_r].
      apply orb_true_iff. left.
      rewrite starts_tag_spec in *. apply andb_true_iff in H as [Hc H]. rewrite Hc.
      cbn [andb]. destruct r as [|c' r']; [discriminate H|].
      cbn [sub_from] in H. rewrite spaces_at_cons in H.
      destruct (is_space c') eqn:Ec'.
      * rewrite blank_app in H. cbn [Nat.pred] in H.
        apply andb_true_iff in H as [_ Hg]. apply has_gt_sub in Hg. rewrite Hg.
        destruct (Ascii.eqb_spec c' ">") as [->|]; [discriminate Ec'|reflexivity].
      * apply andb_true_iff in H as [Hd Hg]. apply has_gt_sub in Hg.
        rewrite Hd, Hg. reflexivity.
  - intros H. cbn [has_tag]. rewrite (IH _ H). apply orb_true_r.
Qed.

Lemma has_tag_lstrip (s : string) : has_tag (lstrip s) = true -> has_tag s = true.
Proof.
  induction s as [|c r IH]; cbn [lstrip]; [intros H; exact H|].
  destruct (is_space c); [|intros H; exact H].
  intros H. cbn [has_tag]. rewrite (IH H). apply orb_true_r.
Qed.

(** A non-empty [rstrip] keeps the first character; what follows it is the
    [rstrip] of what followed. *)
Lemma rstrip_cons (c : ascii) (r : string) :
  rstrip (String c r) = EmptyString
  \/ rstrip (String c r) = String c (rstrip r).
Proof.
  cbn [rstrip]. destruct (rstrip r); [|right; reflexivity].
  destruct (is_space c); [left|right]; reflexivity.
Qed.

Lemma has_gt_rstrip (s : string) : has_gt (rstrip s) = true -> has_gt s = true.
Proof.
  unfold has_gt. induction s as [|c r IH]; [intros H; exact H|].
  destruct (rstrip_cons c r) as [->| ->]; [discriminate|].
  cbn [has_char]. destruct (Ascii.eqb ">" c); [reflexivity|]. exact IH.
Qed.

Lemma has_tag_rstrip (s : string) : has_tag (rstrip s) = true -> has_tag s = true.
Proof.
  induction s as [|c r IH]; [intros H; exact H|].
  destruct (rstrip_cons c r) as [->| ->]; [discriminate|].
  cbn [has_tag]. intros H. apply orb_true_iff in H as [H|H];
    [|rewrite (IH H); apply orb_true_r].
  apply orb_true_iff. left. rewrite starts_tag_spec in *.
  apply andb_true_iff in H as [Hc H]. rewrite Hc. cbn [andb].
  destruct r as [|c' r']; [discriminate H|].
  destruct (rstrip_cons c' r') as [E|E]; rewrite E in H; [discriminate H|].
  apply andb_true_iff in H as [Hd Hg]. apply has_gt_rstrip in Hg.
  rewrite Hd, Hg. reflexivity.
Qed.

(** [clean] leaves no tag. *)
Lemma clean_no_tag (body : string) : has_tag (clean body) = false.
Proof.
  unfold clean, strip, SPACE_SUB, TAG_SUB, re_sub.
  destruct (has_tag _) eqn:H; [|reflexivity].
  apply has_tag_rstrip, has_tag_lstrip, space_sub_tag in H.
  fold blank in H. rewrite tag_sub_no_tag in H. discriminate.
Qed.

(** After a skipped run of white space the output starts with something
    else. *)
Lemma head_after_run (r : string) :
  head_space (sub_from spaces_at blank (space_run r) r) = false.
Proof.
  induction r as [|c r IH]; [reflexivity|].
  cbn [space_run]. destruct (is_space c) eqn:Ec; cbn [sub_from]; [exact IH|].
  rewrite spaces_at_cons, Ec. cbn [head_space]. exact Ec.
Qed.

Lemma space_sub_spaced (s : string) :
  forall k, spaced (sub_from spaces_at blank k s) = true.
Proof.
  induction s as [|c r IH]; intros k; cbn [sub_from]; [reflexivity|].
  destruct k as [|k]; [|apply IH].
  rewrite spaces_at_cons. destruct (is_space c) eqn:Ec.
  - rewrite blank_app. cbn [Nat.pred spaced].
    rewrite head_after_run, IH. reflexivity.
  - cbn [spaced]. rewrite Ec, IH. reflexivity.
Qed.

Lemma lstrip_spaced (s : string) :
  spaced s = true -> spaced (lstrip s) = true /\ head_space (lstrip s) = false.
Proof.
  induction s as [|c r IH]; cbn [lstrip]; [auto|].
  destruct (is_space c) eqn:Ec.
  - intros H. cbn [spaced] in H. apply andb_true_iff in H as [_ H]. auto.
  - intros H. split; [exact H|exact Ec].
Qed.

Lemma head_space_rstrip (s : string) :
  head_space s = false -> head_space (rstrip s) = false.
Proof.
  destruct s as [|c r]; [auto|].
  destruct (rstrip_cons c r) as [->| ->]; auto.
Qed.

Lemma rstrip_tidy (s : string) : spaced s = true -> tidy (rstrip s) = true.
Proof.
  induction s as [|c r IH]; [reflexivity|].
  cbn [spaced]. intros H. apply andb_true_iff in H as [Hc Hr].
  specialize (IH Hr). cbn [rstrip].
  destruct (rstrip r) as [|d r''] eqn:E.
  - destruct (is_space c) eqn:Ec; [reflexivity|]. cbn [tidy]. rewrite Ec. reflexivity.
  - assert (Ht : tidy (String c (String d r''))
                 = (if is_space c then Ascii.eqb c " " && negb (is_space d) else true)
                   && tidy (String d r'')) by reflexivity.
    rewrite Ht, IH, andb_true_r.
    destruct (is_space c); [|reflexivity].
    apply andb_true_iff in Hc as [Hb Hh]. rewrite Hb. cbn [andb].
    destruct r as [|c' r']; [discriminate E|].
    destruct (rstrip_cons c' r') as [E'|E']; rewrite E' in E; [discriminate E|].
    injection E as <- _. exact Hh.
Qed.

(** [clean] leaves white space collapsed and both ends stripped. *)
Lemma clean_collapsed (body : string) : collapsed (clean body) = true.
Proof.
  unfold clean, strip, SPACE_SUB, re_sub, collapsed.
  destruct (lstrip_spaced _ (space_sub_spaced (TAG_SUB body) O)) as [Hs Hh].
  fold blank. rewrite (head_space_rstrip _ Hh), (rstrip_tidy _ Hs). reflexivity.
Qed.

(** A body without tags whose white space is already collapsed is left as
    it is. *)
Lemma tag_sub_id (s : string) : has_tag s = false -> sub_from tag_at blank O s = s.
Proof.
  induction s as [|c r IH]; [reflexivity|].
  cbn [has_tag sub_from]. intros H. apply orb_false_iff in H as [Hs Hr].
  unfold starts_tag in Hs. destruct (tag_at (String c r)); [discriminate Hs|].
  rewrite (IH Hr). reflexivity.
Qed.

Lemma space_sub_id (s : string) : tidy s = true -> sub_from spaces_at blank O s = s.
Proof.
  induction s as [|c r IH]; [reflexivity|].
  cbn [tidy sub_from]. intros H. apply andb_true_iff in H as [Hc Hr].
  rewrite spaces_at_cons. destruct (is_space c); [|rewrite (IH Hr); reflexivity].
  apply andb_true_iff in Hc as [Hb Hn]. apply Ascii.eqb_eq in Hb as ->.
  destruct r as [|c' r']; [discriminate Hn|].
  rewrite blank_app. cbn [space_run Nat.pred].
  apply negb_true_iff in Hn. rewrite Hn, (IH Hr). reflexivity.
Qed.

Lemma rstrip_id (s : string) : tidy s = true -> rstrip s = s.
Proof.
  induction s as [|c r IH]; [reflexivity|].
  cbn [tidy rstrip]. intros H. apply andb_true_iff in H as [Hc Hr].
  rewrite (IH Hr). destruct r as [|c' r']; [|reflexivity].
  destruct (is_space c); [|reflexivity].
  apply andb_true_iff in Hc as [_ Hn]. discriminate Hn.
Qed.

Lemma clean_fixed (s : string) :
  has_tag s = false -> collapsed s = true -> clean s = s.
Proof.
  unfold collapsed, clean, strip, SPACE_SUB, TAG_SUB, re_sub. intros Ht Hc.
  apply andb_true_iff in Hc as [Hh Hc]. apply negb_true_iff in Hh.
  fold blank. rewrite (tag_sub_id s Ht), (space_sub_id s Hc).
  destruct s as [|c r]; [reflexivity|].
  cbn [head_space] in Hh. cbn [lstrip]. rewrite Hh. apply rstrip_id, Hc.
Qed.

End CleanFacts.

(** ** The cleaned body in terms of the body's text *)

Module CleanText.
Import Py Re Handlers Vocabulary CleanFacts CleanVocabulary.
Local Open Scope list_scope.

Local Abbreviation collapse := (sub_from spaces_at blank O).
Local Abbreviation untag := (sub_from tag_at blank O).

Lemma collapse_space (c : ascii) (r : string) :
  is_space c = true ->
  collapse (String c r) = if head_space r then collapse r else String " " (collapse r).
Proof.
  intros Hc. cbn [sub_from]. rewrite spaces_at_cons, Hc, blank_app. cbn [Nat.pred].
  destruct r as [|c' r']; [reflexivity|]. cbn [head_space space_run].
  destruct (is_space c') eqn:Ec'.
  - cbn [sub_from]. rewrite spaces_at_cons, Ec', blank_app. reflexivity.
  - reflexivity.
Qed.

Lemma collapse_char (c : ascii) (r : string) :
  is_space c = false -> collapse (String c r) = String c (collapse r).
Proof. intros Hc. cbn [sub_from]. rewrite spaces_at_cons, Hc. reflexivity. Qed.

Lemma rstrip_step (c : ascii) (r : string) :
  rstrip (String c r)
  = match rstrip r with
    | EmptyString => if is_space c then EmptyString else String c EmptyString
    | r' => String c r'
    end.
Proof. reflexivity. Qed.

Lemma words_step (c : ascii) (r : string) :
  words (String c r)
  = if is_space c then words r
    else match r with
         | EmptyString => [String c EmptyString]
         | String c' _ =>
             if is_space c' then String c EmptyString :: words r
             else cons_word c (words r)
         end.
Proof. reflexivity. Qed.

Lemma join_cons (w : string) (ws : list string) :
  join " " (w :: ws)
  = match ws with [] => w | _ => (w ++ String " " (join " " ws))%string end.
Proof. destruct ws; reflexivity. Qed.

(** A text that does not begin with white space and is not empty has a
    first word. *)
Lemma words_head (s : string) :
  match s with
  | EmptyString => True
  | String c _ => is_space c = false -> exists w ws, words s = String c w :: ws
  end.
Proof.
  induction s as [|c r IH]; [exact I|]. intros Hc. rewrite words_step, Hc.
  destruct r as [|c' r']; [eauto|].
  destruct (is_space c') eqn:Ec'; [eauto|].
  destruct (IH eq_refl) as (w & ws & ->). cbn [cons_word]. eauto.
Qed.

(** The collapsed text without its trailing white space is the words
    joined by single blanks, after one blank when the text begins with
    white space. *)
Lemma rstrip_collapse (s : string) :
  rstrip (collapse s)
  = match words s with
    | [] => EmptyString
    | ws => ((if head_space s then " " else "") ++ join " " ws)%string
    end.
Proof.
  induction s as [|c r IH]; [reflexivity|].
  rewrite words_step. cbn [head_space]. destruct (is_space c) eqn:Ec.
  - rewrite (collapse_space c r Ec).
    destruct r as [|c' r']; [reflexivity|]. cbn [head_space] in *.
    destruct (is_space c') eqn:Ec'.
    + rewrite IH. reflexivity.
    + rewrite rstrip_step, IH.
      destruct (words_head (String c' r') Ec') as (w & ws & ->). destruct ws; reflexivity.
  - rewrite (collapse_char c r Ec), rstrip_step, IH.
    destruct r as [|c' r']; [cbn; rewrite Ec; reflexivity|].
    cbn [head_space]. destruct (is_space c') eqn:Ec'.
    + destruct (words (String c' r')) as [|w ws] eqn:Ew; [cbn; rewrite Ec; reflexivity|].
      rewrite (join_cons (String c EmptyString)). reflexivity.
    + destruct (words_head (String c' r') Ec') as (w & ws & ->).
      cbn [cons_word]. rewrite !join_cons. destruct ws; reflexivity.
Qed.

Lemma collapse_head (s : string) : head_space s = false -> head_space (collapse s) = false.
Proof.
  destruct s as [|c r]; [reflexivity|]. cbn [head_space]. intros Hc.
  rewrite (collapse_char c r Hc). exact Hc.
Qed.

Lemma lstrip_head (s : string) : head_space s = false -> lstrip s = s.
Proof. destruct s as [|c r]; [reflexivity|]. cbn [head_space lstrip]. intros ->. reflexivity. Qed.

(** [re.sub(r"\s+", " ", s).strip()] is [" ".join(s.split())]. *)
Lemma strip_collapse (s : string) : strip (SPACE_SUB s) = join " " (words s).
Proof.
  unfold strip, SPACE_SUB, re_sub. fold blank.
  pose proof (rstrip_collapse s) as H.
  destruct (head_space s) eqn:Eh.
  - destruct s as [|c r]; [discriminate Eh|]. cbn [head_space] in Eh.
    assert (Hc : collapse (String c r)
                 = String " " (sub_from spaces_at blank (space_run r) r)).
    { cbn [sub_from]. rewrite spaces_at_cons, Eh, blank_app. reflexivity. }
    rewrite Hc in H |- *.
    assert (Hl : lstrip (String " " (sub_from spaces_at blank (space_run r) r))
                 = sub_from spaces_at blank (space_run r) r).
    { change (lstrip (String " " ?x)) with (lstrip x).
      apply lstrip_head, head_after_run. }
    rewrite Hl. rewrite rstrip_step in H.
    destruct (rstrip (sub_from spaces_at blank (space_run r) r)) as [|d t];
      destruct (words (String c r)) as [|w ws]; cbn in H; try discriminate H;
      [reflexivity|].
    injection H as H. exact H.
  - rewrite (lstrip_head _ (collapse_head s Eh)), H.
    destruct (words s); reflexivity.
Qed.

(** *** Tags *)

Lemma tag_at_other (c : ascii) (r : string) :
  Ascii.eqb c "<" = false -> tag_at (String c r) = None.
Proof.
  intros Hc. pose proof (starts_tag_spec c r) as H. rewrite Hc in H.
  unfold starts_tag in H. destruct (tag_at (String c r)); [discriminate H|reflexivity].
Qed.

Lemma untag_prefix (pre s : string) :
  has_char "<" pre = false -> untag (pre ++ s) = (pre ++ untag s)%string.
Proof.
  induction pre as [|c pre IH]; [reflexivity|].
  cbn [has_char]. intros H. apply orb_false_iff in H as [Hc Hpre].
  change (String c pre ++ s)%string with (String c (pre ++ s)).
  change (String c pre ++ untag s)%string with (String c (pre ++ untag s)).
  cbn [sub_from]. rewrite tag_at_other by (rewrite Ascii.eqb_sym; exact Hc).
  rewrite (IH Hpre). reflexivity.
Qed.

Lemma until_gt_inner (inner rest : string) :
  has_gt inner = false ->
  until_gt (inner ++ String ">" rest) = Some (String.length inner).
Proof.
  unfold has_gt. induction inner as [|c inner IH]; [reflexivity|].
  cbn [has_char]. intros H. apply orb_false_iff in H as [Hc Hin].
  change (String c inner ++ String ">" rest)%string
    with (String c (inner ++ String ">" rest)).
  cbn [until_gt String.length]. rewrite Ascii.eqb_sym, Hc, (IH Hin). reflexivity.
Qed.

Lemma sub_skip (m : matcher) (repl : string -> string) (x rest : string) :
  sub_from m repl (String.length x) (x ++ rest) = sub_from m repl O rest.
Proof.
  induction x as [|c x IH]; [destruct rest; reflexivity|].
  change (String c x ++ rest)%string with (String c (x ++ rest)).
  cbn [String.length sub_from]. exact IH.
Qed.

(** The leftmost tag of a text whose part before it holds no [<]. *)
Lemma untag_first (pre inner rest : string) :
  has_char "<" pre = false -> inner <> EmptyString -> has_gt inner = false ->
  untag (pre ++ String "<" (inner ++ String ">" rest))
  = (pre ++ String " " (untag rest))%string.
Proof.
  intros Hpre Hne Hin. rewrite (untag_prefix _ _ Hpre). f_equal.
  destruct inner as [|c inner]; [contradiction|].
  cbn [sub_from]. unfold tag_at at 1.
  rewrite (until_gt_inner (String c inner) rest Hin).
  cbn [String.length]. rewrite blank_app. f_equal.
  assert (Hlen : Nat.pred (S (String.length inner) + 2)
                 = String.length (String c inner ++ ">")%string).
  { rewrite ExpressionFacts.length_append. cbn [String.length Nat.pred Nat.add]. lia. }
  assert (Happ : (String c inner ++ String ">" rest
                  = (String c inner ++ ">") ++ rest)%string).
  { generalize (String c inner). intros x. induction x as [|d x IH]; [reflexivity|].
    change (String d x ++ String ">" rest)%string with (String d (x ++ String ">" rest)).
    rewrite IH. reflexivity. }
  rewrite Hlen, Happ. apply sub_skip.
Qed.

End CleanText.

Module HandlerClaims.
Import Py Re Handlers Vocabulary CleanFacts CleanVocabulary.
Local Open Scope list_scope.

(** C7 (as amended): the handler always returns an output whose
    [clean_body] is the body with each tag-like substring replaced by a
    blank, white space collapsed and both ends stripped: it is the words of
    the untagged body joined by single blanks. The untagged body is the
    body itself when it has no tag; otherwise its leftmost tag
    [<inner>] (with nothing but the text before it in front) becomes one
    blank and the rest is treated the same way. The result holds no
    tag-like substring, its white space is single blanks between other
    characters, and a body that is already so is unchanged.
    [combined_text] is ["Subject: {subject}\n\nBody:\n{clean_body}"], followed
    exactly when there is an attachment text by ["\n\nAttachments:\n"] and the
    attachment texts joined by ["\n\n"]. *)
Theorem extract_content_output
    (b64_utf8 : value -> pyres string) (data context : list (string * value)) :
  let subject := py_str (dict_get data "subject" (VStr "")) in
  let body := py_str (dict_get data "body" (VStr "")) in
  let texts := attachment_texts b64_utf8 (dict_get data "attachments" (VList [])) in
  let head := ("Subject: " ++ subject ++ nl ++ nl ++ "Body:" ++ nl ++ clean body)%string in
  exists out combined,
    ExtractContentNodeHandler b64_utf8 data context = Ret (VDict [("output", VDict out)])
    /\ dict_find out "clean_body" = Some (VStr (clean body))
    /\ has_tag (clean body) = false
    /\ collapsed (clean body) = true
    /\ clean (clean body) = clean body
    /\ dict_find out "attachment_texts" = Some (VList (map VStr texts))
    /\ dict_find out "combined_text" = Some (VStr combined)
    /\ (texts = [] -> combined = head)
    /\ (texts <> [] ->
        combined
        = (head ++ (nl ++ nl ++ "Attachments:" ++ nl) ++ join (nl ++ nl) texts)%string)
    /\ clean body = join " " (words (TAG_SUB body))
    /\ (has_tag body = false -> TAG_SUB body = body)
    /\ (forall pre inner rest,
          body = (pre ++ String "<" (inner ++ String ">" rest))%string ->
          has_char "<" pre = false -> inner <> EmptyString -> has_gt inner = false ->
          TAG_SUB body = (pre ++ String " " (TAG_SUB rest))%string).
Proof.
  intros subject body texts head.
  eexists _, _. split; [reflexivity|]. cbn [dict_find String.eqb Ascii.eqb Bool.eqb].
  split; [reflexivity|]. split; [apply clean_no_tag|]. split; [apply clean_collapsed|].
  split; [apply clean_fixed; [apply clean_no_tag|apply clean_collapsed]|].
  split; [reflexivity|]. split; [reflexivity|].
  fold subject body texts. unfold combined_text. fold head.
  split; [intros ->; reflexivity|].
  split; [intros Hne; destruct texts; [congruence|reflexivity]|].
  split; [apply CleanText.strip_collapse|].
  split; [intros Ht; apply (tag_sub_id body Ht)|].
  intros pre inner rest -> Hpre Hne Hin. apply CleanText.untag_first; assumption.
Qed.

(** C7 (counterexample): the tag of [a<b>c] leaves a blank behind, where
    taking the tag out would give [ac]. *)
Lemma tag_leaves_a_blank :
  ExtractContentNodeHandler (fun _ => Raise (OtherError "no decoder"))
    [("subject", VStr "Hi"); ("body", VStr "a<b>c")] []
  = Ret (VDict [("output", VDict [
      ("subject", VStr "Hi");
      ("clean_body", VStr "a c");
      ("attachment_count", VInt 0);
      ("attachment_texts", VList []);
      ("combined_text", VStr ("Subject: Hi" ++ nl ++ nl ++ "Body:" ++ nl ++ "a c")%string)])])
  /\ stripped_and_collapsed "a<b>c" = "ac"%string
  /\ String.eqb "a c" (stripped_and_collapsed "a<b>c") = false.
Proof. repeat split; reflexivity. Qed.

(** C7 (witness): scenario S1, a body with tags and no attachment. *)
Lemma extract_content_output_witness :
  exists out combined,
    ExtractContentNodeHandler (fun _ => Raise (OtherError "no decoder"))
      [("subject", VStr "Hi"); ("body", VStr "<p>Hello</p>"); ("attachments", VList [])] []
    = Ret (VDict [("output", VDict out)])
    /\ dict_find out "combined_text" = Some (VStr combined)
    /\ combined = ("Subject: Hi" ++ nl ++ nl ++ "Body:" ++ nl ++ "Hello")%string.
Proof.
  destruct (extract_content_output (fun _ => Raise (OtherError "no decoder"))
              [("subject", VStr "Hi"); ("body", VStr "<p>Hello</p>"); ("attachments", VList [])]
              [])
    as (out & combined & H1 & _ & _ & _ & _ & _ & H7 & H8 & _).
  exists out, combined. split; [exact H1|]. split; [exact H7|].
  apply H8. reflexivity.
Defined.

(** Scenario S1: the body [<p>Hello</p>] with no attachments. *)
Example extract_hello :
  ExtractContentNodeHandler (fun _ => Raise (OtherError "no decoder"))
    [("subject", VStr "Hi"); ("body", VStr "<p>Hello</p>"); ("attachments", VList [])] []
  = Ret (VDict [("output", VDict [
      ("subject", VStr "Hi");
      ("clean_body", VStr "Hello");
      ("attachment_count", VInt 0);
      ("attachment_texts", VList []);
      ("combined_text", VStr ("Subject: Hi" ++ nl ++ nl ++ "Body:" ++ nl ++ "Hello")%string)])]).
Proof. reflexivity. Qed.

(** Two attachments, one without content. *)
Example extract_attachments :
  ExtractContentNodeHandler (fun _ => Ret "decoded"%string)
    [("subject", VStr "Hi"); ("body", VStr "a <b>bold</b>  move");
     ("attachments", VList [VDict [("filename", VStr "f.txt"); ("content", VStr "ZGVjb2RlZA==")];
                            VDict [("name", VStr "g.bin")]])] []
  = Ret (VDict [("output", VDict [
      ("subject", VStr "Hi");
      ("clean_body", VStr "a bold move");
      ("attachment_count", VInt 2);
      ("attachment_texts",
         VList [VStr ("[Attachment: f.txt]" ++ nl ++ "decoded")%string;
                VStr "[Attachment: g.bin]"]);
      ("combined_text",
         VStr ("Subject: Hi" ++ nl ++ nl ++ "Body:" ++ nl ++ "a bold move"
               ++ nl ++ nl ++ "Attachments:" ++ nl
               ++ "[Attachment: f.txt]" ++ nl ++ "decoded"
               ++ nl ++ nl ++ "[Attachment: g.bin]")%string)])]).
Proof. reflexivity. Qed.

(** C8 (as amended): a non-empty list in [row_values] is sent with each
    element stringified; a string that parses as a non-empty JSON array is
    sent as that array, stringified; a string that does not parse as JSON is
    sent as the single-element row holding the string; and when
    [row_values] is missing, null, an empty list or a string that parses to
    an empty array, the row is assembled from the seven [col_*] fields in
    their fixed order. The row of the request is this row. *)
Theorem row_construction
    (json_loads : string -> pyres value) (data : list (string * value)) :
  let v := dict_get data "row_values" (VList []) in
  let row := row_values json_loads data in
  (forall l, v = VList l -> l <> [] -> row = Ret (map py_str l))
  /\ (forall s l, v = VStr s -> json_loads s = Ret (VList l) -> l <> [] ->
        row = Ret (map py_str l))
  /\ (forall s e, v = VStr s -> json_loads s = Raise e -> row = Ret [s])
  /\ (dict_find data "row_values" = None \/ v = VNone \/ v = VList []
      \/ (exists s, v = VStr s /\ json_loads s = Ret (VList [])) ->
      row = Ret (column_row data))
  /\ column_row data
     = [py_str (dict_get data "col_subject" (VStr ""));
        py_str (dict_get data "col_sender" (VStr ""));
        py_str (dict_get data "col_summary" (VStr ""));
        py_str (dict_get data "col_category" (VStr ""));
        py_str (dict_get data "col_sentiment" (VStr ""));
        py_str (dict_get data "col_action_items" (VStr ""));
        py_str (dict_get data "col_received_at" (VStr ""))]
  /\ (forall req, prepare json_loads data = Ret req -> row = Ret (values req)).
Proof.
  intros v row.
  assert (Hreq : forall req, prepare json_loads data = Ret req -> row = Ret (values req)).
  { intros req. subst row. unfold prepare, mbind, pyres_bind, bind.
    repeat match goal with
           | |- context [strip_of ?x] => destruct (strip_of x)
           end; try discriminate.
    destruct (String.eqb _ ""); [discriminate|].
    destruct (row_values json_loads data); [|discriminate].
    destruct (_ && _); [discriminate|]. intros [= <-]. reflexivity. }
  subst v row. unfold row_values.
  split; [|split; [|split; [|split; [|split]]]]; [| | | | |exact Hreq].
  - intros l -> Hne. destruct l; [congruence|reflexivity].
  - intros s l -> -> Hne. destruct l; [congruence|reflexivity].
  - intros s e -> ->. reflexivity.
  - intros [H|[H|[H|(s & H & Hs)]]].
    + unfold dict_get. rewrite H. reflexivity.
    + rewrite H. reflexivity.
    + rewrite H. reflexivity.
    + rewrite H, Hs. reflexivity.
  - reflexivity.
Qed.

(** C8 (counterexample): [row_values] is a list, the empty one, and the row
    sent is not that list stringified but the seven [col_*] fields. *)
Lemma empty_list_uses_columns :
  row_values loads [("row_values", VList []); ("col_subject", VStr "Hi");
                    ("col_sender", VStr "a@x")]
  = Ret ["Hi"; "a@x"; ""; ""; ""; ""; ""]%string.
Proof. reflexivity. Qed.

(** C8 (witness): the four ways a row is built. *)
Lemma row_construction_witness :
  row_values loads [("row_values", VList [VInt 7; VStr "b"])] = Ret ["7"; "b"]%string
  /\ row_values loads [("row_values", VStr "[1, null]")] = Ret ["1"; "None"]%string
  /\ row_values loads [("row_values", VStr "plain text")] = Ret ["plain text"%string]
  /\ row_values loads [("col_sender", VStr "a@x")]
     = Ret [""; "a@x"; ""; ""; ""; ""; ""]%string.
Proof.
  split; [|split; [|split]].
  - apply (proj1 (row_construction loads [("row_values", VList [VInt 7; VStr "b"])])
             [VInt 7; VStr "b"]); [reflexivity|discriminate].
  - apply (proj1 (proj2 (row_construction loads [("row_values", VStr "[1, null]")]))
             "[1, null]"%string [VInt 1; VNone]); [reflexivity|reflexivity|discriminate].
  - apply (proj1 (proj2 (proj2 (row_construction loads [("row_values", VStr "plain text")])))
             "plain text"%string (ValueError "Expecting value")); reflexivity.
  - apply (proj1 (proj2 (proj2 (proj2 (row_construction loads [("col_sender", VStr "a@x")]))))).
    left. reflexivity.
Defined.

(** A string that parses to something other than an array is iterated as
    whatever it parsed to; a number is not iterable and the node fails. *)
Example number_string_raises (json_loads : string -> pyres value) :
  json_loads "5" = Ret (VInt 5) ->
  row_values json_loads [("row_values", VStr "5")] = Raise TypeError.
Proof. intros H. unfold row_values. cbn. rewrite H. reflexivity. Qed.

End HandlerClaims.

(** * Further properties *)

(** ** The order of the topological sort *)

Module SortOrder.
Import Py Executor Vocabulary ExecutorFacts SortVocabulary.
Local Open Scope list_scope.

(** Either all edges into [t] come from [s], or one does not and the inflow
    from [s] stays below the in-degree. *)
Lemma inflow_cases (s : list string) (edges : list WorkflowEdge.t) (t : string) :
  (inflow s edges t = indeg edges t
   /\ forall e, e ∈ edges -> WorkflowEdge.target e = t -> WorkflowEdge.source e ∈ s)
  \/ (inflow s edges t < indeg edges t
      /\ exists e, e ∈ edges /\ WorkflowEdge.target e = t /\ WorkflowEdge.source e ∉ s).
Proof.
  assert (Hdec : (forall e, e ∈ edges -> WorkflowEdge.target e = t -> WorkflowEdge.source e ∈ s)
                 \/ exists e, e ∈ edges /\ WorkflowEdge.target e = t
                              /\ WorkflowEdge.source e ∉ s).
  { induction edges as [|x rest [IH|(e & He & Ht & Hs)]].
    - left. intros e He. inversion He.
    - destruct (decide (WorkflowEdge.target x = t)) as [Hx|Hx].
      + destruct (decide (WorkflowEdge.source x ∈ s)) as [Hin|Hin].
        * left. intros e He Ht. apply elem_of_cons in He as [->|He]; auto.
        * right. exists x. split; [left|auto].
      + left. intros e He Ht. apply elem_of_cons in He as [->|He]; [contradiction|auto].
    - right. exists e. split; [right; exact He|auto]. }
  destruct Hdec as [Hall|Hex]; [left|right].
  - split; [|exact Hall]. unfold inflow, indeg. f_equal. f_equal.
    induction edges as [|x rest IH]; [reflexivity|].
    rewrite !filter_cons.
    assert (Hrest : forall e, e ∈ rest -> WorkflowEdge.target e = t ->
                              WorkflowEdge.source e ∈ s).
    { intros e He. apply Hall. right. exact He. }
    specialize (IH Hrest).
    destruct (decide (WorkflowEdge.target x = t)) as [Hx|Hx].
    + rewrite decide_True by (split; [exact Hx|apply Hall; [left|exact Hx]]).
      rewrite IH. reflexivity.
    + rewrite decide_False by tauto. exact IH.
  - split; [apply inflow_lt_indeg, Hex|exact Hex].
Qed.

Section Order.

Variable ids : list string.
Variable edges : list WorkflowEdge.t.

Let adjacency := fst (build_tables edges).

Lemma no_stuck : forall c, False ->
  exists e, e ∈ edges /\ WorkflowEdge.target e = c /\ False.
Proof. intros c []. Qed.

(** A key of the output or of the queue has all its sources in the
    output. *)
Lemma sources_sorted (m : gmap string Z) (q s : list string) (x : string) :
  queue_inv ids edges (fun _ => False) m q s ->
  x ∈ s ++ q ->
  forall e, e ∈ edges -> WorkflowEdge.target e = x -> WorkflowEdge.source e ∈ s.
Proof.
  intros [_ Hzero Hdeg _ _] Hx.
  specialize (Hzero x Hx). rewrite Hdeg in Hzero.
  destruct (inflow_cases s edges x) as [[_ Hall]|[Hlt _]]; [exact Hall|lia].
Qed.

Lemma full_init :
  NoDup ids ->
  let m := init_in_degree ids (snd (build_tables edges)) in
  full_inv ids edges m (filter (fun nid => deg m nid = 0) ids) [].
Proof.
  intros Hnd m. destruct (tables_spec ids edges) as [_ Hdeg]. fold m in Hdeg.
  split.
  - apply (inv_init ids edges (fun _ => False) no_stuck Hnd).
  - intros x [Hx|Hx] Hle; cbn [app].
    + apply list_elem_of_filter. split; [|exact Hx].
      rewrite Hdeg in *. unfold indeg in *. lia.
    + rewrite Hdeg in Hle. lia.
  - intros r1 x r2 H. destruct r1; discriminate H.
Qed.

Lemma full_step (m : gmap string Z) (c : string) (q s : list string) :
  full_inv ids edges m (c :: q) s ->
  let r := relax (succs adjacency c) m q in
  full_inv ids edges (fst r) (snd r) (s ++ [c]).
Proof.
  intros [Hbase Hready Hord] r.
  pose proof (inv_step ids edges (fun _ => False) no_stuck m c q s Hbase) as Hstep.
  cbv zeta in Hstep. fold adjacency r in Hstep.
  destruct (relax_spec (succs adjacency c) m q) as [Hd (pushed & Hq & _ & Hpin)].
  fold r in Hd, Hq.
  split; [exact Hstep| |].
  - intros x Hx Hle. rewrite Hq, app_assoc, elem_of_app.
    destruct (Z_le_gt_dec (deg m x) 0) as [Hold|Hpos].
    + left. rewrite <- app_assoc. apply (Hready x Hx Hold).
    + right. apply Hpin. rewrite Hd in Hle. lia.
  - intros r1 x r2 H e He Ht.
    destruct (decide (r2 = [])) as [->|Hne].
    + apply app_inj_tail in H as [<- <-].
      apply (sources_sorted m (c :: q) s c Hbase); [|exact He|exact Ht].
      apply elem_of_app. right. left.
    + destruct (exists_last Hne) as (r2' & y & ->).
      rewrite app_comm_cons, app_assoc in H. apply app_inj_tail in H as [-> _].
      apply (Hord r1 x r2' eq_refl e He Ht).
Qed.

Lemma drain_full (fuel : nat) :
  forall m q s,
    full_inv ids edges m q s ->
    (length (ids ++ map WorkflowEdge.target edges) <= fuel + length s)%nat ->
    exists r m', drain fuel adjacency m q s = Some r /\ full_inv ids edges m' [] r.
Proof.
  induction fuel as [|fuel IH]; intros m q s Hinv Hfuel.
  - destruct q as [|c q]; [exists s, m; split; [reflexivity|exact Hinv]|].
    exfalso. destruct Hinv as [[Hnd _ _ Huniv _] _ _].
    pose proof (submseteq_length _ _ (NoDup_submseteq _ _ Hnd Huniv)) as Hlen.
    rewrite length_app in Hlen. cbn [length] in *. lia.
  - destruct q as [|c q]; [exists s, m; split; [reflexivity|exact Hinv]|].
    cbn [drain]. pose proof (full_step m c q s Hinv) as Hstep. cbv zeta in Hstep.
    destruct (relax (succs adjacency c) m q) as [m' q'].
    cbn [fst snd] in Hstep.
    apply (IH m' q' (s ++ [c]) Hstep).
    rewrite (length_app s). cbn [length]. lia.
Qed.

End Order.

(** The sort ends, in a state where the invariant holds with an empty
    queue. *)
Lemma sort_full (ids : list string) (edges : list WorkflowEdge.t) :
  NoDup ids ->
  exists r m, _topological_sort ids edges = Some r /\ full_inv ids edges m [] r.
Proof.
  intros Hnd. unfold _topological_sort.
  pose proof (full_init ids edges Hnd) as Hinit.
  pose proof (drain_full ids edges (length ids + length edges)) as Hdrain.
  destruct (build_tables edges) as [adjacency in_degree].
  cbn [fst snd] in *. cbv zeta in Hinit.
  apply (Hdrain _ _ _ Hinit).
  rewrite length_app, length_map. cbn [length]. lia.
Qed.

(** X1: the result of the sort is a topological order of what it contains:
    the source of every edge into a sorted key stands earlier in the
    result, and no key stands in it twice. *)
Theorem sorted_after_sources (all_node_ids : list string) (edges : list WorkflowEdge.t) :
  NoDup all_node_ids ->
  exists sorted,
    _topological_sort all_node_ids edges = Some sorted
    /\ NoDup sorted
    /\ forall before x after e,
         sorted = before ++ x :: after ->
         e ∈ edges -> WorkflowEdge.target e = x -> WorkflowEdge.source e ∈ before.
Proof.
  intros Hnd. destruct (sort_full all_node_ids edges Hnd) as (r & m & Hr & [Hbase _ Hord]).
  exists r. split; [exact Hr|]. split.
  - destruct Hbase as [Hn _ _ _ _]. rewrite app_nil_r in Hn. exact Hn.
  - intros before x after e Heq He Ht. exact (Hord before x after Heq e He Ht).
Qed.

(** X2: a node key is missing from the result exactly when some edge into
    it comes from a key that is missing as well: a dangling source, or a
    node that is itself left out. *)
Theorem left_out_iff_source_left_out
    (all_node_ids : list string) (edges : list WorkflowEdge.t) :
  NoDup all_node_ids ->
  exists sorted,
    _topological_sort all_node_ids edges = Some sorted
    /\ forall x, x ∈ all_node_ids ->
         (x ∉ sorted <->
          exists e, e ∈ edges /\ WorkflowEdge.target e = x /\ WorkflowEdge.source e ∉ sorted).
Proof.
  intros Hnd. destruct (sort_full all_node_ids edges Hnd) as (r & m & Hr & [Hbase Hready Hord]).
  exists r. split; [exact Hr|]. intros x Hx. split.
  - intros Hout.
    destruct (inflow_cases r edges x) as [[Heq _]|[_ Hex]]; [|exact Hex].
    exfalso. apply Hout.
    pose proof (Hready x (or_introl Hx)) as H. rewrite app_nil_r in H. apply H.
    destruct Hbase as [_ _ Hdeg _ _]. rewrite Hdeg. lia.
  - intros (e & He & Ht & Hs) Hin. apply Hs.
    apply (sources_sorted all_node_ids edges m [] r x Hbase); [|exact He|exact Ht].
    rewrite app_nil_r. exact Hin.
Qed.

Lemma tc_flip {A : Type} (R : relation A) (x y : A) : tc (flip R) x y -> tc R y x.
Proof.
  induction 1 as [x y H|x y z H _ IH]; [apply tc_once, H|].
  eapply tc_r; [exact IH|exact H].
Qed.

(** On an acyclic graph whose edges join existing nodes, a list that
    satisfies the invariant of the finished loop holds every node key. *)
Lemma full_is_perm (ids : list string) (edges : list WorkflowEdge.t)
    (m : gmap string Z) (r : list string) :
  NoDup ids ->
  acyclic edges ->
  (forall e, e ∈ edges -> WorkflowEdge.source e ∈ ids /\ WorkflowEdge.target e ∈ ids) ->
  full_inv ids edges m [] r ->
  r ≡ₚ ids.
Proof.
  intros Hnd Hacyc Hwf Hfull.
  pose proof Hfull as [Hbase Hready Hord].
  assert (Hall : forall x, x ∈ ids -> x ∈ r).
  { intros x.
    assert (Hsn : sn (flip (edge edges)) x).
    { apply tc_finite_sn.
      - intros y Hy. apply tc_flip in Hy. exact (Hacyc y Hy).
      - exists (map WorkflowEdge.source edges). intros y Hy.
        apply tc_flip in Hy.
        assert (Hfirst : exists z, edge edges y z) by (destruct Hy; eauto).
        destruct Hfirst as (z & e & He & Hs & _).
        apply list_elem_of_fmap. exists e. auto. }
    induction Hsn as [x _ IH]. intros Hx.
    destruct (decide (x ∈ r)) as [Hin|Hout]; [exact Hin|].
    exfalso.
    destruct (inflow_cases r edges x) as [[Heq _]|[_ (e & He & Ht & Hs)]].
    - apply Hout.
      pose proof (Hready x (or_introl Hx)) as H. rewrite app_nil_r in H. apply H.
      destruct Hbase as [_ _ Hdeg _ _]. rewrite Hdeg. lia.
    - apply Hs. apply IH; [|apply Hwf, He].
      exists e. auto. }
  destruct Hbase as [Hn _ _ Huniv _]. rewrite app_nil_r in Hn.
  apply NoDup_Permutation; [exact Hn|exact Hnd|].
  intros x. split; [|apply Hall].
  intros Hx. specialize (Huniv x). rewrite app_nil_r in Huniv.
  apply Huniv, elem_of_app in Hx as [Hx|Hx]; [exact Hx|].
  apply list_elem_of_fmap in Hx as (e & -> & He). apply Hwf, He.
Qed.

(** X3: on an acyclic graph whose edges join existing nodes the result is a
    permutation of the node keys: every node is sorted, once. *)
Theorem dag_fully_sorted (all_node_ids : list string) (edges : list WorkflowEdge.t) :
  NoDup all_node_ids ->
  acyclic edges ->
  (forall e, e ∈ edges ->
     WorkflowEdge.source e ∈ all_node_ids /\ WorkflowEdge.target e ∈ all_node_ids) ->
  exists sorted,
    _topological_sort all_node_ids edges = Some sorted /\ sorted ≡ₚ all_node_ids.
Proof.
  intros Hnd Hacyc Hwf.
  destruct (sort_full all_node_ids edges Hnd) as (r & m & Hr & Hfull).
  exists r. split; [exact Hr|].
  exact (full_is_perm all_node_ids edges m r Hnd Hacyc Hwf Hfull).
Qed.

End SortOrder.

(** ** Runs as a whole *)

Module RunExtras.
Import Py Handlers Executor Vocabulary ExecutorFacts SortVocabulary SortOrder RunVocabulary.
Import Scenarios.
Local Open Scope list_scope.

(** *** Mappings *)

Lemma dict_find_set (d : list (string * value)) (k k' : string) (v : value) :
  dict_find (dict_set d k v) k' = if String.eqb k k' then Some v else dict_find d k'.
Proof.
  induction d as [|[k0 v0] rest IH]; cbn [dict_set dict_find].
  - destruct (String.eqb k k'); reflexivity.
  - destruct (String.eqb_spec k0 k) as [->|Hne]; cbn [dict_find].
    + destruct (String.eqb k k'); reflexivity.
    + rewrite IH. destruct (String.eqb_spec k0 k') as [->|Hne'];
        [|reflexivity].
      destruct (String.eqb_spec k k') as [Heq|_]; [congruence|reflexivity].
Qed.

Lemma filter_all {A : Type} (P : A -> Prop) `{forall x, Decision (P x)} (l : list A) :
  (forall x, x ∈ l -> P x) -> filter P l = l.
Proof.
  induction l as [|x l IH]; intros Hall; [reflexivity|].
  rewrite filter_cons_True by (apply Hall; left).
  rewrite IH; [reflexivity|]. intros y Hy. apply Hall. right. exact Hy.
Qed.

Lemma assoc_is_Some (m : list (string * WorkflowNode.t)) (k : string) :
  is_Some (assoc m k) <-> k ∈ map fst m.
Proof.
  induction m as [|[k0 n0] rest IH]; cbn [assoc map fst].
  - split; [intros [x H]; discriminate H|intros H; inversion H].
  - destruct (String.eqb_spec k0 k) as [->|Hne].
    + split; [intros _; left|intros _; eauto].
    + rewrite IH, elem_of_cons. split; [auto|intros [H|H]; [congruence|exact H]].
Qed.

Lemma walk_key_output (context : list (string * value)) (k : string) (output : value) :
  dict_find context k = Some (VDict [("output"%string, output)]) ->
  is_None output = false ->
  Expression.walk [k; "output"%string] (VDict context) = Ret output.
Proof.
  intros Hfind Hsome. cbn [Expression.walk]. unfold dict_get at 1 2. rewrite Hfind.
  cbn [is_None].
  change (dict_get [("output"%string, output)] "output" VNone) with output.
  rewrite Hsome. reflexivity.
Qed.

(** *** One node *)

Lemma rstrip_app (a b : string) :
  rstrip b <> ""%string -> rstrip (a ++ b) = (a ++ rstrip b)%string.
Proof.
  intros Hb. induction a as [|c a IH]; [reflexivity|].
  change (String c a ++ b)%string with (String c (a ++ b)).
  change (String c a ++ rstrip b)%string with (String c (a ++ rstrip b)).
  assert (Hstep : forall r, rstrip (String c r)
                  = match rstrip r with
                    | EmptyString => if is_space c then EmptyString else String c EmptyString
                    | r' => String c r'
                    end) by reflexivity.
  rewrite Hstep, IH.
  destruct (a ++ rstrip b)%string eqn:E; [|reflexivity].
  destruct a; [exfalso; exact (Hb E)|discriminate E].
Qed.

Lemma strip_key_output (k : string) :
  Vocabulary.head_space k = false -> strip (k ++ ".output") = (k ++ ".output")%string.
Proof.
  intros Hk. unfold strip.
  assert (Hl : lstrip (k ++ ".output") = (k ++ ".output")%string).
  { destruct k as [|c k]; [reflexivity|]. cbn [Vocabulary.head_space] in Hk.
    change (String c k ++ ".output")%string with (String c (k ++ ".output")).
    assert (Hstep : forall r, lstrip (String c r)
                    = if is_space c then lstrip r else String c r) by reflexivity.
    rewrite Hstep, Hk. reflexivity. }
  rewrite Hl, rstrip_app; [reflexivity|discriminate].
Qed.

Lemma split_key_output (k : string) :
  has_char "." k = false -> split_on "." (k ++ ".output") = [k; "output"%string].
Proof.
  induction k as [|c k IH]; [reflexivity|].
  cbn [has_char]. intros H. apply orb_false_iff in H as [Hc Hk].
  change (String c k ++ ".output")%string with (String c (k ++ ".output")).
  assert (Hstep : forall r, split_on "." (String c r)
                  = if Ascii.eqb c "."
                    then EmptyString :: split_on "." r
                    else match split_on "." r with
                         | hd :: tl => String c hd :: tl
                         | [] => [String c EmptyString]
                         end) by reflexivity.
  rewrite Hstep, (IH Hk), Ascii.eqb_sym, Hc. reflexivity.
Qed.

(** The path [k.output] through [strip] and [split]. *)
Lemma resolve_key_output (context : list (string * value)) (k : string) (output : value) :
  dict_find context k = Some (VDict [("output"%string, output)]) ->
  plain_key k = true ->
  Expression.resolve_expression (k ++ ".output") context = Ret output.
Proof.
  intros Hfind Hplain. unfold plain_key in Hplain.
  apply andb_true_iff in Hplain as [Hplain _].
  apply andb_true_iff in Hplain as [Hdot Hsp].
  apply negb_true_iff in Hdot, Hsp.
  unfold Expression.resolve_expression.
  rewrite (strip_key_output k Hsp), (split_key_output k Hdot).
  cbn [Expression.walk]. unfold dict_get at 1 2. rewrite Hfind. cbn [is_None].
  change (dict_get [("output"%string, output)] "output" VNone) with output.
  destruct output; reflexivity.
Qed.

Section Node.

Variable get_node_handler : string -> pyres handler.
Variable format_exc : exn -> string.

(** What [_execute_node] does to the context, entry by entry. *)
Lemma node_context_spec (context : list (string * value)) (node : WorkflowNode.t) :
  let context' := fst (_execute_node get_node_handler format_exc context node) in
  let nr := snd (_execute_node get_node_handler format_exc context node) in
  (NodeRun.status nr = NodeFailed -> context' = context)
  /\ (NodeRun.status nr = NodeCompleted ->
      exists output,
        NodeRun.output_data nr = Some output
        /\ dict_find context' "_last_output" = Some output
        /\ (key_of node <> "_last_output"%string ->
            dict_find context' (key_of node) = Some (VDict [("output"%string, output)])
            /\ (is_None output = false ->
                Expression.walk [key_of node; "output"%string] (VDict context') = Ret output))
        /\ forall k, k <> key_of node -> k <> "_last_output"%string ->
             dict_find context' k = dict_find context k).
Proof.
  intros context' nr. subst context' nr. unfold _execute_node.
  destruct (Expression.interpolate_dict _ _) as [resolved|e]; cbn [fst snd].
  2: { split; [reflexivity|]. cbn. discriminate. }
  destruct (mbind _ _) as [[| | | | |result]|e]; cbn [fst snd];
    try (split; [reflexivity|cbn; discriminate]).
  split; [cbn; discriminate|]. intros _.
  exists (dict_get result "output" (VDict [])).
  split; [reflexivity|]. split; [rewrite dict_find_set, String.eqb_refl; reflexivity|].
  split.
  - intros Hk.
    assert (Hfind : dict_find
              (dict_set (dict_set context (key_of node)
                           (VDict [("output"%string, dict_get result "output" (VDict []))]))
                        "_last_output" (dict_get result "output" (VDict [])))
              (key_of node)
            = Some (VDict [("output"%string, dict_get result "output" (VDict []))])).
    { rewrite !dict_find_set, String.eqb_refl.
      destruct (String.eqb_spec "_last_output" (key_of node)); [congruence|reflexivity]. }
    split; [exact Hfind|]. intros Hsome.
    apply walk_key_output; assumption.
  - intros k Hk Hl. rewrite !dict_find_set.
    destruct (String.eqb_spec "_last_output" k); [congruence|].
    destruct (String.eqb_spec (key_of node) k); [congruence|reflexivity].
Qed.

(** X4: a node that fails leaves the context as it was. A node that
    completes records its output twice: under ["_last_output"], and as
    [{"output": ...}] under its key. When the key is plain (no dot, no
    newline, no white space in front), the expression [key.output] and the
    token [{{key.output}}] then resolve to that output. No other entry of
    the context changes. *)
Theorem node_output_in_context (context : list (string * value)) (node : WorkflowNode.t) :
  let context' := fst (_execute_node get_node_handler format_exc context node) in
  let nr := snd (_execute_node get_node_handler format_exc context node) in
  (NodeRun.status nr = NodeFailed -> context' = context)
  /\ (NodeRun.status nr = NodeCompleted ->
      exists output,
        NodeRun.output_data nr = Some output
        /\ dict_find context' "_last_output" = Some output
        /\ (key_of node <> "_last_output"%string ->
            dict_find context' (key_of node) = Some (VDict [("output"%string, output)])
            /\ (plain_key (key_of node) = true ->
                Expression.resolve_expression (key_of node ++ ".output")%string context'
                = Ret output
                /\ Expression.interpolate
                     (VStr ("{{" ++ (key_of node ++ ".output") ++ "}}")%string) context'
                   = Ret output))
        /\ forall k, k <> key_of node -> k <> "_last_output"%string ->
             dict_find context' k = dict_find context k).
Proof.
  intros context' nr.
  destruct (node_context_spec context node) as [Hfail Hdone]. fold context' nr in Hfail, Hdone.
  split; [exact Hfail|]. intros Hst.
  destruct (Hdone Hst) as (output & Hout & Hlast & Hkey & Hframe).
  exists output. split; [exact Hout|]. split; [exact Hlast|]. split; [|exact Hframe].
  intros Hne. destruct (Hkey Hne) as [Hfind _]. split; [exact Hfind|].
  intros Hplain.
  assert (Hres : Expression.resolve_expression (key_of node ++ ".output")%string context'
                 = Ret output) by (apply resolve_key_output; assumption).
  split; [exact Hres|].
  unfold plain_key in Hplain. apply andb_true_iff in Hplain as [_ Hnl].
  rewrite ExpressionFacts.single_token_native; [exact Hres| |].
  - destruct (key_of node); discriminate.
  - rewrite ExpressionFacts.no_newline_append, Hnl. reflexivity.
Qed.

(** *** The pass over the sorted keys *)

(** What [run_nodes] writes, key by key: one node run for each key of a
    prefix of the keys that name a node, and for all of them when every
    node run completed; then the context holds the last output. *)
Lemma run_nodes_keys (nodes_map : list (string * WorkflowNode.t))
    (sorted_node_ids : list string) :
  forall run context node_runs,
    let r := run_nodes get_node_handler format_exc nodes_map sorted_node_ids
                       run context node_runs in
    exists new done,
      snd r = node_runs ++ new
      /\ done `prefix_of` present nodes_map sorted_node_ids
      /\ Forall2 (fun nr k =>
                    exists node, assoc nodes_map k = Some node
                      /\ NodeRun.node_id nr = WorkflowNode.id node
                      /\ (NodeRun.status nr = NodeCompleted ->
                          NodeRun.node_key nr = Some (key_of node))) new done
      /\ (Forall (fun nr => NodeRun.status nr = NodeCompleted) new ->
          done = present nodes_map sorted_node_ids
          /\ (new <> [] ->
              dict_find (snd (fst r)) "_last_output"
              = Some (last_output new))
          /\ (new = [] -> snd (fst r) = context)).
Proof.
  induction sorted_node_ids as [|k rest IH]; intros run context node_runs; cbn [run_nodes].
  - exists [], []. rewrite app_nil_r. split; [reflexivity|].
    split; [exists []; reflexivity|]. split; [constructor|].
    intros _. split; [reflexivity|]. split; [congruence|reflexivity].
  - unfold present. rewrite filter_cons. fold (present nodes_map rest).
    destruct (assoc nodes_map k) as [node|] eqn:Ea.
    + rewrite decide_True by eauto.
      pose proof (execute_node_cases get_node_handler format_exc context node) as Hc.
      pose proof (node_context_spec context node) as Hctx.
      destruct (_execute_node get_node_handler format_exc context node) as [context' nr].
      cbn [fst snd] in Hc, Hctx.
      destruct Hc as [Hid [(Hst & Hkey & _)|(Hst & _ & _)]]; rewrite Hst.
      * destruct (IH run context' (node_runs ++ [nr]))
          as (new & done & Hnew & Hpre & Hall & Hdone).
        exists (nr :: new), (k :: done). rewrite Hnew, <- app_assoc.
        split; [reflexivity|]. split; [|split].
        { destruct Hpre as [t ->]. exists t. reflexivity. }
        { constructor; [exists node; auto|exact Hall]. }
        intros Hcompl. apply Forall_cons in Hcompl as [_ Hcompl].
        destruct (Hdone Hcompl) as (-> & Hlast & Hsame).
        split; [reflexivity|]. split; [|discriminate].
        intros _. destruct new as [|nr' new'].
        -- rewrite (Hsame eq_refl).
           destruct (proj2 Hctx Hst) as (output & Hout & Hfind & _).
           rewrite Hfind. unfold last_output. cbn [last]. rewrite Hout. reflexivity.
        -- rewrite Hlast by discriminate. reflexivity.
      * exists [nr], [k]. cbn [fst snd]. split; [reflexivity|].
        split; [exists (present nodes_map rest); reflexivity|].
        split; [constructor; [exists node; split; [exact Ea|]; split; [exact Hid|]|constructor];
                intros H; congruence|].
        intros Hcompl. rewrite Forall_singleton in Hcompl. congruence.
    + rewrite decide_False by (intros [x H]; discriminate H).
      apply IH.
Qed.

End Node.

(** A key with a dot in it is stored like any other, but the path splits
    it: the output cannot be reached by [a.b.output]. *)
Example dotted_key_not_resolved :
  dict_find [("a.b"%string, VDict [("output"%string, VInt 1)])] "a.b"
  = Some (VDict [("output"%string, VInt 1)])
  /\ Expression.resolve_expression "a.b.output"
       [("a.b"%string, VDict [("output"%string, VInt 1)])] = Ret VNone
  /\ Expression.interpolate (VStr "{{a.b.output}}")
       [("a.b"%string, VDict [("output"%string, VInt 1)])] = Ret VNone.
Proof. repeat split; reflexivity. Qed.

(** *** [execute] *)

Section Execute.

Variable get_node_handler : string -> pyres handler.
Variable format_exc : exn -> string.
Variable set_iter : list string -> list string.
Hypothesis set_iter_perm : forall ks, NoDup ks -> set_iter ks ≡ₚ ks.

(** Everything [execute] settles, in one statement. *)
Lemma execute_full (workflow : Workflow.t) (input_payload : value) (trigger_type : string) :
  let nodes_map := build_nodes_map (Workflow.nodes workflow) in
  exists sorted run node_runs done,
    _topological_sort (set_iter (map fst nodes_map)) (Workflow.edges workflow) = Some sorted
    /\ execute get_node_handler format_exc set_iter workflow input_payload trigger_type
       = Some (run, node_runs)
    /\ done `prefix_of` present nodes_map sorted
    /\ Forall2 (fun nr k => NodeRun.status nr = NodeCompleted -> NodeRun.node_key nr = Some k)
               node_runs done
    /\ ((WorkflowRun.status run = RunCompleted
         /\ Forall (fun nr => NodeRun.status nr = NodeCompleted) node_runs
         /\ done = present nodes_map sorted
         /\ WorkflowRun.error run = None
         /\ WorkflowRun.output_payload run = Some (last_output node_runs))
        \/ (WorkflowRun.status run = RunFailed
            /\ exists pre nr, node_runs = pre ++ [nr] /\ NodeRun.status nr = NodeFailed)).
Proof.
  intros nodes_map. unfold execute. fold nodes_map.
  destruct (build_nodes_map_spec (Workflow.nodes workflow)) as [Hnd Hkeys].
  fold nodes_map in Hnd, Hkeys.
  destruct (topological_sort_spec (set_iter (map fst nodes_map)) (Workflow.edges workflow))
    as (sorted & Hsorted & _).
  { rewrite set_iter_perm; assumption. }
  exists sorted. rewrite Hsorted. cbn [mbind option_bind].
  match goal with
  | |- context [run_nodes _ _ nodes_map sorted ?r ?c []] =>
      destruct (run_nodes_spec get_node_handler format_exc nodes_map sorted r c [])
        as (new & Hnew & _ & Hres);
      destruct (run_nodes_keys get_node_handler format_exc nodes_map sorted r c [])
        as (new' & done & Hnew' & Hpre & Hall & Hdone);
      destruct (run_nodes get_node_handler format_exc nodes_map sorted r c [])
        as [[run' context'] node_runs] eqn:Er
  end.
  cbn [fst snd app] in *. subst node_runs. subst new'.
  assert (Hall' : Forall2 (fun nr k => NodeRun.status nr = NodeCompleted ->
                                       NodeRun.node_key nr = Some k) new done).
  { eapply Forall2_impl; [exact Hall|].
    intros nr k (node & Ha & _ & Hk) Hst. rewrite (Hk Hst).
    destruct (Hkeys k node Ha) as [-> _]. reflexivity. }
  destruct Hres as [[Hc ->]|(pre & nr & k & node & err & H1 & H2 & H3 & H4 & H5 & H6 & H7 & H8 & H9)].
  - eexists _, new, done. split; [reflexivity|]. split; [reflexivity|].
    split; [exact Hpre|]. split; [exact Hall'|]. left.
    destruct (Hdone Hc) as (Hd & Hlast & Hsame).
    cbn. split; [reflexivity|]. split; [exact Hc|]. split; [exact Hd|].
    split; [reflexivity|]. f_equal.
    destruct new as [|nr new].
    + rewrite (Hsame eq_refl). reflexivity.
    + unfold dict_get. rewrite Hlast by discriminate. reflexivity.
  - rewrite H8. eexists _, new, done. split; [reflexivity|]. split; [reflexivity|].
    split; [exact Hpre|]. split; [exact Hall'|]. right.
    split; [exact H8|]. exists pre, nr. auto.
Qed.

End Execute.

(** X5: [execute] always returns a run that is completed or failed, never
    pending or running. It is completed exactly when every NodeRun
    completed, and then it carries no error; it is failed exactly when the
    last NodeRun failed. *)
Theorem run_ends_completed_or_failed
    (get_node_handler : string -> pyres handler) (format_exc : exn -> string)
    (set_iter : list string -> list string)
    (workflow : Workflow.t) (input_payload : value) (trigger_type : string) :
  (forall ks, NoDup ks -> set_iter ks ≡ₚ ks) ->
  exists run node_runs,
    execute get_node_handler format_exc set_iter workflow input_payload trigger_type
    = Some (run, node_runs)
    /\ (WorkflowRun.status run = RunCompleted \/ WorkflowRun.status run = RunFailed)
    /\ (WorkflowRun.status run = RunCompleted <->
        Forall (fun nr => NodeRun.status nr = NodeCompleted) node_runs)
    /\ (WorkflowRun.status run = RunCompleted -> WorkflowRun.error run = None)
    /\ (WorkflowRun.status run = RunFailed <->
        exists nr, last node_runs = Some nr /\ NodeRun.status nr = NodeFailed).
Proof.
  intros Hperm.
  destruct (execute_full get_node_handler format_exc set_iter Hperm
              workflow input_payload trigger_type)
    as (sorted & run & node_runs & done & _ & Hexec & _ & _ & Hend).
  exists run, node_runs. split; [exact Hexec|].
  destruct Hend as [(Hst & Hall & _ & Herr & _)|(Hst & pre & nr & -> & Hf)].
  - split; [left; exact Hst|]. split; [tauto|]. split; [auto|].
    split; [congruence|]. intros (nr & Hlast & Hf).
    apply last_Some in Hlast as [pre ->].
    rewrite Forall_app, Forall_singleton in Hall. destruct Hall. congruence.
  - split; [right; exact Hst|]. split; [|split].
    + split; [congruence|]. intros Hall.
      rewrite Forall_app, Forall_singleton in Hall. destruct Hall. congruence.
    + congruence.
    + split; [|auto]. intros _. exists nr. rewrite last_snoc. auto.
Qed.

(** X6: the output of a completed run is the output recorded by its last
    NodeRun, and the empty mapping when no node ran. *)
Theorem run_output_is_last_output
    (get_node_handler : string -> pyres handler) (format_exc : exn -> string)
    (set_iter : list string -> list string)
    (workflow : Workflow.t) (input_payload : value) (trigger_type : string) :
  (forall ks, NoDup ks -> set_iter ks ≡ₚ ks) ->
  exists run node_runs,
    execute get_node_handler format_exc set_iter workflow input_payload trigger_type
    = Some (run, node_runs)
    /\ (WorkflowRun.status run = RunCompleted ->
        WorkflowRun.output_payload run = Some (last_output node_runs)).
Proof.
  intros Hperm.
  destruct (execute_full get_node_handler format_exc set_iter Hperm
              workflow input_payload trigger_type)
    as (sorted & run & node_runs & done & _ & Hexec & _ & _ & Hend).
  exists run, node_runs. split; [exact Hexec|].
  destruct Hend as [(_ & _ & _ & _ & Hout)|(Hst & _)]; [auto|congruence].
Qed.

(** X7: the NodeRuns of a run follow the sorted keys that name a node, one
    NodeRun per key and in that order, up to the node that failed; a
    completed NodeRun carries its key. So no node is executed twice, there
    are never more NodeRuns than nodes, and in a completed run the keys of
    the NodeRuns are exactly the sorted keys that name a node. *)
Theorem node_runs_follow_sort
    (get_node_handler : string -> pyres handler) (format_exc : exn -> string)
    (set_iter : list string -> list string)
    (workflow : Workflow.t) (input_payload : value) (trigger_type : string) :
  (forall ks, NoDup ks -> set_iter ks ≡ₚ ks) ->
  let nodes_map := build_nodes_map (Workflow.nodes workflow) in
  exists sorted run node_runs done,
    _topological_sort (set_iter (map fst nodes_map)) (Workflow.edges workflow) = Some sorted
    /\ execute get_node_handler format_exc set_iter workflow input_payload trigger_type
       = Some (run, node_runs)
    /\ done `prefix_of` present nodes_map sorted
    /\ NoDup done
    /\ Forall2 (fun nr k => NodeRun.status nr = NodeCompleted -> NodeRun.node_key nr = Some k)
               node_runs done
    /\ (length node_runs <= length nodes_map)%nat
    /\ (WorkflowRun.status run = RunCompleted ->
        map NodeRun.node_key node_runs = map Some (present nodes_map sorted)).
Proof.
  intros Hperm nodes_map.
  destruct (execute_full get_node_handler format_exc set_iter Hperm
              workflow input_payload trigger_type)
    as (sorted & run & node_runs & done & Hsort & Hexec & Hpre & Hall & Hend).
  fold nodes_map in Hsort, Hpre, Hend.
  destruct (build_nodes_map_spec (Workflow.nodes workflow)) as [Hnd _].
  fold nodes_map in Hnd.
  destruct (topological_sort_spec (set_iter (map fst nodes_map)) (Workflow.edges workflow))
    as (sorted' & Hsort' & _ & Hnds & _).
  { rewrite Hperm; assumption. }
  rewrite Hsort in Hsort'. injection Hsort' as <-.
  assert (Hpnd : NoDup (present nodes_map sorted)) by (apply NoDup_filter, Hnds).
  assert (Hdnd : NoDup done).
  { destruct Hpre as [t Ht]. rewrite Ht in Hpnd. apply NoDup_app in Hpnd. tauto. }
  exists sorted, run, node_runs, done.
  repeat (split; [assumption|]). split.
  - rewrite (Forall2_length _ _ _ Hall).
    assert (Hsub : done ⊆+ map fst nodes_map).
    { apply NoDup_submseteq; [exact Hdnd|]. intros x Hx.
      destruct Hpre as [t Ht].
      assert (Hx' : x ∈ present nodes_map sorted) by (rewrite Ht; apply elem_of_app; auto).
      apply list_elem_of_filter in Hx' as [Hx' _]. apply assoc_is_Some, Hx'. }
    apply submseteq_length in Hsub. rewrite length_map in Hsub. exact Hsub.
  - intros Hst.
    destruct Hend as [(_ & Hc & Hd & _)|(Hf & _)]; [|congruence]. subst done.
    clear -Hall Hc. induction Hall as [|nr k nrs ks Hk _ IH]; [reflexivity|].
    apply Forall_cons in Hc as [Hc1 Hc2]. cbn [map]. rewrite (Hk Hc1), (IH Hc2). reflexivity.
Qed.

(** A numbering of the keys that grows along every edge shows that the
    graph has no cycle. *)
Lemma ranked_acyclic (edges : list WorkflowEdge.t) (rank : string -> nat) :
  (forall e, e ∈ edges -> (rank (WorkflowEdge.source e) < rank (WorkflowEdge.target e))%nat) ->
  acyclic edges.
Proof.
  intros Hrank x Hx.
  assert (H : forall a b, tc (edge edges) a b -> (rank a < rank b)%nat).
  { induction 1 as [a b (e & He & <- & <-)|a b c (e & He & <- & <-) _ IH].
    - apply Hrank, He.
    - specialize (Hrank e He). lia. }
  specialize (H x x Hx). lia.
Qed.

Lemma completed_keys (node_runs : list NodeRun.t) (done : list string) :
  Forall2 (fun nr k => NodeRun.status nr = NodeCompleted -> NodeRun.node_key nr = Some k)
          node_runs done ->
  Forall (fun nr => NodeRun.status nr = NodeCompleted) node_runs ->
  map NodeRun.node_key node_runs = map Some done.
Proof.
  intros Hall Hc. induction Hall as [|nr k nrs ks Hk _ IH]; [reflexivity|].
  apply Forall_cons in Hc as [Hc1 Hc2]. cbn [map]. rewrite (Hk Hc1), (IH Hc2). reflexivity.
Qed.

(** X8: on an acyclic graph whose edges join existing nodes, the result of
    the topological sort is a permutation of the node keys in which every
    edge points forward, and a run that completes has exactly one NodeRun
    for every node, with the keys in the order of that result. *)
Theorem dag_run_covers_every_node
    (get_node_handler : string -> pyres handler) (format_exc : exn -> string)
    (set_iter : list string -> list string)
    (workflow : Workflow.t) (input_payload : value) (trigger_type : string) :
  (forall ks, NoDup ks -> set_iter ks ≡ₚ ks) ->
  let nodes_map := build_nodes_map (Workflow.nodes workflow) in
  let edges := Workflow.edges workflow in
  acyclic edges ->
  (forall e, e ∈ edges ->
     WorkflowEdge.source e ∈ map fst nodes_map /\ WorkflowEdge.target e ∈ map fst nodes_map) ->
  exists sorted run node_runs,
    _topological_sort (set_iter (map fst nodes_map)) edges = Some sorted
    /\ execute get_node_handler format_exc set_iter workflow input_payload trigger_type
       = Some (run, node_runs)
    /\ sorted ≡ₚ map fst nodes_map
    /\ ordered edges sorted
    /\ (WorkflowRun.status run = RunCompleted ->
        map NodeRun.node_key node_runs = map Some sorted
        /\ length node_runs = length nodes_map).
Proof.
  intros Hperm nodes_map edges Hacyc Hwf.
  destruct (execute_full get_node_handler format_exc set_iter Hperm
              workflow input_payload trigger_type)
    as (sorted & run & node_runs & done & Hsort & Hexec & _ & Hall & Hend).
  fold nodes_map edges in Hsort, Hend.
  destruct (build_nodes_map_spec (Workflow.nodes workflow)) as [Hnd _].
  fold nodes_map in Hnd.
  assert (Hnd' : NoDup (set_iter (map fst nodes_map))) by (rewrite Hperm; assumption).
  destruct (sort_full (set_iter (map fst nodes_map)) edges Hnd') as (r & m & Hr & Hfull).
  rewrite Hsort in Hr. injection Hr as <-.
  assert (Hp : sorted ≡ₚ map fst nodes_map).
  { rewrite <- (Hperm _ Hnd).
    apply (full_is_perm _ edges m sorted Hnd' Hacyc); [|exact Hfull].
    intros e He. rewrite !Hperm by assumption. apply Hwf, He. }
  destruct Hfull as [_ _ Hord].
  exists sorted, run, node_runs. split; [exact Hsort|]. split; [exact Hexec|].
  split; [exact Hp|]. split; [exact Hord|].
  intros Hst.
  destruct Hend as [(_ & Hc & Hd & _)|(Hf & _)]; [|congruence]. subst done.
  assert (Hpres : present nodes_map sorted = sorted).
  { apply filter_all. intros x Hx. apply assoc_is_Some. rewrite <- Hp. exact Hx. }
  rewrite Hpres in Hall.
  pose proof (completed_keys node_runs sorted Hall Hc) as Hkeys.
  split; [exact Hkeys|].
  apply (f_equal length) in Hkeys. rewrite !length_map in Hkeys.
  rewrite Hkeys, Hp, length_map. reflexivity.
Qed.

End RunExtras.

(** *** The diamond [A -> B], [A -> C], [B -> D], [C -> D] *)

Module DiamondWitnesses.
Import Py Handlers Executor Vocabulary ExecutorFacts SortVocabulary SortOrder RunVocabulary.
Import Scenarios RunExtras.
Local Open Scope list_scope.


Lemma diamond_keys_nodup : NoDup diamond_keys.
Proof. apply (bool_decide_unpack _). vm_compute. exact I. Qed.

Lemma diamond_acyclic : acyclic (Workflow.edges diamond).
Proof.
  apply (ranked_acyclic _ diamond_rank). intros e He.
  apply list_elem_of_In in He. cbn in He.
  destruct He as [<-|[<-|[<-|[<-|[]]]]]; vm_compute; lia.
Qed.

Lemma diamond_edges_join_nodes (e : WorkflowEdge.t) :
  e ∈ Workflow.edges diamond ->
  WorkflowEdge.source e ∈ map fst (build_nodes_map (Workflow.nodes diamond))
  /\ WorkflowEdge.target e ∈ map fst (build_nodes_map (Workflow.nodes diamond)).
Proof.
  intros He. apply list_elem_of_In in He. cbn in He.
  destruct He as [<-|[<-|[<-|[<-|[]]]]]; split; apply list_elem_of_In; vm_compute; tauto.
Qed.

(** X1 (witness) *)
Lemma sorted_after_sources_witness :
  exists sorted,
    _topological_sort diamond_keys (Workflow.edges diamond) = Some sorted
    /\ NoDup sorted
    /\ forall before x after e,
         sorted = before ++ x :: after ->
         e ∈ Workflow.edges diamond -> WorkflowEdge.target e = x ->
         WorkflowEdge.source e ∈ before.
Proof.
  exact (sorted_after_sources diamond_keys (Workflow.edges diamond) diamond_keys_nodup).
Defined.

(** X2 (witness): the cycle behind a node of scenario [tail_cycle]. *)
Lemma left_out_iff_source_left_out_witness :
  exists sorted,
    _topological_sort ["A"; "B"; "C"]%string (Workflow.edges tail_cycle) = Some sorted
    /\ forall x, x ∈ ["A"; "B"; "C"]%string ->
         (x ∉ sorted <->
          exists e, e ∈ Workflow.edges tail_cycle /\ WorkflowEdge.target e = x
                    /\ WorkflowEdge.source e ∉ sorted).
Proof.
  apply (left_out_iff_source_left_out ["A"; "B"; "C"]%string (Workflow.edges tail_cycle)).
  apply (bool_decide_unpack _). vm_compute. exact I.
Defined.

(** X3 (witness) *)
Lemma dag_fully_sorted_witness :
  exists sorted,
    _topological_sort diamond_keys (Workflow.edges diamond) = Some sorted
    /\ sorted ≡ₚ diamond_keys.
Proof.
  exact (dag_fully_sorted diamond_keys (Workflow.edges diamond)
           diamond_keys_nodup diamond_acyclic diamond_edges_join_nodes).
Defined.

(** X5 (witness): scenario S4. *)
Lemma run_ends_completed_or_failed_witness :
  exists run node_runs,
    run_it in_order no_api_key = Some (run, node_runs)
    /\ (WorkflowRun.status run = RunCompleted \/ WorkflowRun.status run = RunFailed)
    /\ (WorkflowRun.status run = RunCompleted <->
        Forall (fun nr => NodeRun.status nr = NodeCompleted) node_runs)
    /\ (WorkflowRun.status run = RunCompleted -> WorkflowRun.error run = None)
    /\ (WorkflowRun.status run = RunFailed <->
        exists nr, last node_runs = Some nr /\ NodeRun.status nr = NodeFailed).
Proof.
  exact (run_ends_completed_or_failed registry format_exc in_order no_api_key (VDict [])
           "manual" ExecutorClaims.in_order_perm).
Defined.

(** X6 (witness) *)
Lemma run_output_is_last_output_witness :
  exists run node_runs,
    run_it in_order diamond = Some (run, node_runs)
    /\ (WorkflowRun.status run = RunCompleted ->
        WorkflowRun.output_payload run = Some (last_output node_runs)).
Proof.
  exact (run_output_is_last_output registry format_exc in_order diamond (VDict [])
           "manual" ExecutorClaims.in_order_perm).
Defined.

(** X7 (witness) *)
Lemma node_runs_follow_sort_witness :
  let nodes_map := build_nodes_map (Workflow.nodes no_api_key) in
  exists sorted run node_runs done,
    _topological_sort (in_order (map fst nodes_map)) (Workflow.edges no_api_key) = Some sorted
    /\ run_it in_order no_api_key = Some (run, node_runs)
    /\ done `prefix_of` present nodes_map sorted
    /\ NoDup done
    /\ Forall2 (fun nr k => NodeRun.status nr = NodeCompleted -> NodeRun.node_key nr = Some k)
               node_runs done
    /\ (length node_runs <= length nodes_map)%nat
    /\ (WorkflowRun.status run = RunCompleted ->
        map NodeRun.node_key node_runs = map Some (present nodes_map sorted)).
Proof.
  exact (node_runs_follow_sort registry format_exc in_order no_api_key (VDict [])
           "manual" ExecutorClaims.in_order_perm).
Defined.

(** X8 (witness) *)
Lemma dag_run_covers_every_node_witness :
  let nodes_map := build_nodes_map (Workflow.nodes diamond) in
  exists sorted run node_runs,
    _topological_sort (in_order (map fst nodes_map)) (Workflow.edges diamond) = Some sorted
    /\ run_it in_order diamond = Some (run, node_runs)
    /\ sorted ≡ₚ map fst nodes_map
    /\ ordered (Workflow.edges diamond) sorted
    /\ (WorkflowRun.status run = RunCompleted ->
        map NodeRun.node_key node_runs = map Some sorted
        /\ length node_runs = length nodes_map).
Proof.
  exact (dag_run_covers_every_node registry format_exc in_order diamond (VDict [])
           "manual" ExecutorClaims.in_order_perm diamond_acyclic diamond_edges_join_nodes).
Defined.

(** The diamond evaluated: four completed NodeRuns in sorted order; the
    last node reads the output of [B] from the context. *)
Example diamond_run :
  summary (run_it in_order diamond)
  = Some (RunCompleted, None,
          [("id-A"%string, NodeCompleted, Some "A"%string);
           ("id-B"%string, NodeCompleted, Some "B"%string);
           ("id-C"%string, NodeCompleted, Some "C"%string);
           ("id-D"%string, NodeCompleted, Some "D"%string)])
  /\ option_map (fun r => WorkflowRun.output_payload (fst r)) (run_it in_order diamond)
     = Some (Some (VDict [("type"%string, VStr "json"); ("data"%string, VStr "json")])).
Proof. split; vm_compute; reflexivity. Qed.

End DiamondWitnesses.

(** ** Templates and paths *)

Module ExpressionExtras.
Import Py Re Expression Vocabulary ExpressionFacts TemplateVocabulary.
Local Open Scope list_scope.

Lemma no_open_no_match (s : string) : has_open s = false -> expression_at s = None.
Proof.
  destruct s as [|c [|c' r]]; try reflexivity.
  - destruct c as [[] [] [] [] [] [] [] []]; reflexivity.
  - cbn [has_open]. intros H. unfold expression_at.
    destruct c as [[] [] [] [] [] [] [] []]; try reflexivity.
    destruct c' as [[] [] [] [] [] [] [] []]; try reflexivity.
    discriminate H.
Qed.

Lemma has_open_tail (c : ascii) (r : string) :
  has_open (String c r) = false -> has_open r = false.
Proof.
  cbn [has_open]. destruct r as [|c' r']; [reflexivity|].
  destruct c as [[] [] [] [] [] [] [] []]; try (intros H; exact H).
  destruct c' as [[] [] [] [] [] [] [] []]; try (intros H; exact H).
  discriminate.
Qed.

Lemma no_open_no_fullmatch (s : string) :
  has_open s = false -> fullmatch_expression s = None.
Proof.
  destruct s as [|c [|c' r]]; try reflexivity.
  - destruct c as [[] [] [] [] [] [] [] []]; reflexivity.
  - cbn [has_open]. intros H. unfold fullmatch_expression.
    destruct c as [[] [] [] [] [] [] [] []]; try reflexivity.
    destruct c' as [[] [] [] [] [] [] [] []]; try reflexivity.
    discriminate H.
Qed.

Lemma no_open_sub (context : list (string * value)) (s : string) :
  has_open s = false -> sub_expressions context O s = Ret s.
Proof.
  induction s as [|c r IH]; [reflexivity|].
  intros H. cbn [sub_expressions]. rewrite (no_open_no_match _ H).
  rewrite (IH (has_open_tail c r H)). reflexivity.
Qed.

(** X9: a template in which no string contains [{{] comes back unchanged,
    whatever the context holds. *)
Theorem token_free_unchanged (template : value) (context : list (string * value)) :
  token_free template = true -> interpolate template context = Ret template.
Proof.
  induction template as [| | |s|l IH|d IH] using value_nested_ind;
    cbn [token_free interpolate]; intros H; try reflexivity.
  - apply negb_true_iff in H.
    rewrite (no_open_no_fullmatch s H), (no_open_sub context s H). reflexivity.
  - match goal with |- context [mbind _ (?f l)] => assert (Hl : f l = Ret l) end.
    { induction IH as [|x r Hx _ IHr]; [reflexivity|].
      cbn [forallb] in H. apply andb_true_iff in H as [H1 H2].
      rewrite (Hx H1). cbn. rewrite (IHr H2). reflexivity. }
    rewrite Hl. reflexivity.
  - match goal with |- context [mbind _ (?f d)] => assert (Hd : f d = Ret d) end.
    { induction IH as [|[k x] r Hx _ IHr]; [reflexivity|].
      cbn [forallb] in H. apply andb_true_iff in H as [H1 H2].
      cbn [snd] in Hx, H1. rewrite (Hx H1). cbn. rewrite (IHr H2). reflexivity. }
    rewrite Hd. reflexivity.
Qed.

(** X9 (witness) *)
Lemma token_free_unchanged_witness :
  interpolate (VDict [("to", VStr "a@x"); ("tags", VList [VStr "{x}"; VInt 3; VNone])])
              [("x", VStr "y")]
  = Ret (VDict [("to", VStr "a@x"); ("tags", VList [VStr "{x}"; VInt 3; VNone])]).
Proof.
  apply (token_free_unchanged
           (VDict [("to", VStr "a@x"); ("tags", VList [VStr "{x}"; VInt 3; VNone])])).
  reflexivity.
Defined.

(** X10: interpolation keeps the shape of a template: a mapping comes back
    as a mapping with the same keys in the same order, a sequence as a
    sequence of the same length, and [None], booleans and numbers come back
    as they are. *)
Theorem interpolate_keeps_shape (template : value) (context : list (string * value)) :
  match template with
  | VDict d =>
      exists d', interpolate template context = Ret (VDict d') /\ map fst d' = map fst d
  | VList l =>
      exists l', interpolate template context = Ret (VList l') /\ length l' = length l
  | VStr _ => True
  | _ => interpolate template context = Ret template
  end.
Proof.
  destruct template as [| | |s|l|d]; cbn [interpolate]; try reflexivity; try exact I.
  - match goal with |- context [mbind _ (?f l)] =>
      assert (Hl : exists l', f l = Ret l' /\ length l' = length l) end.
    { induction l as [|x r (r' & Hr & Hlen)]; [exists []; auto|].
      destruct (interpolate_total x context) as [x' Hx].
      exists (x' :: r'). rewrite Hx. cbn. rewrite Hr. cbn. auto. }
    destruct Hl as (l' & -> & Hlen). exists l'. auto.
  - match goal with |- context [mbind _ (?f d)] =>
      assert (Hd : exists d', f d = Ret d' /\ map fst d' = map fst d) end.
    { induction d as [|[k x] r (r' & Hr & Hkeys)]; [exists []; auto|].
      destruct (interpolate_total x context) as [x' Hx].
      exists ((k, x') :: r'). rewrite Hx. cbn. rewrite Hr. cbn. rewrite Hkeys. auto. }
    destruct Hd as (d' & -> & Hkeys). exists d'. auto.
Qed.

(** Node data always interpolates to a mapping. *)
Lemma interpolate_dict_total (template context : list (string * value)) :
  exists d, interpolate_dict template context = Ret d /\ map fst d = map fst template.
Proof.
  unfold interpolate_dict. cbn [interpolate].
  match goal with |- context [mbind _ (?f template)] =>
    assert (Hd : exists d', f template = Ret d' /\ map fst d' = map fst template) end.
  { induction template as [|[k x] r (r' & Hr & Hkeys)]; [exists []; auto|].
    destruct (interpolate_total x context) as [x' Hx].
    exists ((k, x') :: r'). rewrite Hx. cbn. rewrite Hr. cbn. rewrite Hkeys. auto. }
  destruct Hd as (d' & -> & Hkeys). exists d'. auto.
Qed.

Lemma walk_none (parts : list string) : walk parts VNone = Ret VNone.
Proof. destruct parts; reflexivity. Qed.

(** X11: resolving a path in two stages is resolving it at once: walking
    the segments [ps ++ qs] from a value gives what walking [qs] gives from
    the result of walking [ps]. *)
Theorem walk_in_stages (ps qs : list string) :
  forall current,
    walk (ps ++ qs) current = (v ← walk ps current; walk qs v).
Proof.
  induction ps as [|p rest IH]; intros current; [reflexivity|].
  cbn [app walk]. destruct current; try (cbn; rewrite walk_none; reflexivity).
  - destruct (mbind _ _) as [v|e].
    + destruct (is_None v); [cbn; rewrite walk_none; reflexivity|apply IH].
    + destruct e; try reflexivity; cbn; rewrite walk_none; reflexivity.
  - destruct (is_None _); [cbn; rewrite walk_none; reflexivity|apply IH].
Qed.

(** X12: a path resolves to the absent value or to something that sits in
    the value it is walked from: resolution never makes a value up. *)
Theorem walk_finds_a_part (parts : list string) :
  forall current v,
    walk parts current = Ret v -> v = VNone \/ part_of v current.
Proof.
  induction parts as [|p rest IH]; intros current v; cbn [walk].
  - intros [= ->]. right. constructor.
  - destruct current as [| | | |l|d]; try (intros [= <-]; auto).
    + unfold mbind, pyres_bind, bind.
      destruct (py_int p) as [i|e]; [|destruct e; try discriminate; intros [= <-]; auto].
      destruct (py_getitem l i) as [x|e] eqn:Eg;
        [|destruct e; try discriminate; intros [= <-]; auto].
      destruct (is_None x); [intros [= <-]; auto|].
      intros H. destruct (IH _ _ H) as [->|Hp]; [auto|]. right.
      apply part_item with x; [|exact Hp].
      unfold py_getitem in Eg. destruct (_ && _); [|discriminate].
      destruct (nth_error l _) eqn:En; [|discriminate].
      injection Eg as <-. eapply nth_error_In, En.
    + destruct (is_None (dict_get d p VNone)) eqn:En; [intros [= <-]; auto|].
      intros H. destruct (IH _ _ H) as [->|Hp]; [auto|]. right.
      apply part_entry with p (dict_get d p VNone); [|exact Hp].
      unfold dict_get in *. destruct (dict_find d p) as [x|] eqn:Ef; [|discriminate].
      clear -Ef. induction d as [|[k y] r IHd]; [discriminate|].
      cbn [dict_find] in Ef. destruct (String.eqb_spec k p) as [->|];
        [injection Ef as ->; left; reflexivity|right; auto].
Qed.

(** X12 (witness) *)
Lemma walk_finds_a_part_witness :
  let context := VDict [("A", VDict [("output", VList [VInt 1; VStr "two"])])] in
  VStr "two" = VNone \/ part_of (VStr "two") context.
Proof.
  exact (walk_finds_a_part ["A"; "output"; "-1"]%string
           (VDict [("A", VDict [("output", VList [VInt 1; VStr "two"])])])
           (VStr "two") eq_refl).
Defined.

End ExpressionExtras.

(** ** Node handlers and the registry *)

Module HandlerExtras.
Import Py Re Expression Handlers Executor RunVocabulary ExpressionExtras.
Local Open Scope list_scope.

Section Registry.

Variable b64_utf8 : value -> pyres string.
Variable OPENAI_API_KEY : string.
Variable chat_completion : string -> list (string * value) -> pyres value.
Variable json_loads : string -> pyres value.
Variable append_row : append_request -> pyres value.
Variable format_exc : exn -> string.

Local Abbreviation lookup :=
  (get_node_handler b64_utf8 OPENAI_API_KEY chat_completion json_loads append_row).

Lemma unregistered_lookup (node_type : string) :
  node_type ∉ registered ->
  lookup node_type
  = Raise (ValueError ("Unknown node type: '" ++ node_type ++ "'. Supported: "
       ++ "['email_trigger', 'extract_content', 'summarize', 'google_sheets', 'response']")%string).
Proof.
  intros Hno. unfold get_node_handler, _HANDLERS. cbn [assoc].
  repeat match goal with
  | |- context [String.eqb ?a node_type] =>
      destruct (String.eqb_spec a node_type) as [<-|_];
        [exfalso; apply Hno; unfold registered; set_solver|]
  end.
  reflexivity.
Qed.

Lemma registered_lookup (node_type : string) :
  node_type ∈ registered -> exists h, lookup node_type = Ret h.
Proof.
  unfold registered. rewrite !elem_of_cons, elem_of_nil.
  intros [->|[->|[->|[->|[->|[]]]]]]; eexists; reflexivity.
Qed.

(** X13: a node whose type has no registered handler fails before any
    handler runs: its node run is [failed] with the [ValueError] that names
    the type and the five supported ones, its resolved data is recorded as
    input, and the context is left as it was. Every registered type finds
    its handler. *)
Theorem unknown_type_fails (context : list (string * value)) (node : WorkflowNode.t) :
  WorkflowNode.type node ∉ registered ->
  (forall node_type, node_type ∈ registered -> exists h, lookup node_type = Ret h)
  /\ exists resolved,
    interpolate_dict (default [] (WorkflowNode.data node)) context = Ret resolved
    /\ _execute_node lookup format_exc context node
       = (context,
          set_failed format_exc (set_input (new_node_run node) (VDict resolved))
            (ValueError ("Unknown node type: '" ++ WorkflowNode.type node
               ++ "'. Supported: "
               ++ "['email_trigger', 'extract_content', 'summarize', 'google_sheets', 'response']")%string)).
Proof.
  intros Hno. split; [exact registered_lookup|].
  destruct (interpolate_dict_total (default [] (WorkflowNode.data node)) context)
    as (resolved & Hres & _).
  exists resolved. split; [exact Hres|].
  unfold _execute_node. rewrite Hres, (unregistered_lookup _ Hno). reflexivity.
Qed.

End Registry.

(** X14: the email trigger needs a mapping as trigger payload: with one it
    always returns the six output fields, with anything else (a JSON array,
    string or number posted to the webhook) it raises [AttributeError]. *)
Theorem email_trigger_needs_mapping
    (data context trigger : list (string * value)) :
  dict_get context "trigger" (VDict []) = VDict trigger ->
  match dict_get trigger "body" (VDict []) with
  | VDict _ =>
      exists out,
        EmailTriggerNodeHandler data context = Ret (VDict [("output", VDict out)])
        /\ map fst out
           = ["subject"; "body"; "sender"; "attachments"; "received_at"; "raw"]%string
  | _ => EmailTriggerNodeHandler data context = Raise AttributeError
  end.
Proof.
  intros Ht. unfold EmailTriggerNodeHandler. rewrite Ht. cbn.
  destruct (dict_get trigger "body" (VDict [])) as [| | | | |tb]; try reflexivity.
  destruct (dict_find tb "body") as [[| | | | |inner]|]; cbn; eexists; split; reflexivity.
Qed.

(** X15: a payload that wraps a mapping under ["body"] is unwrapped one
    level: the trigger answers as it does for the inner mapping alone, so
    nothing else of the wrapper reaches the output. The inner mapping's own
    ["body"] must not be a mapping again. *)
Theorem email_trigger_unwraps_once
    (data context context' trigger trigger' wrapped inner : list (string * value)) :
  dict_get context "trigger" (VDict []) = VDict trigger ->
  dict_get trigger "body" (VDict []) = VDict wrapped ->
  dict_find wrapped "body" = Some (VDict inner) ->
  dict_get context' "trigger" (VDict []) = VDict trigger' ->
  dict_get trigger' "body" (VDict []) = VDict inner ->
  (forall x, dict_find inner "body" <> Some (VDict x)) ->
  EmailTriggerNodeHandler data context = EmailTriggerNodeHandler data context'.
Proof.
  intros Ht Hb Hw Ht' Hb' Hin. unfold EmailTriggerNodeHandler.
  rewrite Ht, Ht'. cbn. rewrite Hb, Hb'. cbn. rewrite Hw.
  destruct (dict_find inner "body") as [[| | | | |x]|] eqn:E; try reflexivity.
  destruct (Hin x eq_refl).
Qed.

Lemma chars_nil (s : string) : chars s = [] -> s = ""%string.
Proof. destruct s; [reflexivity|discriminate]. Qed.

Lemma row_values_nonempty (json_loads : string -> pyres value)
    (data : list (string * value)) (vals : list string) :
  row_values json_loads data = Ret vals -> vals <> [].
Proof.
  unfold row_values.
  set (t := match dict_get data "row_values" (VList []) with
            | VStr s => _ | _ => _ end). clearbody t.
  destruct (truthy t) eqn:Et; [|intros [= <-]; discriminate].
  destruct t as [| | |s|l|d]; cbn; try discriminate; intros [= <-].
  - destruct s; [discriminate Et|discriminate].
  - destruct l; [discriminate Et|discriminate].
  - destruct d; [discriminate Et|discriminate].
Qed.

(** X16: whenever the Google Sheets node returns a result, a request went
    upstream and it was well formed: the spreadsheet id is not empty, the
    sheet name is not empty, at least one of the two credentials is given,
    and the row holds at least one cell. *)
Theorem sheets_request_is_well_formed
    (json_loads : string -> pyres value) (append_row : append_request -> pyres value)
    (data context : list (string * value)) (out : value) :
  GoogleSheetsNodeHandler json_loads append_row data context = Ret out ->
  exists req,
    prepare json_loads data = Ret req /\ append_row req = Ret out
    /\ spreadsheet_id req <> ""%string
    /\ sheet_name req <> ""%string
    /\ (service_account_json req <> ""%string \/ bearer_token req <> ""%string)
    /\ values req <> [].
Proof.
  unfold GoogleSheetsNodeHandler.
  destruct (prepare json_loads data) as [req|e] eqn:Hp; [|discriminate].
  cbn. intros Hout. exists req. split; [reflexivity|]. split; [exact Hout|].
  unfold prepare in Hp.
  destruct (strip_of (dict_get data "spreadsheet_id" (VStr ""))) as [sid|]; [|discriminate].
  destruct (strip_of (dict_get data "sheet_name" (VStr "Sheet1"))) as [sheet|]; [|discriminate].
  destruct (strip_of (dict_get data "bearer_token" (VStr ""))) as [bearer|]; [|discriminate].
  destruct (strip_of (dict_get data "service_account_json" (VStr ""))) as [sa|];
    [|discriminate].
  cbn in Hp. destruct (String.eqb_spec sid "") as [|Hsid]; [discriminate|].
  destruct (row_values json_loads data) as [vals|] eqn:Hv; [|discriminate].
  cbn in Hp.
  destruct (String.eqb_spec sa "") as [|Hsa]; destruct (String.eqb_spec bearer "") as [|Hb];
    cbn in Hp; try discriminate; injection Hp as <-; cbn;
    (split; [exact Hsid|]);
    (split; [destruct (String.eqb_spec sheet ""); [discriminate|assumption]|]);
    (split; [tauto|]); exact (row_values_nonempty _ _ _ Hv).
Qed.

(** X17: whenever the summarize node returns a result, the chat call was
    made with a key that is not empty: the stripped [api_key] of the node
    data, or the configured key when that one is empty. *)
Theorem summarize_needs_key
    (OPENAI_API_KEY : string) (chat_completion : string -> list (string * value) -> pyres value)
    (data context : list (string * value)) (out : value) :
  SummarizeNodeHandler OPENAI_API_KEY chat_completion data context = Ret out ->
  exists configured api_key,
    dict_get data "api_key" (VStr "") = VStr configured
    /\ api_key = (if String.eqb (strip configured) "" then OPENAI_API_KEY
                  else strip configured)
    /\ api_key <> ""%string
    /\ chat_completion api_key data = Ret out.
Proof.
  unfold SummarizeNodeHandler.
  destruct (dict_get data "api_key" (VStr "")) as [| | |configured| |]; try discriminate.
  cbn. intros H. exists configured. eexists. split; [reflexivity|]. split; [reflexivity|].
  destruct (String.eqb_spec (if String.eqb (strip configured) "" then OPENAI_API_KEY
                             else strip configured) "") as [|Hne]; [discriminate|].
  split; [exact Hne|exact H].
Qed.

End HandlerExtras.

(** ** Reading a message *)

Module MessageExtras.
Import Py Handlers GmailMessage MessageVocabulary ExpressionFacts.
Local Open Scope list_scope.

Lemma getitem_header (n : string) (v : value) :
  getitem (header n v) "name" = Ret (VStr n) /\ getitem (header n v) "value" = Ret v.
Proof. split; reflexivity. Qed.

Lemma get_header_first (l : list (string * value)) (name : string) :
  _get_header (headers_of l) name = Ret (first_named (lower name) l).
Proof.
  induction l as [|[n v] r IH]; [reflexivity|].
  cbn [headers_of map fst snd first_named _get_header] in *.
  destruct (getitem_header n v) as [-> ->].
  cbn [mbind pyres_bind bind lower_of].
  destruct (String.eqb (lower n) (lower name)); [reflexivity|exact IH].
Qed.

Lemma first_named_recased (l l' : list (string * value)) (n : string) :
  recased l l' -> first_named n l = first_named n l'.
Proof.
  induction 1 as [|[a v] [a' v'] r r' [Hn Hv] _ IH]; [reflexivity|].
  cbn [fst snd] in Hn, Hv. cbn [first_named]. rewrite Hn, Hv, IH. reflexivity.
Qed.

(** X18: a header is looked up without regard to case, in the name asked
    for and in the names of the headers: the answer is the value of the
    first header whose lower-cased name is the lower-cased name asked for,
    [None] when there is none, and it does not change when names are
    written in another case. *)
Theorem header_lookup_ignores_case
    (l l' : list (string * value)) (name name' : string) :
  recased l l' -> lower name = lower name' ->
  _get_header (headers_of l) name = Ret (first_named (lower name) l)
  /\ _get_header (headers_of l') name' = _get_header (headers_of l) name.
Proof.
  intros Hl Hn. split; [apply get_header_first|].
  rewrite !get_header_first, <- Hn, (first_named_recased l l' _ Hl). reflexivity.
Qed.

(** X18 (witness) *)
Lemma header_lookup_ignores_case_witness :
  _get_header (headers_of [("To", VStr "a@x"); ("SUBJECT", VStr "Hi"); ("subject", VStr "Ho")])
              "Subject"
  = Ret (VStr "Hi")
  /\ _get_header (headers_of [("TO", VStr "a@x"); ("Subject", VStr "Hi");
                              ("Subject", VStr "Ho")]) "subject"
     = _get_header (headers_of [("To", VStr "a@x"); ("SUBJECT", VStr "Hi");
                                ("subject", VStr "Ho")]) "Subject".
Proof.
  apply (header_lookup_ignores_case
           [("To", VStr "a@x"); ("SUBJECT", VStr "Hi"); ("subject", VStr "Ho")]
           [("TO", VStr "a@x"); ("Subject", VStr "Hi"); ("Subject", VStr "Ho")]
           "Subject" "subject").
  - repeat constructor.
  - reflexivity.
Defined.

End MessageExtras.

(** ** The encryption key *)

Module EncryptionExtras.
Import Encryption.
Local Open Scope list_scope.

Lemma firstn_repeat_le {A : Type} (x : A) (n m : nat) :
  (n <= m)%nat -> firstn n (repeat x m) = repeat x n.
Proof.
  revert m. induction n as [|n IH]; intros [|m] Hle; try reflexivity; [lia|].
  cbn [repeat firstn]. rewrite IH by lia. reflexivity.
Qed.

(** X19: the key always has 32 bytes; bytes of the configured secret after
    the first 32 do not count, and a secret shorter than 32 bytes gives the
    key of the same secret followed by a zero byte. *)
Theorem key_is_32_bytes (raw : list Byte.byte) :
  length (key_bytes raw) = 32%nat
  /\ ((length raw < 32)%nat -> key_bytes (raw ++ [Byte.x00]) = key_bytes raw)
  /\ ((32 <= length raw)%nat -> forall tail, key_bytes (raw ++ tail) = key_bytes raw).
Proof.
  unfold key_bytes. split; [|split].
  - rewrite length_firstn, length_app, repeat_length. lia.
  - intros Hlt. rewrite <- app_assoc.
    change ([Byte.x00] ++ repeat Byte.x00 32) with (repeat Byte.x00 33).
    rewrite !firstn_app. f_equal.
    remember (32 - length raw)%nat as n eqn:En.
    assert (Hn : (n <= 32)%nat) by lia. clear -Hn.
    rewrite !firstn_repeat_le by lia. reflexivity.
  - intros Hge tail. rewrite <- app_assoc. rewrite !firstn_app.
    replace (32 - length raw)%nat with 0%nat by lia. cbn [firstn]. reflexivity.
Qed.

(** X19 (witness): a two-byte secret and the same secret with a zero byte
    appended. *)
Lemma key_is_32_bytes_witness :
  (length [Byte.x61; Byte.x62] < 32)%nat
  /\ key_bytes ([Byte.x61; Byte.x62] ++ [Byte.x00]) = key_bytes [Byte.x61; Byte.x62].
Proof.
  split; [cbn; lia|].
  apply (proj1 (proj2 (key_is_32_bytes [Byte.x61; Byte.x62]))). cbn; lia.
Defined.

End EncryptionExtras.

(** ** Attachments and body of a message *)

Module PartExtras.
Import Py Handlers GmailMessage MessageVocabulary AttachmentVocabulary ExpressionFacts.
Local Open Scope list_scope.

Local Abbreviation all_recorded v :=
  (forall atts, _get_attachments v = Ret atts -> Forall recorded atts).

Lemma attachments_recorded (v : value) :
  all_recorded v /\ match v with VList l => Forall (fun x => all_recorded x) l | _ => True end.
Proof.
  induction v as [| | | |l IH|d IH] using value_nested_ind;
    try (split; [intros atts; discriminate|exact I]).
  - split; [intros atts; discriminate|].
    eapply Forall_impl; [exact IH|]. intros x [Hx _]. exact Hx.
  - split; [|exact I]. cbn [_get_attachments].
    induction IH as [|[k parts] rest Hp _ IHd]; intros atts.
    + intros [= <-]. constructor.
    + destruct (String.eqb k "parts"); [|apply IHd].
      cbn [snd] in Hp. destruct Hp as [_ Hl].
      destruct parts as [| | |s|l|d']; try discriminate.
      * destruct s; cbn; [intros [= <-]; constructor|intros; discriminate].
      * revert atts. induction Hl as [|part l' Hpart _ IHl]; intros atts.
        { intros [= <-]. constructor. }
        destruct part as [| | | | |pd]; try discriminate.
        cbn [get_of mbind pyres_bind bind].
        destruct (truthy (dict_get pd "filename" VNone)) eqn:Ef.
        -- assert (Hf : exists filename,
                      getitem (VDict pd) "filename" = Ret filename
                      /\ truthy filename = true).
           { unfold getitem. unfold dict_get in Ef.
             destruct (dict_find pd "filename") as [filename|]; [eauto|discriminate Ef]. }
           destruct Hf as (filename & -> & Hf).
           cbn [mbind pyres_bind bind].
           destruct (getitem (VDict pd) "mimeType") as [mime_type|];
             cbn [mbind pyres_bind bind]; [|discriminate].
           destruct (body_get (VDict pd) "size" (VInt 0)) as [size|];
             cbn [mbind pyres_bind bind]; [|discriminate].
           destruct (body_get (VDict pd) "attachmentId" VNone) as [attachment_id|];
             cbn [mbind pyres_bind bind]; [|discriminate].
           match goal with |- context [?f l'] =>
             destruct (f l') as [more|] eqn:Em; cbn [mbind pyres_bind bind];
               [|discriminate] end.
           cbn. intros [= <-]. constructor; [|apply IHl; reflexivity].
           exists filename, mime_type, size, attachment_id. auto.
        -- destruct (has_key (VDict pd) "parts"); [|apply IHl].
           destruct (_get_attachments (VDict pd)) as [inner|] eqn:Ei;
             cbn [mbind pyres_bind bind]; [|discriminate].
           match goal with |- context [?f l'] =>
             destruct (f l') as [more|] eqn:Em; cbn [mbind pyres_bind bind];
               [|discriminate] end.
           cbn. intros [= <-]. apply Forall_app. split; [apply Hpart; reflexivity|].
           apply IHl. reflexivity.
      * destruct d'; cbn; [intros [= <-]; constructor|discriminate].
Qed.

(** X20: every attachment read from a message is a mapping of exactly the
    four fields [filename], [mime_type], [size] and [attachment_id], with a
    file name that counts as true; it has no [content], so the extract
    step renders it as the one line [[Attachment: {filename}]], whatever
    the decoder would do. *)
Theorem attachments_carry_no_content (payload : value) (atts : list value) :
  _get_attachments payload = Ret atts ->
  Forall (fun att =>
            recorded att
            /\ forall b64_utf8,
                 attachment_text b64_utf8 att
                 = Some ("[Attachment: " ++ py_str (filename_of att) ++ "]")%string) atts.
Proof.
  intros H. eapply Forall_impl; [exact (proj1 (attachments_recorded payload) atts H)|].
  intros att Hrec. split; [exact Hrec|].
  destruct Hrec as (filename & mime_type & size & attachment_id & -> & _).
  intros b64_utf8. reflexivity.
Qed.

Section Body.

Variable urlsafe_b64decode_utf8 : value -> pyres string.
Hypothesis decodes : forall data, exists s, urlsafe_b64decode_utf8 data = Ret s.

Local Abbreviation body_of := (_get_message_body urlsafe_b64decode_utf8).

(** X21: among parts without sub-parts, a [text/plain] part with data
    decides the body: whatever stands before it (HTML parts included) and
    after it, the body is the decoded data of the first such part. *)
Theorem plain_part_wins
    (d body : list (string * value)) (before after : list value) (part : value) :
  dict_find d "parts" = Some (VList (before ++ part :: after)) ->
  Forall passed_over before ->
  leaf "text/plain" body part ->
  truthy (dict_get body "data" (VStr "")) = true ->
  body_of (VDict d) = urlsafe_b64decode_utf8 (dict_get body "data" (VStr "")).
Proof.
  intros Hd Hbefore Hleaf Hdata. cbn [_get_message_body].
  generalize (VDict d) at 1. intros payload.
  induction d as [|[k parts] rest IHd]; [discriminate|].
  cbn [dict_find] in Hd. destruct (String.eqb k "parts"); [|apply IHd, Hd].
  injection Hd as ->. clear IHd.
  match goal with |- ?f _ ""%string = _ => enough (Hall : forall b, f (before ++ part :: after) b = urlsafe_b64decode_utf8 (dict_get body "data" (VStr ""))) by apply Hall end.
  induction Hbefore as [|p before' Hp _ IH]; intros b.
  - destruct Hleaf as (p & -> & Hmime & Hbody & _).
    assert (Hm : getitem (VDict p) "mimeType" = Ret (VStr "text/plain"))
      by (unfold getitem; rewrite Hmime; reflexivity).
    assert (Hget : body_get (VDict p) "data" (VStr "") = Ret (dict_get body "data" (VStr "")))
      by (unfold body_get, getitem; rewrite Hbody; reflexivity).
    cbn [app]. rewrite Hm. cbn [mbind pyres_bind bind is_str].
    cbn [String.eqb Ascii.eqb Bool.eqb]. rewrite Hget.
    cbn [mbind pyres_bind bind]. rewrite Hdata. reflexivity.
  - destruct Hp as (mime & bd & (pp & -> & Hmime & Hbody & Hparts) & Hplain).
    assert (Hm : getitem (VDict pp) "mimeType" = Ret (VStr mime))
      by (unfold getitem; rewrite Hmime; reflexivity).
    assert (Hget : forall k dflt, body_get (VDict pp) k dflt = Ret (dict_get bd k dflt)).
    { intros k' dflt. unfold body_get, getitem. rewrite Hbody. reflexivity. }
    cbn [app]. rewrite Hm. cbn [mbind pyres_bind bind is_str].
    destruct (String.eqb_spec mime "text/plain") as [Heq|Hne].
    + rewrite Hget. cbn [mbind pyres_bind bind]. rewrite (Hplain Heq). apply IH.
    + destruct (String.eqb mime "text/html" && String.eqb b "").
      * rewrite Hget. cbn [mbind pyres_bind bind].
        destruct (truthy (dict_get bd "data" (VStr ""))); [|apply IH].
        destruct (decodes (dict_get bd "data" (VStr ""))) as [s ->].
        cbn [mbind pyres_bind bind]. apply IH.
      * unfold has_key. rewrite Hparts. apply IH.
Qed.

End Body.

End PartExtras.

(** ** Polling every integration *)

Module PollerLoopExtras.
Import Py GmailPoller PollerLoop.
Local Open Scope list_scope.

Local Ltac poll_cases w :=
  match goal with
  | |- context [list_messages w ?q ?n] => destruct (list_messages w q n) as [[|? ?]|]
  end;
  cbn [fst snd];
  try match goal with
      | |- context [_trigger_workflows w ?ms] => destruct (_trigger_workflows w ms)
      end;
  cbn [fst snd].

Lemma poll_frame (w : world) (k k' : string) (lc : gmap string Z) :
  k' <> k -> (_poll_integration w k lc).1.1 !! k' = lc !! k'.
Proof.
  intros Hne. unfold _poll_integration.
  destruct (credentials w); [|reflexivity].
  destruct (lc !! k); unfold GmailService.get_messages_since, GmailService.get_unread_messages;
    poll_cases w; try reflexivity; apply lookup_insert_ne; congruence.
Qed.

Lemma poll_local (w : world) (k : string) (lc lc' : gmap string Z) :
  lc !! k = lc' !! k ->
  (_poll_integration w k lc).1.2 = (_poll_integration w k lc').1.2
  /\ (_poll_integration w k lc).2 = (_poll_integration w k lc').2
  /\ (_poll_integration w k lc).1.1 !! k = (_poll_integration w k lc').1.1 !! k.
Proof.
  intros Heq. unfold _poll_integration.
  destruct (credentials w); [|cbn; auto].
  pose proof Heq as Hk. rewrite <- Heq.
  destruct (lc !! k) eqn:E;
    unfold GmailService.get_messages_since, GmailService.get_unread_messages;
    poll_cases w; rewrite ?lookup_insert_eq, ?E; auto.
Qed.

Lemma poll_all_spec (integrations : list (string * world)) :
  forall lc lc0 : gmap string Z,
    NoDup (map fst integrations) ->
    (forall k, k ∈ map fst integrations -> lc !! k = lc0 !! k) ->
    Forall2 (fun kw lr =>
               lr.1 = (_poll_integration kw.2 kw.1 lc0).1.2
               /\ lr.2 = (_poll_integration kw.2 kw.1 lc0).2
               /\ (_poll_all_gmail_integrations integrations lc).1 !! kw.1
                  = (_poll_integration kw.2 kw.1 lc0).1.1 !! kw.1)
            integrations (_poll_all_gmail_integrations integrations lc).2
    /\ forall k, k ∉ map fst integrations ->
         (_poll_all_gmail_integrations integrations lc).1 !! k = lc !! k.
Proof.
  induction integrations as [|[k w] rest IH]; intros lc lc0 Hnd Hagree.
  - split; [constructor|reflexivity].
  - cbn [map fst] in Hnd, Hagree. apply NoDup_cons in Hnd as [Hk Hnd].
    cbn [_poll_all_gmail_integrations].
    destruct (_poll_integration w k lc) as [[lc' log] result] eqn:Ep.
    assert (Hframe : forall k', k' <> k -> lc' !! k' = lc !! k').
    { intros k' Hne. pose proof (poll_frame w k k' lc Hne) as H. rewrite Ep in H. exact H. }
    destruct (poll_local w k lc lc0) as (Hlog & Hres & Hkey).
    { apply Hagree. left. }
    rewrite Ep in Hlog, Hres, Hkey. cbn [fst snd] in Hlog, Hres, Hkey.
    destruct (IH lc' lc0 Hnd) as [Hall Hout].
    { intros k' Hin. rewrite Hframe by (intros ->; contradiction).
      apply Hagree. right. exact Hin. }
    destruct (_poll_all_gmail_integrations rest lc') as [final logs] eqn:Er.
    cbn [fst snd] in *. split.
    + constructor.
      * cbn [fst snd]. split; [exact Hlog|]. split; [exact Hres|].
        rewrite (Hout k Hk). exact Hkey.
      * exact Hall.
    + intros k' Hno. cbn [map fst] in Hno. rewrite not_elem_of_cons in Hno. destruct Hno as [Hne Hno].
      rewrite (Hout k' Hno). apply Hframe, Hne.
Qed.

(** X22: integrations are polled independently of each other: with
    distinct keys, each integration's calls, its result and its new
    [last_check] entry are those of polling it alone from the state at the
    start of the pass, whether or not another integration failed, and no
    other entry of [last_check] changes. *)
Theorem polls_are_independent
    (integrations : list (string * world)) (last_check : gmap string Z) :
  NoDup (map fst integrations) ->
  Forall2 (fun kw lr =>
             lr.1 = (_poll_integration kw.2 kw.1 last_check).1.2
             /\ lr.2 = (_poll_integration kw.2 kw.1 last_check).2
             /\ (_poll_all_gmail_integrations integrations last_check).1 !! kw.1
                = (_poll_integration kw.2 kw.1 last_check).1.1 !! kw.1)
          integrations (_poll_all_gmail_integrations integrations last_check).2
  /\ forall k, k ∉ map fst integrations ->
       (_poll_all_gmail_integrations integrations last_check).1 !! k = last_check !! k.
Proof. intros Hnd. apply poll_all_spec; auto. Qed.

End PollerLoopExtras.

(** ** Dispatching messages *)

Module DispatchExtras.
Import Py Handlers Executor GmailDispatch.
Local Open Scope list_scope.

Lemma listens_spec (integration_id : string) (node : WorkflowNode.t) :
  listens integration_id node = true <->
  WorkflowNode.type node = "email_trigger"%string
  /\ exists data config,
       WorkflowNode.data node = Some data
       /\ dict_find data "trigger_config" = Some (VDict config)
       /\ dict_find config "integration_id" = Some (VStr integration_id).
Proof.
  unfold listens. destruct (String.eqb_spec (WorkflowNode.type node) "email_trigger") as [Ht|Ht].
  - unfold dict_get. split.
    + intros H. split; [exact Ht|]. revert H.
      destruct (WorkflowNode.data node) as [data|]; cbn [default from_option id];
        [|discriminate].
      destruct (dict_find data "trigger_config") as [[| | | | |config]|] eqn:Ec;
        cbn [dict_find]; try discriminate.
      destruct (dict_find config "integration_id") as [[| | |s| |]|] eqn:Ei;
        try discriminate.
      intros H. apply String.eqb_eq in H. subst s. exists data, config. auto.
    + intros (_ & data & config & Hd & Hc & Hi). rewrite Hd. cbn [default from_option id].
      rewrite Hc, Hi. apply String.eqb_refl.
  - split; [discriminate|]. intros [H _]. contradiction.
Qed.

Lemma any_listens_spec (integration_id : string) (nodes : list WorkflowNode.t) :
  any_listens integration_id nodes = true <->
  exists node, node ∈ nodes /\ listens integration_id node = true.
Proof.
  induction nodes as [|n r IH]; cbn [any_listens].
  - split; [discriminate|]. intros (x & Hx & _). inversion Hx.
  - destruct (listens integration_id n) eqn:E.
    + split; [|reflexivity]. intros _. exists n. split; [left|exact E].
    + rewrite IH. split; intros (x & Hx & Hl).
      * exists x. split; [right; exact Hx|exact Hl].
      * apply elem_of_cons in Hx as [->|Hx]; [congruence|eauto].
Qed.

Lemma gmail_workflows_spec (integration_id : string) (workflows : list Workflow.t)
    (workflow : Workflow.t) :
  workflow ∈ gmail_workflows integration_id workflows <->
  workflow ∈ workflows /\ any_listens integration_id (Workflow.nodes workflow) = true.
Proof.
  induction workflows as [|w r IH]; cbn [gmail_workflows].
  - split; [intros H; inversion H|intros [H _]; inversion H].
  - destruct (any_listens integration_id (Workflow.nodes w)) eqn:E.
    + rewrite !elem_of_cons, IH. split; [intros [->|[? ?]]; auto|tauto].
    + rewrite elem_of_cons, IH. split; [tauto|]. intros [[->|?] ?]; [congruence|auto].
Qed.

Section Dispatch.

Variable get_node_handler : string -> pyres handler.
Variable format_exc : exn -> string.
Variable set_iter : list string -> list string.

Lemma run_nodes_record (nodes_map : list (string * WorkflowNode.t)) (sorted : list string) :
  forall run context node_runs,
    let run' := (run_nodes get_node_handler format_exc nodes_map sorted
                   run context node_runs).1.1 in
    WorkflowRun.workflow_id run' = WorkflowRun.workflow_id run
    /\ WorkflowRun.trigger_type run' = WorkflowRun.trigger_type run
    /\ WorkflowRun.input_payload run' = WorkflowRun.input_payload run.
Proof.
  induction sorted as [|k rest IH]; intros run context node_runs; [cbn; auto|].
  cbn [run_nodes]. destruct (assoc nodes_map k) as [node|]; [|apply IH].
  destruct (_execute_node get_node_handler format_exc context node) as [context' nr].
  destruct (NodeRun.status nr); try apply IH. cbn. auto.
Qed.

Lemma execute_record (workflow : Workflow.t) (payload : value) (trigger_type : string)
    (run : WorkflowRun.t) (node_runs : list NodeRun.t) :
  execute get_node_handler format_exc set_iter workflow payload trigger_type
    = Some (run, node_runs) ->
  WorkflowRun.workflow_id run = Workflow.id workflow
  /\ WorkflowRun.trigger_type run = trigger_type
  /\ WorkflowRun.input_payload run = payload.
Proof.
  unfold execute.
  destruct (_topological_sort _ _) as [sorted|]; [|discriminate]. cbn [mbind option_bind].
  match goal with
  | |- context [run_nodes _ _ ?m sorted ?r ?c []] =>
      pose proof (run_nodes_record m sorted r c []) as Hrec;
      destruct (run_nodes get_node_handler format_exc m sorted r c [])
        as [[run' context'] nrs]
  end.
  cbn [fst snd] in Hrec. cbn in Hrec. destruct Hrec as (H1 & H2 & H3).
  intros [= <- <-]. destruct (WorkflowRun.status run'); cbn; auto.
Qed.

Lemma for_workflows_spec (integration_id : string) (message : value)
    (workflows : list Workflow.t) r :
  r ∈ for_workflows get_node_handler format_exc set_iter integration_id message workflows ->
  exists workflow, workflow ∈ workflows
    /\ r = trigger_one get_node_handler format_exc set_iter integration_id message workflow.
Proof.
  induction workflows as [|w rest IH]; cbn [for_workflows]; [intros H; inversion H|].
  rewrite elem_of_cons. intros [->|H].
  - exists w. split; [left|reflexivity].
  - destruct (IH H) as (x & Hx & ->). exists x. split; [right; exact Hx|reflexivity].
Qed.

Lemma for_messages_spec (integration_id : string) (messages : list value)
    (workflows : list Workflow.t) r :
  r ∈ for_messages get_node_handler format_exc set_iter integration_id messages workflows ->
  exists message workflow, message ∈ messages /\ workflow ∈ workflows
    /\ r = trigger_one get_node_handler format_exc set_iter integration_id message workflow.
Proof.
  induction messages as [|m rest IH]; cbn [for_messages]; [intros H; inversion H|].
  rewrite elem_of_app. intros [H|H].
  - destruct (for_workflows_spec _ _ _ _ H) as (w & Hw & ->).
    exists m, w. split; [left|auto].
  - destruct (IH H) as (m' & w & Hm & Hw & ->). exists m', w. split; [right; exact Hm|auto].
Qed.

Lemma for_workflows_length (integration_id : string) (message : value)
    (workflows : list Workflow.t) :
  length (for_workflows get_node_handler format_exc set_iter integration_id message workflows)
  = length workflows.
Proof.
  induction workflows as [|w r IH]; [reflexivity|].
  cbn [for_workflows length]. rewrite IH. reflexivity.
Qed.

Lemma for_messages_length (integration_id : string) (messages : list value)
    (workflows : list Workflow.t) :
  length (for_messages get_node_handler format_exc set_iter integration_id messages workflows)
  = (length messages * length workflows)%nat.
Proof.
  induction messages as [|m rest IH]; [reflexivity|].
  cbn [for_messages length Nat.mul]. rewrite length_app, IH, for_workflows_length.
  reflexivity.
Qed.

(** X23: mail of an integration starts runs only of workflows that listen
    to it. Every run started by [_trigger_workflows] belongs to one of the
    user's published workflows that has an [email_trigger] node whose
    [trigger_config.integration_id] is the integration's id, is of trigger
    type [gmail] and carries the payload built from one of the messages;
    and there is one pass per message and listening workflow. *)
Theorem dispatch_only_to_listeners
    (integration_id : string) (workflows : list Workflow.t) (messages : list value) :
  length (_trigger_workflows get_node_handler format_exc set_iter
            integration_id workflows messages)
  = (length messages * length (gmail_workflows integration_id workflows))%nat
  /\ forall run node_runs,
       Ret (Some (run, node_runs))
         ∈ _trigger_workflows get_node_handler format_exc set_iter
             integration_id workflows messages ->
       exists workflow message payload node data config,
         workflow ∈ workflows /\ message ∈ messages
         /\ trigger_payload integration_id message = Ret payload
         /\ WorkflowRun.workflow_id run = Workflow.id workflow
         /\ WorkflowRun.trigger_type run = "gmail"%string
         /\ WorkflowRun.input_payload run = payload
         /\ node ∈ Workflow.nodes workflow
         /\ WorkflowNode.type node = "email_trigger"%string
         /\ WorkflowNode.data node = Some data
         /\ dict_find data "trigger_config" = Some (VDict config)
         /\ dict_find config "integration_id" = Some (VStr integration_id).
Proof.
  unfold _trigger_workflows. split.
  - destruct (gmail_workflows integration_id workflows) eqn:E.
    + cbn. lia.
    + apply for_messages_length.
  - intros run node_runs Hin.
    assert (Hin' : Ret (Some (run, node_runs))
                     ∈ for_messages get_node_handler format_exc set_iter integration_id
                         messages (gmail_workflows integration_id workflows)).
    { destruct (gmail_workflows integration_id workflows); [inversion Hin|exact Hin]. }
    destruct (for_messages_spec _ _ _ _ Hin') as (message & workflow & Hm & Hw & Heq).
    apply gmail_workflows_spec in Hw as [Hw Hany].
    apply any_listens_spec in Hany as (node & Hnode & Hl).
    apply listens_spec in Hl as (Hty & data & config & Hd & Hc & Hi).
    unfold trigger_one in Heq.
    destruct (trigger_payload integration_id message) as [payload|] eqn:Ep;
      [|discriminate Heq].
    cbn in Heq. injection Heq as Heq. symmetry in Heq.
    destruct (execute_record _ _ _ _ _ Heq) as (H1 & H2 & H3).
    exists workflow, message, payload, node, data, config.
    repeat (split; [first [assumption|reflexivity]|]).
    assumption.
Qed.

End Dispatch.

(** X24: what the poller sends for a message is what the email trigger
    gives out. For a message that is a mapping, the trigger's output takes
    subject, body and sender from the message (the node's test values when
    they are missing or empty), attachments and the time of receipt as
    well, and [raw] is the eleven-field mapping built by the poller; the
    wrapper's [trigger_type] and [integration_id] are not part of it. *)
Theorem gmail_message_reaches_trigger
    (integration_id : string) (message data context trigger : list (string * value))
    (payload : value) :
  trigger_payload integration_id (VDict message) = Ret payload ->
  dict_get context "trigger" (VDict []) = VDict trigger ->
  dict_get trigger "body" (VDict []) = payload ->
  exists out raw,
    EmailTriggerNodeHandler data context = Ret (VDict [("output", VDict out)])
    /\ dict_find out "subject"
       = Some (py_or (dict_get message "subject" VNone)
                     (dict_get data "test_subject" (VStr "(No Subject)")))
    /\ dict_find out "body"
       = Some (py_or (dict_get message "body" VNone)
                     (dict_get data "test_body" (VStr "(No Body)")))
    /\ dict_find out "sender"
       = Some (py_or (dict_get message "sender" VNone)
                     (dict_get data "test_sender" (VStr "unknown@example.com")))
    /\ dict_find out "attachments"
       = Some (py_or (dict_get message "attachments" (VList [])) (VList []))
    /\ dict_find out "received_at"
       = Some (py_or (dict_get message "received_at" VNone) (VStr ""))
    /\ dict_find out "raw" = Some (VDict raw)
    /\ map fst raw
       = ["message_id"; "thread_id"; "subject"; "sender"; "to"; "body"; "email_content";
          "attachments"; "received_at"; "snippet"; "labels"]%string.
Proof.
  intros Hp Ht Hb. cbn in Hp. injection Hp as <-.
  unfold EmailTriggerNodeHandler. rewrite Ht. cbn [mbind pyres_bind bind mret pyres_ret get_of].
  rewrite Hb. cbn [dict_find String.eqb Ascii.eqb Bool.eqb].
  cbn [mbind pyres_bind bind mret pyres_ret get_of dict_get dict_find
       String.eqb Ascii.eqb Bool.eqb].
  eexists _, _. split; [reflexivity|].
  cbn [dict_find String.eqb Ascii.eqb Bool.eqb]. unfold py_or.
  repeat (split; [reflexivity|]). reflexivity.
Qed.

End DispatchExtras.

(** ** Scenarios for the properties above *)

Module ExtraWitnesses.
Import Py Handlers Executor GmailPoller Scenarios Vocabulary RunVocabulary.
Import GmailMessage GmailDispatch PollerLoop MessageVocabulary AttachmentVocabulary.
Import HandlerExtras PartExtras PollerLoopExtras DispatchExtras.
Local Open Scope list_scope.

(** X13 (witness): a node of type [http_request]. *)
Lemma unknown_type_fails_witness :
  exists resolved,
    Expression.interpolate_dict [] [] = Ret resolved
    /\ _execute_node registry format_exc [] (node "N" "http_request" [])
       = ([], set_failed format_exc
                (set_input (new_node_run (node "N" "http_request" [])) (VDict resolved))
                (ValueError ("Unknown node type: 'http_request'. Supported: "
                   ++ "['email_trigger', 'extract_content', 'summarize', 'google_sheets', 'response']")%string)).
Proof.
  assert (Hno : WorkflowNode.type (node "N" "http_request" []) ∉ registered).
  { unfold registered. cbn. rewrite !not_elem_of_cons. repeat split; try discriminate.
    apply not_elem_of_nil. }
  exact (proj2 (unknown_type_fails (fun _ => offline) "" (fun _ _ => offline)
                  (fun _ => Raise (ValueError "Expecting value")) (fun _ => offline)
                  format_exc [] (node "N" "http_request" []) Hno)).
Defined.

(** X14 (witness): a JSON array posted to the webhook. *)
Lemma email_trigger_needs_mapping_witness :
  EmailTriggerNodeHandler []
    [("trigger", VDict [("body", VList [VInt 1]); ("type", VStr "webhook")])]
  = Raise AttributeError.
Proof.
  exact (email_trigger_needs_mapping []
           [("trigger", VDict [("body", VList [VInt 1]); ("type", VStr "webhook")])]
           [("body", VList [VInt 1]); ("type", VStr "webhook")] eq_refl).
Defined.

(** X15 (witness): a wrapped and a bare mapping with a subject. *)
Lemma email_trigger_unwraps_once_witness :
  EmailTriggerNodeHandler []
    [("trigger", VDict [("body", VDict [("trigger_type", VStr "gmail");
                                        ("body", VDict [("subject", VStr "Hi")])]);
                        ("type", VStr "gmail")])]
  = EmailTriggerNodeHandler []
      [("trigger", VDict [("body", VDict [("subject", VStr "Hi")]);
                          ("type", VStr "webhook")])].
Proof.
  apply (email_trigger_unwraps_once [] _ _
           [("body", VDict [("trigger_type", VStr "gmail");
                            ("body", VDict [("subject", VStr "Hi")])]);
            ("type", VStr "gmail")]
           [("body", VDict [("subject", VStr "Hi")]); ("type", VStr "webhook")]
           [("trigger_type", VStr "gmail"); ("body", VDict [("subject", VStr "Hi")])]
           [("subject", VStr "Hi")]); try reflexivity.
  intros x. discriminate.
Defined.

(** X16 (witness): a spreadsheet id with blanks around it and a bearer
    token. *)
Lemma sheets_request_is_well_formed_witness :
  exists req,
    prepare loads [("spreadsheet_id", VStr " abc "); ("bearer_token", VStr "tok")] = Ret req
    /\ (fun req => Ret (VStr (spreadsheet_id req))) req = Ret (VStr "abc")
    /\ spreadsheet_id req <> ""%string
    /\ sheet_name req <> ""%string
    /\ (service_account_json req <> ""%string \/ bearer_token req <> ""%string)
    /\ values req <> [].
Proof.
  apply (sheets_request_is_well_formed loads (fun req => Ret (VStr (spreadsheet_id req)))
           [("spreadsheet_id", VStr " abc "); ("bearer_token", VStr "tok")] []).
  reflexivity.
Defined.

(** X17 (witness): a key configured in the node. *)
Lemma summarize_needs_key_witness :
  exists configured api_key,
    dict_get [("api_key", VStr " sk ")] "api_key" (VStr "") = VStr configured
    /\ api_key = (if String.eqb (strip configured) "" then ""%string else strip configured)
    /\ api_key <> ""%string
    /\ (fun key _ => Ret (VStr key)) api_key [("api_key", VStr " sk ")] = Ret (VStr "sk").
Proof.
  apply (summarize_needs_key "" (fun key _ => Ret (VStr key)) [("api_key", VStr " sk ")] []).
  reflexivity.
Defined.

(** X20 (witness): a text part and a PDF. *)
Lemma attachments_carry_no_content_witness :
  Forall (fun att =>
            recorded att
            /\ forall b64_utf8,
                 attachment_text b64_utf8 att
                 = Some ("[Attachment: " ++ py_str (filename_of att) ++ "]")%string)
    [VDict [("filename", VStr "a.pdf"); ("mime_type", VStr "application/pdf");
            ("size", VInt 10); ("attachment_id", VStr "att-1")]].
Proof.
  apply (attachments_carry_no_content
           (VDict [("mimeType", VStr "multipart/mixed");
                   ("parts", VList [
                      VDict [("mimeType", VStr "text/plain");
                             ("body", VDict [("data", VStr "aGk=")])];
                      VDict [("filename", VStr "a.pdf");
                             ("mimeType", VStr "application/pdf");
                             ("body", VDict [("attachmentId", VStr "att-1");
                                             ("size", VInt 10)])]])])).
  reflexivity.
Defined.

(** X21 (witness): an HTML part before the plain one. *)
Lemma plain_part_wins_witness :
  _get_message_body (fun data => Ret (py_str data))
    (VDict [("mimeType", VStr "multipart/alternative");
            ("parts", VList [
               VDict [("mimeType", VStr "text/html");
                      ("body", VDict [("data", VStr "<p>hi</p>")])];
               VDict [("mimeType", VStr "text/plain");
                      ("body", VDict [("data", VStr "hi")])]])])
  = Ret "hi"%string.
Proof.
  apply (plain_part_wins (fun data => Ret (py_str data))
           (fun data => ex_intro _ (py_str data) eq_refl)
           _ [("data", VStr "hi")]
           [VDict [("mimeType", VStr "text/html");
                   ("body", VDict [("data", VStr "<p>hi</p>")])]]
           []
           (VDict [("mimeType", VStr "text/plain");
                   ("body", VDict [("data", VStr "hi")])])).
  - reflexivity.
  - constructor; [|constructor].
    exists "text/html"%string, [("data", VStr "<p>hi</p>")]. split; [|discriminate].
    eexists. repeat split; reflexivity.
  - eexists. repeat split; reflexivity.
  - reflexivity.
Defined.

(** X22 (witness): an integration whose mailbox cannot be reached, polled
    before one that answers. *)
Lemma polls_are_independent_witness :
  let integrations := [("int-1"%string, down); ("int-2"%string, up 100 (Ret tt))] in
  Forall2 (fun kw lr =>
             lr.1 = (_poll_integration kw.2 kw.1 ∅).1.2
             /\ lr.2 = (_poll_integration kw.2 kw.1 ∅).2
             /\ (_poll_all_gmail_integrations integrations ∅).1 !! kw.1
                = (_poll_integration kw.2 kw.1 ∅).1.1 !! kw.1)
          integrations (_poll_all_gmail_integrations integrations ∅).2
  /\ forall k, k ∉ map fst integrations ->
       (_poll_all_gmail_integrations integrations ∅).1 !! k = (∅ : gmap string Z) !! k.
Proof.
  apply (polls_are_independent [("int-1"%string, down); ("int-2"%string, up 100 (Ret tt))] ∅).
  apply (bool_decide_unpack _). vm_compute. exact I.
Defined.

(** X24 (witness): a message with a subject, a body and a sender. *)
Lemma gmail_message_reaches_trigger_witness :
  exists out raw,
    EmailTriggerNodeHandler []
      [("trigger",
        VDict [("body",
                VDict [("trigger_type", VStr "gmail"); ("integration_id", VStr "int-1");
                       ("body",
                        VDict [("message_id", VNone); ("thread_id", VNone);
                               ("subject", VStr "Hi"); ("sender", VStr "a@x");
                               ("to", VNone); ("body", VStr "text");
                               ("email_content", VStr "text");
                               ("attachments", VList []); ("received_at", VNone);
                               ("snippet", VNone); ("labels", VList [])])]);
               ("type", VStr "gmail")])]
    = Ret (VDict [("output", VDict out)])
    /\ dict_find out "subject" = Some (VStr "Hi")
    /\ dict_find out "body" = Some (VStr "text")
    /\ dict_find out "sender" = Some (VStr "a@x")
    /\ dict_find out "attachments" = Some (VList [])
    /\ dict_find out "received_at" = Some (VStr "")
    /\ dict_find out "raw" = Some (VDict raw)
    /\ map fst raw
       = ["message_id"; "thread_id"; "subject"; "sender"; "to"; "body"; "email_content";
          "attachments"; "received_at"; "snippet"; "labels"]%string.
Proof.
  exact (gmail_message_reaches_trigger "int-1"
           [("subject", VStr "Hi"); ("body", VStr "text"); ("sender", VStr "a@x")] []
           [("trigger", VDict [("body", VDict [("trigger_type", VStr "gmail"); ("integration_id", VStr "int-1");
                   ("body",
                    VDict [("message_id", VNone); ("thread_id", VNone);
                           ("subject", VStr "Hi"); ("sender", VStr "a@x");
                           ("to", VNone); ("body", VStr "text");
                           ("email_content", VStr "text");
                           ("attachments", VList []); ("received_at", VNone);
                           ("snippet", VNone); ("labels", VList [])])]); ("type", VStr "gmail")])]
           [("body", VDict [("trigger_type", VStr "gmail"); ("integration_id", VStr "int-1");
                   ("body",
                    VDict [("message_id", VNone); ("thread_id", VNone);
                           ("subject", VStr "Hi"); ("sender", VStr "a@x");
                           ("to", VNone); ("body", VStr "text");
                           ("email_content", VStr "text");
                           ("attachments", VList []); ("received_at", VNone);
                           ("snippet", VNone); ("labels", VList [])])]); ("type", VStr "gmail")]
           (VDict [("trigger_type", VStr "gmail"); ("integration_id", VStr "int-1");
                   ("body",
                    VDict [("message_id", VNone); ("thread_id", VNone);
                           ("subject", VStr "Hi"); ("sender", VStr "a@x");
                           ("to", VNone); ("body", VStr "text");
                           ("email_content", VStr "text");
                           ("attachments", VList []); ("received_at", VNone);
                           ("snippet", VNone); ("labels", VList [])])])
           eq_refl eq_refl eq_refl).
Defined.

End ExtraWitnesses.

(** ** The resolver on the interpreter's objects *)

Module InterpreterFacts.
Import Py Re Interpreter ExpressionFacts.
Local Open Scope list_scope.

(** *** Nothing is written: the store only grows *)

Lemma traverse_grows {A B : Type} (f : A -> store -> store * pyres B) (l : list A) :
  (forall x h, x ∈ l -> h `prefix_of` (f x h).1) ->
  forall h, h `prefix_of` (traverse f l h).1.
Proof.
  induction l as [|x rest IH]; intros Hf h; cbn [traverse]; [reflexivity|].
  pose proof (Hf x h (list_elem_of_here _ _)) as Hx.
  destruct (f x h) as [h1 [y|e]]; cbn [fst] in Hx; [|exact Hx].
  assert (Hrest : h1 `prefix_of` (traverse f rest h1).1).
  { apply IH. intros x' h' Hin. apply Hf. right. exact Hin. }
  destruct (traverse f rest h1) as [h2 [ys|e]]; cbn [fst] in *; etrans; eassumption.
Qed.

Lemma build_grows (make : list ref -> object) (r : store * pyres (list ref)) (h : store) :
  h `prefix_of` r.1 -> h `prefix_of` (build make r).1.
Proof.
  destruct r as [h1 [items|e]]; cbn [build fst]; intros H; [|exact H].
  etrans; [exact H|]. apply prefix_app_r. reflexivity.
Qed.

Lemma interpolate_grows (repr_room : nat) (comprehension_frame : bool) (room : nat) :
  forall template context h,
    h `prefix_of` (interpolate repr_room comprehension_frame room template context h).1.
Proof.
  induction room as [room IH] using lt_wf_ind. intros template context h.
  destruct room as [|room]; [reflexivity|]. cbn [interpolate].
  destruct template as [| | |s|l]; try reflexivity.
  - destruct (fullmatch_expression s); reflexivity.
  - match goal with |- context [match ?x with Some _ => _ | None => _ end] =>
      destruct x as [o|] end; [|reflexivity].
    assert (Hcomp : forall r, (r < S room)%nat ->
              h `prefix_of`
                (match o with
                 | ODict entries =>
                     build (fun vs => ODict (zip (map fst entries) vs))
                       (traverse (fun v h1 => interpolate repr_room comprehension_frame
                                                 r v context h1) (map snd entries) h)
                 | OList items =>
                     build OList
                       (traverse (fun v h1 => interpolate repr_room comprehension_frame
                                                 r v context h1) items h)
                 end).1).
    { intros r Hr. destruct o as [items|entries]; apply build_grows, traverse_grows;
        intros x h1 _; apply (IH r Hr). }
    destruct comprehension_frame.
    + destruct room as [|inner]; [reflexivity|]. apply Hcomp. lia.
    + apply Hcomp. lia.
Qed.

(** *** Path resolution never raises *)

Lemma int_of_raises (s : string) (e : exn) :
  int_of s = Raise e -> exists msg, e = ValueError msg.
Proof.
  unfold int_of. destruct (_ <? _)%nat; [intros [= <-]; eexists; reflexivity|].
  apply py_int_raises.
Qed.

Lemma getitem_raises (items : list ref) (i : Z) (e : exn) :
  getitem items i = Raise e -> e = IndexError.
Proof.
  unfold getitem.
  destruct (_ && _); [destruct (nth_error _ _)|]; intros H; inversion H; reflexivity.
Qed.

Lemma getitem_in (items : list ref) (i : Z) (v : ref) :
  getitem items i = Ret v -> v ∈ items.
Proof.
  unfold getitem. destruct (_ && _); [|discriminate].
  destruct (nth_error items _) eqn:E; [|discriminate]. intros [= <-].
  apply list_elem_of_In. eapply nth_error_In, E.
Qed.

Lemma get_in (entries : list (string * ref)) (k : string) :
  get entries k = RNone \/ get entries k ∈ map snd entries.
Proof.
  induction entries as [|[k' v] rest IH]; [left; reflexivity|]. cbn [get map snd].
  destruct (String.eqb k' k); [right; left|].
  destruct IH as [IH|IH]; [left; exact IH|right; right; exact IH].
Qed.

Lemma walk_returns (h : store) (parts : list string) :
  forall current, exists v, walk h parts current = Ret v.
Proof.
  induction parts as [|part rest IH]; intros current; cbn [walk]; [eauto|].
  destruct current as [| | | |l]; eauto.
  destruct (h !! l) as [[items|entries]|]; eauto.
  - unfold mbind, pyres_bind, bind.
    destruct (int_of part) as [i|e] eqn:Ei.
    + destruct (getitem items i) as [v|e] eqn:Eg.
      * destruct (is_none v); eauto.
      * apply getitem_raises in Eg. subst. eauto.
    + destruct (int_of_raises _ _ Ei) as [msg ->]. eauto.
  - destruct (is_none _); eauto.
Qed.

Lemma split_on_cons (sep : ascii) (s : string) :
  exists part rest, split_on sep s = part :: rest.
Proof.
  induction s as [|c s (part & rest & IH)]; cbn [split_on]; [eauto|].
  destruct (Ascii.eqb c sep); [eauto|]. rewrite IH. eauto.
Qed.

(** What a path of at least one segment resolves to is [None] or a value
    held in an object of the store. *)
Lemma walk_stored (h : store) (rest : list string) :
  forall part current v,
    walk h (part :: rest) current = Ret v ->
    v = RNone \/ exists o, o ∈ h /\ v ∈ values_of o.
Proof.
  induction rest as [|part' rest IH]; intros part current v; cbn [walk].
  - destruct current as [| | | |l]; try (intros [= <-]; auto).
    destruct (h !! l) as [[items|entries]|] eqn:El; try (intros [= <-]; auto).
    + unfold mbind, pyres_bind, bind.
      destruct (int_of part) as [i|e]; [|destruct e; try discriminate; intros [= <-]; auto].
      destruct (getitem items i) as [x|e] eqn:Eg;
        [|destruct e; try discriminate; intros [= <-]; auto].
      destruct (is_none x); intros [= <-]; [auto|].
      right. exists (OList items). split; [eapply list_elem_of_lookup_2, El|].
      apply (getitem_in _ _ _ Eg).
    + destruct (is_none (get entries part)) eqn:En; intros [= <-]; [auto|].
      right. exists (ODict entries). split; [eapply list_elem_of_lookup_2, El|].
      destruct (get_in entries part) as [H|H]; [rewrite H in En; discriminate En|exact H].
  - destruct current as [| | | |l]; try (intros [= <-]; auto).
    destruct (h !! l) as [[items|entries]|]; try (intros [= <-]; auto).
    + unfold mbind, pyres_bind, bind.
      destruct (int_of part) as [i|e]; [|destruct e; try discriminate; intros [= <-]; auto].
      destruct (getitem items i) as [x|e];
        [|destruct e; try discriminate; intros [= <-]; auto].
      destruct (is_none x); [intros [= <-]; auto|]. apply IH.
    + destruct (is_none (get entries part)); [intros [= <-]; auto|]. apply IH.
Qed.

(** *** A closed store read after it has grown *)

Lemma lookup_ext (h new : store) (l : nat) :
  ref_ok h (RObj l) = true -> (h ++ new) !! l = h !! l.
Proof. cbn [ref_ok]. intros H. apply Nat.ltb_lt in H. apply lookup_app_l, H. Qed.

Lemma closed_values (h : store) (o : object) (v : ref) :
  closed h = true -> o ∈ h -> v ∈ values_of o -> ref_ok h v = true.
Proof.
  unfold closed. rewrite forallb_forall. intros Hc Ho Hv.
  apply list_elem_of_In in Ho. specialize (Hc o Ho).
  rewrite forallb_forall in Hc. apply Hc, list_elem_of_In, Hv.
Qed.

Lemma walk_ext (h new : store) (parts : list string) :
  closed h = true ->
  forall current, ref_ok h current = true ->
    walk (h ++ new) parts current = walk h parts current.
Proof.
  intros Hc. induction parts as [|part rest IH]; intros current Hok; [reflexivity|].
  cbn [walk]. destruct current as [| | | |l]; try reflexivity.
  rewrite (lookup_ext h new l Hok).
  destruct (h !! l) as [[items|entries]|] eqn:El; [| |reflexivity].
  - unfold mbind, pyres_bind, bind. destruct (int_of part) as [i|e]; [|reflexivity].
    destruct (getitem items i) as [x|e] eqn:Eg; [|reflexivity].
    destruct (is_none x); [reflexivity|]. apply IH.
    apply (closed_values h (OList items)); [exact Hc|eapply list_elem_of_lookup_2, El|].
    apply (getitem_in _ _ _ Eg).
  - destruct (is_none (get entries part)) eqn:En; [reflexivity|]. apply IH.
    apply (closed_values h (ODict entries)); [exact Hc|eapply list_elem_of_lookup_2, El|].
    destruct (get_in entries part) as [H|H]; [rewrite H in En; discriminate En|exact H].
Qed.

Lemma mapM_ext {A B : Type} (f g : A -> pyres B) (l : list A) :
  (forall x, x ∈ l -> f x = g x) -> mapM f l = mapM g l.
Proof.
  induction l as [|x rest IH]; intros H; [reflexivity|]. cbn [mapM].
  rewrite (H x (list_elem_of_here _ _)), IH; [reflexivity|].
  intros y Hy. apply H. right. exact Hy.
Qed.

Lemma repr_ext (h new : store) :
  closed h = true ->
  forall room active v, ref_ok h v = true ->
    repr room active (h ++ new) v = repr room active h v.
Proof.
  intros Hc. induction room as [|room IH]; intros active v Hok; [reflexivity|].
  cbn [repr]. destruct v as [| | | |l]; try reflexivity.
  rewrite (lookup_ext h new l Hok).
  destruct (h !! l) as [[items|entries]|] eqn:El; [| |reflexivity].
  - destruct (bool_decide _); [reflexivity|].
    rewrite (mapM_ext (repr room (l :: active) (h ++ new)) (repr room (l :: active) h));
      [reflexivity|].
    intros x Hx. apply IH.
    apply (closed_values h (OList items)); [exact Hc|eapply list_elem_of_lookup_2, El|exact Hx].
  - destruct (bool_decide _); [reflexivity|].
    match goal with |- mbind _ (mapM ?f _) = mbind _ (mapM ?g _) =>
      rewrite (mapM_ext f g); [reflexivity|] end.
    intros [k x] Hx. cbn [fst snd]. rewrite IH; [reflexivity|].
    apply (closed_values h (ODict entries)); [exact Hc|eapply list_elem_of_lookup_2, El|].
    cbn [values_of]. apply list_elem_of_fmap. exists (k, x). auto.
Qed.

Lemma str_ext (repr_room : nat) (h new : store) (v : ref) :
  closed h = true -> ref_ok h v = true ->
  str repr_room (h ++ new) v = str repr_room h v.
Proof. intros Hc Hok. unfold str. destruct v; try reflexivity; apply repr_ext; assumption. Qed.

(** *** Within the limits interpolation returns *)

Lemma renders_value (repr_room : nat) (h : store) (o : object) (v : ref) :
  renders repr_room h = true -> o ∈ h -> v ∈ values_of o ->
  exists s, str repr_room h v = Ret s.
Proof.
  unfold renders. rewrite forallb_forall. intros Hr Ho Hv.
  apply list_elem_of_In in Ho. specialize (Hr o Ho).
  rewrite forallb_forall in Hr. apply list_elem_of_In in Hv. specialize (Hr v Hv).
  destruct (str repr_room h v); [eauto|discriminate Hr].
Qed.

Section Returns.

Variable repr_room : nat.
Variable comprehension_frame : bool.
Variable h : store.
Variable context : ref.
Hypothesis h_closed : closed h = true.
Hypothesis h_renders : renders repr_room h = true.
Hypothesis context_ok : ref_ok h context = true.

Lemma resolve_ext (new : store) (g : string) :
  resolve_expression (h ++ new) g context = resolve_expression h g context.
Proof. unfold resolve_expression. apply walk_ext; assumption. Qed.

Lemma replacer_returns (new : store) (g : string) :
  exists r, replacer repr_room (h ++ new) context g = Ret r.
Proof.
  unfold replacer. rewrite resolve_ext. unfold resolve_expression.
  destruct (split_on_cons "." (strip g)) as (part & rest & ->).
  destruct (walk_returns h (part :: rest) context) as [v Hv]. rewrite Hv.
  cbn [mbind pyres_bind bind].
  destruct (walk_stored h rest part context v Hv) as [->|(o & Ho & Hin)]; [cbn; eauto|].
  destruct (is_none v); [eauto|].
  rewrite str_ext; [|exact h_closed|exact (closed_values h o v h_closed Ho Hin)].
  exact (renders_value repr_room h o v h_renders Ho Hin).
Qed.

Lemma sub_returns (room : nat) (new : store) (s : string) :
  (2 <= room)%nat ->
  forall skip, exists r, sub_expressions repr_room room (h ++ new) context skip s = Ret r.
Proof.
  intros Hroom. induction s as [|c rest IH]; intros skip; cbn [sub_expressions]; [eauto|].
  destruct skip as [|k]; [|apply IH].
  destruct (expression_at (String c rest)) as [[g len]|].
  - unfold call. destruct (Nat.ltb_spec room 2) as [Hlt|_]; [lia|].
    destruct (replacer_returns new g) as [r ->].
    destruct (IH (Nat.pred len)) as [t ->]. cbn. eauto.
  - destruct (IH O) as [t ->]. cbn. eauto.
Qed.

Lemma traverse_returns {A B : Type} (f : A -> store -> store * pyres B) (l : list A) :
  (forall x h1, x ∈ l -> h `prefix_of` h1 -> exists h2 y, f x h1 = (h2, Ret y)) ->
  (forall x h1, h1 `prefix_of` (f x h1).1) ->
  forall h1, h `prefix_of` h1 -> exists h2 ys, traverse f l h1 = (h2, Ret ys).
Proof.
  intros Hret Hgrow. induction l as [|x rest IH]; intros h1 Hpre; cbn [traverse]; [eauto|].
  destruct (Hret x h1 (list_elem_of_here _ _) Hpre) as (h2 & y & Hf).
  pose proof (Hgrow x h1) as Hg. rewrite Hf in *. cbn [fst] in Hg.
  destruct (IH (fun x' h' Hin => Hret x' h' (list_elem_of_further _ _ _ Hin)) h2)
    as (h3 & ys & ->); [etrans; eassumption|].
  eauto.
Qed.

Lemma interpolate_returns (n : nat) :
  forall room template h1,
    h `prefix_of` h1 ->
    ref_ok h template = true ->
    nesting_le n h template = true ->
    (n * frames_per_level comprehension_frame + 3 <= room)%nat ->
    exists h2 v,
      interpolate repr_room comprehension_frame room template context h1 = (h2, Ret v).
Proof.
  induction n as [n IH] using lt_wf_ind. intros room template h1 [new ->] Hok Hnest Hroom.
  destruct room as [|room]; [lia|]. cbn [interpolate].
  destruct template as [| | |s|l]; eauto.
  - destruct (fullmatch_expression s) as [g|].
    + unfold call. destruct (Nat.ltb_spec room 1) as [Hlt|_]; [lia|].
      rewrite resolve_ext. unfold resolve_expression.
      destruct (walk_returns h (split_on "." (strip g)) context) as [v ->]. eauto.
    + assert (H2 : (2 <= room)%nat) by lia.
      destruct (sub_returns room new s H2 O) as [r ->]. cbn. eauto.
  - rewrite (lookup_ext h new l Hok).
    destruct (h !! l) as [o|] eqn:El; [|eauto].
    destruct n as [|n']; cbn [nesting_le] in Hnest; rewrite El in Hnest;
      [discriminate Hnest|].
    rewrite forallb_forall in Hnest.
    assert (Hcomp : forall r,
              (n' * frames_per_level comprehension_frame + 3 <= r)%nat ->
              exists h2 v,
                match o with
                | ODict entries =>
                    build (fun vs => ODict (zip (map fst entries) vs))
                      (traverse (fun v h1 => interpolate repr_room comprehension_frame
                                                r v context h1) (map snd entries) (h ++ new))
                | OList items =>
                    build OList
                      (traverse (fun v h1 => interpolate repr_room comprehension_frame
                                                r v context h1) items (h ++ new))
                end = (h2, Ret v)).
    { intros r Hr.
      assert (Hall : forall x h1, x ∈ values_of o -> h `prefix_of` h1 ->
                exists h2 y,
                  interpolate repr_room comprehension_frame r x context h1 = (h2, Ret y)).
      { intros x h1 Hx Hpre. apply (IH n' (Nat.lt_succ_diag_r n')); [exact Hpre| | |exact Hr].
        - apply (closed_values h o x h_closed); [eapply list_elem_of_lookup_2, El|exact Hx].
        - apply Hnest, list_elem_of_In, Hx. }
      destruct o as [items|entries]; cbn [values_of] in Hall.
      - destruct (traverse_returns _ items Hall
                    (fun x h1 => interpolate_grows repr_room comprehension_frame r x context h1)
                    (h ++ new)) as (h2 & ys & ->); [apply prefix_app_r; reflexivity|].
        cbn [build]. eauto.
      - destruct (traverse_returns _ (map snd entries) Hall
                    (fun x h1 => interpolate_grows repr_room comprehension_frame r x context h1)
                    (h ++ new)) as (h2 & ys & ->); [apply prefix_app_r; reflexivity|].
        cbn [build]. eauto. }
    unfold frames_per_level in *. destruct comprehension_frame.
    + destruct room as [|inner]; [lia|]. apply Hcomp. lia.
    + apply Hcomp. lia.
Qed.

End Returns.




(** A template nested deeper than the frames that are left makes
    [interpolate] raise [RecursionError]: the node data of [sample] needs
    six frames where a comprehension has a frame of its own, four where it
    has none. *)
Example deep_template_raises :
  (interpolate 50 true 5 (RObj 2) (RObj 0) sample).2 = Raise RecursionError
  /\ (interpolate 50 true 5 (RObj 2) (RObj 0) sample).1 = sample
  /\ (interpolate 50 false 3 (RObj 2) (RObj 0) sample).2 = Raise RecursionError
  /\ (interpolate 50 false 4 (RObj 2) (RObj 0) sample).2 = Ret (RObj 5).
Proof. repeat split; vm_compute; reflexivity. Qed.

(** The node data of [sample] interpolated: two new objects, the old ones
    as they were; the list that contains itself is printed with [[...]]. *)
Example sample_interpolated :
  interpolate 50 true 7 (RObj 2) (RObj 0) sample
  = (sample ++ [OList [RObj 1; RBool true];
                ODict [("to", RStr "x"); ("msg", RStr "n=5 [1, 2, [...]] |1");
                       ("items", RObj 4)]],
     Ret (RObj 5)).
Proof. vm_compute. reflexivity. Qed.

End InterpreterFacts.
